(** * filehasher: a shallow embedding of the scan / hash / reconcile / verify core

    The development follows the package structure of the Go sources:

    - [sha256]   : crypto/sha256 and encoding/hex as used by the hasher
                   (FIPS 180-4, streaming digest object);
    - [os]       : the part of the file system the program observes
                   (stat, open/read, directory trees);
    - [hasher]   : internal/hasher/hasher.go;
    - [db]       : internal/db/db.go, the [files] table and its statements;
    - [scanner]  : internal/scanner/scanner.go ([Walk], worker defaults);
    - [verifier] : internal/verifier/verifier.go;
    - [main]     : the body of [scanCmd] (cmd/main.go);
    - [dbread]   : the read queries of internal/db/db.go and [scan_history];
    - [resolve]  : [DetectUnraidDisks] and [ResolveDisk] of the scanner;
    - [cli]      : the body of [verifyCmd] (cmd/main.go);
    - [obs]      : observations on records and results used in statements.

    Integers that Go declares as [int], [int64] are modelled in [Z]; the
    counters only ever count files, so no wrap-around is reachable and none
    is written out.  Timestamps are seconds in [Z].  Go strings are byte
    strings, modelled by [string] (a list of 8-bit [ascii]).

    What lies outside the program is an input of the model: the file system
    is an [os.World], the clock a function or a reading [now], a compiled
    regular expression its [MatchString] predicate.  The goroutines are
    modelled by what they compute: a hashing pool yields one result per
    input, and the loops that consume results are functions of the list of
    results in their order of arrival; properties of a whole run are stated
    for every permutation of the results where the order can differ.  SQL
    statements are taken to succeed: the branches that only report a
    database error are left out, and with them the increments of the error
    counters they perform, so the error counters of the model count hashing
    failures only; progress output and report rendering are left out as
    well. *)

From Stdlib Require Import ZArith List String Ascii Bool Lia Permutation Sorted.
From Stdlib.Strings Require Import Byte.
From stdpp Require Import base gmap strings.
Import ListNotations.

Local Open Scope string_scope.
Local Open Scope list_scope.
Local Open Scope Z_scope.

(* ===================================================================== *)
(** * crypto/sha256 and encoding/hex *)
(* ===================================================================== *)

Module sha256.

Definition mask32 : Z := 0xFFFFFFFF.
Definition w32 (x : Z) : Z := Z.land x mask32.
Definition add32 (x y : Z) : Z := w32 (x + y).
Definition not32 (x : Z) : Z := Z.lxor x mask32.

(** bits.RotateLeft32(x, -n) *)
Definition rotr (n x : Z) : Z :=
  Z.lor (Z.shiftr x n) (w32 (Z.shiftl x (32 - n))).

Definition Ch (x y z : Z) : Z := Z.lxor (Z.land x y) (Z.land (not32 x) z).
Definition Maj (x y z : Z) : Z :=
  Z.lxor (Z.lxor (Z.land x y) (Z.land x z)) (Z.land y z).
Definition bigSigma0 (x : Z) : Z := Z.lxor (Z.lxor (rotr 2 x) (rotr 13 x)) (rotr 22 x).
Definition bigSigma1 (x : Z) : Z := Z.lxor (Z.lxor (rotr 6 x) (rotr 11 x)) (rotr 25 x).
Definition smallSigma0 (x : Z) : Z := Z.lxor (Z.lxor (rotr 7 x) (rotr 18 x)) (Z.shiftr x 3).
Definition smallSigma1 (x : Z) : Z := Z.lxor (Z.lxor (rotr 17 x) (rotr 19 x)) (Z.shiftr x 10).

(** The constants are defined as FIPS 180-4 defines them: the first 32 bits
    of the fractional parts of the cube roots (for [_K]) and of the square
    roots (for the initial value) of the first primes. *)
Definition isPrime (n : nat) : bool :=
  forallb (fun d => negb (Nat.eqb (Nat.modulo n d) 0)) (seq 2 (n - 2)).

Definition primes : list Z :=
  map Z.of_nat (List.filter isPrime (seq 2 310)).

(** The integer cube root of [x], found bit by bit below [2 ^ bits]. *)
Fixpoint cbrtBits (bits : nat) (x r : Z) : Z :=
  match bits with
  | O => r
  | S bits' =>
      let r' := r + 2 ^ Z.of_nat bits' in
      cbrtBits bits' x (if r' * r' * r' <=? x then r' else r)
  end.

Definition fracCbrt32 (p : Z) : Z := w32 (cbrtBits 40 (p * 2 ^ 96) 0).
Definition fracSqrt32 (p : Z) : Z := w32 (Z.sqrt (p * 2 ^ 64)).

Definition _K : list Z := Eval vm_compute in map fracCbrt32 (firstn 64 primes).

Definition init : list Z := Eval vm_compute in map fracSqrt32 (firstn 8 primes).

Definition chunk : nat := 64.

Definition byteZ (b : byte) : Z := Z.of_N (Byte.to_N b).
Definition Zbyte (z : Z) : byte :=
  match Byte.of_N (Z.to_N (Z.land z 0xFF)) with Some b => b | None => x00 end.

(** Big-endian 32-bit words of a block. *)
Fixpoint words (p : list byte) : list Z :=
  match p with
  | b0 :: b1 :: b2 :: b3 :: rest =>
      Z.lor (Z.lor (Z.shiftl (byteZ b0) 24) (Z.shiftl (byteZ b1) 16))
            (Z.lor (Z.shiftl (byteZ b2) 8) (byteZ b3)) :: words rest
  | _ => []
  end.

(** The message schedule, kept most recent word first: after the loop the
    list holds w[63] .. w[0]. *)
Fixpoint extend (n : nat) (rw : list Z) : list Z :=
  match n with
  | O => rw
  | S n' =>
      let v1 := nth 1 rw 0 in
      let v2 := nth 14 rw 0 in
      let wi := add32 (add32 (add32 (smallSigma1 v1) (nth 6 rw 0)) (smallSigma0 v2))
                      (nth 15 rw 0) in
      extend n' (wi :: rw)
  end.

Definition schedule (p : list byte) : list Z := rev (extend 48 (rev (words p))).

Definition vars : Type := Z * Z * Z * Z * Z * Z * Z * Z.

Definition round (s : vars) (kw : Z * Z) : vars :=
  let '(a, b, c, d, e, f, g, h) := s in
  let t1 := add32 (add32 (add32 (add32 h (bigSigma1 e)) (Ch e f g)) (fst kw)) (snd kw) in
  let t2 := add32 (bigSigma0 a) (Maj a b c) in
  (add32 t1 t2, a, b, c, add32 d t1, e, f, g).

Definition toVars (h : list Z) : vars :=
  (nth 0 h 0, nth 1 h 0, nth 2 h 0, nth 3 h 0, nth 4 h 0, nth 5 h 0, nth 6 h 0, nth 7 h 0).

(** One call of [block] on a single 64-byte chunk. *)
Definition block (h : list Z) (p : list byte) : list Z :=
  let '(a, b, c, d, e, f, g, hh) :=
    fold_left round (combine _K (schedule p)) (toVars h) in
  [ add32 (nth 0 h 0) a; add32 (nth 1 h 0) b; add32 (nth 2 h 0) c; add32 (nth 3 h 0) d;
    add32 (nth 4 h 0) e; add32 (nth 5 h 0) f; add32 (nth 6 h 0) g; add32 (nth 7 h 0) hh ].

(** The digest object: chaining value [h], buffered bytes [x] (fewer than
    [chunk] of them) and the byte count [len] (a uint64). *)
Record digest : Type := mkDigest { h : list Z; x : list byte; len : Z }.

Definition New : digest := {| h := init; x := []; len := 0 |}.

(** Absorbing one byte: it is appended to the buffer, and a full buffer is
    compressed and emptied. *)
Definition absorb (d : digest) (b : byte) : digest :=
  let x' := x d ++ [b] in
  let len' := (len d + 1) mod 2 ^ 64 in
  if Nat.eqb (length x') chunk
  then {| h := block (h d) x'; x := []; len := len' |}
  else {| h := h d; x := x'; len := len' |}.

(** [d.Write(p)] *)
Definition Write (d : digest) (p : list byte) : digest := fold_left absorb p d.

Definition be64 (n : Z) : list byte :=
  map (fun i => Zbyte (Z.shiftr n (8 * i))) [7; 6; 5; 4; 3; 2; 1; 0].

Definition be32 (n : Z) : list byte :=
  map (fun i => Zbyte (Z.shiftr n (8 * i))) [3; 2; 1; 0].

(** Padding of [checkSum]: 0x80, zeros up to 56 mod 64, the bit length. *)
Definition padding (len : Z) : list byte :=
  let r := len mod 64 in
  let zeros := if r <? 56 then 55 - r else 119 - r in
  x80 :: repeat x00 (Z.to_nat zeros) ++ be64 ((len * 8) mod 2 ^ 64).

(** [d.Sum(nil)] *)
Definition Sum (d : digest) : list byte :=
  flat_map be32 (h (Write d (padding (len d)))).

(** [sha256.Sum256(data)] *)
Definition Sum256 (data : list byte) : list byte := Sum (Write New data).

Definition hextable : string := "0123456789abcdef".

Definition hexdigit (n : Z) : ascii :=
  match String.get (Z.to_nat n) hextable with Some c => c | None => "0"%char end.

(** [hex.EncodeToString] *)
Fixpoint EncodeToString (src : list byte) : string :=
  match src with
  | [] => EmptyString
  | b :: rest =>
      String (hexdigit (Z.shiftr (byteZ b) 4))
             (String (hexdigit (Z.land (byteZ b) 0x0f)) (EncodeToString rest))
  end.

End sha256.

Definition hello_world : list byte :=
  list_byte_of_string "hello world" ++ [x0a].

(* ===================================================================== *)
(** * The file system as the program observes it *)
(* ===================================================================== *)

Module os.

(** Outcome of [os.Stat(path)]: the size and [ModTime().Unix()] of the
    file, an error for which [os.IsNotExist] holds, or another error. *)
Inductive StatResult : Type :=
| StatOK (size mtime : Z)
| StatNotExist
| StatError.

(** What [f.Stat()] returns on an open file. *)
Record FileStat : Type := mkFileStat { IsDir : bool; Size : Z; ModTime : Z }.

(** An open file: the result of [f.Stat()] ([None] when it fails), the
    byte slices handed out by the successive [Read] calls of
    [io.CopyBuffer] (each at most the buffer long), and whether the stream
    ends in a read error instead of [io.EOF]. *)
Record File : Type := mkFile {
  fstat : option FileStat;
  reads : list (list byte);
  readErr : bool
}.

(** An entry met by [filepath.WalkDir]: a directory with the entries
    [os.ReadDir] returned for it, or anything else, with
    [d.Type().IsRegular()] and the result of [d.Info()] ([None] when it
    fails) as size and modification time. *)
#[local] Unset Elimination Schemes.
Inductive DirEntry : Type :=
| Dir (name : string) (entries : list DirEntry)
| NonDir (name : string) (regular : bool) (info : option (Z * Z)).
#[local] Set Elimination Schemes.

Definition Name (e : DirEntry) : string :=
  match e with Dir n _ => n | NonDir n _ _ => n end.

(** [Lstat root] is [None] when the root cannot be examined at all. *)
Record World : Type := mkWorld {
  Stat : string -> StatResult;
  Open : string -> option File;
  Lstat : string -> option DirEntry
}.

(** The bytes of a file are the concatenation of what its reads return. *)
Definition contents (f : File) : list byte := concat (reads f).

End os.

(* ===================================================================== *)
(** * internal/hasher/hasher.go *)
(* ===================================================================== *)

Module hasher.

Inductive error : Type :=
| ErrOpen (path : string)
| ErrStat (path : string)
| ErrIsDirectory (path : string)
| ErrHash (path : string).

Module Result.
Record t : Type := mk {
  Path : string; Disk : string; Size : Z; Mtime : Z;
  SHA256 : string; Err : option error
}.
End Result.

Module FileInfo.
Record t : Type := mk { Path : string; Disk : string; Size : Z; Mtime : Z }.
End FileInfo.

Record Hasher : Type := mkHasher { workers : Z }.

Definition New (workers : Z) : Hasher :=
  let workers := if workers <=? 0 then 1 else workers in
  {| workers := workers |}.

(** [io.CopyBuffer(h, f, buf)]: every slice read is written to the digest;
    a read error other than EOF is returned. *)
Definition CopyBuffer (h : sha256.digest) (f : os.File) : option sha256.digest :=
  let h' := fold_left sha256.Write (os.reads f) h in
  if os.readErr f then None else Some h'.

Definition HashFile (w : os.World) (path : string) : Result.t + error :=
  match os.Open w path with
  | None => inr (ErrOpen path)
  | Some f =>
      match os.fstat f with
      | None => inr (ErrStat path)
      | Some stat =>
          if os.IsDir stat then inr (ErrIsDirectory path)
          else
            match CopyBuffer sha256.New f with
            | None => inr (ErrHash path)
            | Some h =>
                inl {| Result.Path := path;
                       Result.Disk := "";
                       Result.Size := os.Size stat;
                       Result.Mtime := os.ModTime stat;
                       Result.SHA256 := sha256.EncodeToString (sha256.Sum h);
                       Result.Err := None |}
            end
      end
  end.

Definition hashFileWithInfo (w : os.World) (fi : FileInfo.t) : Result.t + error :=
  match os.Open w (FileInfo.Path fi) with
  | None => inr (ErrOpen (FileInfo.Path fi))
  | Some f =>
      match CopyBuffer sha256.New f with
      | None => inr (ErrHash (FileInfo.Path fi))
      | Some h =>
          inl {| Result.Path := FileInfo.Path fi;
                 Result.Disk := FileInfo.Disk fi;
                 Result.Size := FileInfo.Size fi;
                 Result.Mtime := FileInfo.Mtime fi;
                 Result.SHA256 := sha256.EncodeToString (sha256.Sum h);
                 Result.Err := None |}
      end
  end.

Definition setDisk (disk : string) (r : Result.t) : Result.t :=
  {| Result.Path := Result.Path r; Result.Disk := disk;
     Result.Size := Result.Size r; Result.Mtime := Result.Mtime r;
     Result.SHA256 := Result.SHA256 r; Result.Err := Result.Err r |}.

(** The body of the worker loop of [HashFiles] for one item taken from the
    input channel: the value it sends on [results].  No worker carries
    state from one item to the next. *)
Definition hashOne (w : os.World) (fi : FileInfo.t) : Result.t :=
  let res :=
    if (0 <? FileInfo.Size fi) || (0 <? FileInfo.Mtime fi)
    then hashFileWithInfo w fi
    else match HashFile w (FileInfo.Path fi) with
         | inl r => inl (setDisk (FileInfo.Disk fi) r)
         | inr e => inr e
         end in
  match res with
  | inr e => {| Result.Path := FileInfo.Path fi; Result.Disk := FileInfo.Disk fi;
                Result.Size := 0; Result.Mtime := 0; Result.SHA256 := "";
                Result.Err := Some e |}
  | inl r => r
  end.

(** [HashFiles]: one result per item of the input channel.  The results are
    listed in input order, which is the order a single worker produces;
    with several workers any permutation of this list can arrive.  A pool
    without workers closes [results] at once. *)
Definition HashFiles (h : Hasher) (w : os.World) (files : list FileInfo.t)
  : list Result.t :=
  if workers h <=? 0 then [] else map (hashOne w) files.

(** A path holds [data] when it opens as a regular file whose reads
    deliver exactly [data] and then EOF. *)
Definition holds (w : os.World) (path : string) (data : list byte) : Prop :=
  exists f st,
    os.Open w path = Some f /\ os.fstat f = Some st /\ os.IsDir st = false /\
    os.readErr f = false /\ os.contents f = data.

(** The digest string the program reports for a byte content. *)
Definition digestOf (data : list byte) : string :=
  sha256.EncodeToString (sha256.Sum256 data).

End hasher.

(* ===================================================================== *)
(** * internal/db/db.go: the [files] table *)
(* ===================================================================== *)

(** Ordering a list by insertion, stable: the rows of a SELECT in the order of
    its ORDER BY, ties left in table order. *)
Section OrderBy.
Context {A : Type} (le : A -> A -> bool).

Fixpoint insert_by (a : A) (l : list A) : list A :=
  match l with
  | [] => [a]
  | b :: l' => if le a b then a :: l else b :: insert_by a l'
  end.

Definition order_by (l : list A) : list A := fold_right insert_by [] l.

End OrderBy.

Module filepath.

Definition slash : ascii := "/"%char.

Fixpoint dropSlashes (s : list ascii) : list ascii :=
  match s with
  | c :: s' => if Ascii.eqb c slash then dropSlashes s' else s
  | [] => []
  end.

Fixpoint takeElem (s : list ascii) : list ascii :=
  match s with
  | c :: s' => if Ascii.eqb c slash then [] else c :: takeElem s'
  | [] => []
  end.

(** [filepath.Base]: the last element of the path, after removing trailing
    slashes; "." for the empty path and "/" for a path of slashes only. *)
Definition Base (path : string) : string :=
  match path with
  | EmptyString => "."
  | _ =>
      let stripped := dropSlashes (rev (list_ascii_of_string path)) in
      match rev (takeElem stripped) with
      | [] => "/"
      | elem => string_of_list_ascii elem
      end
  end.

(** [filepath.Join(dir, name)] for a clean directory path and a single
    name, as [WalkDir] forms the paths of directory entries. *)
Definition Join (dir name : string) : string :=
  if String.eqb dir "/" then String.append "/" name
  else String.append dir (String.append "/" name).

End filepath.

(** The LIKE operator of the store on byte strings: [%] matches any run of
    bytes, [_] one character (a byte and, after a UTF-8 lead byte, its
    continuation bytes), any other byte itself, ASCII letters without regard
    to case.  There is no escape character.  The store compares decoded
    characters; on text of ASCII bytes other than NUL, where a character is
    a byte, this is its LIKE. *)
Module like.

Definition lower (c : ascii) : ascii :=
  let n := nat_of_ascii c in
  if (Nat.leb 65 n && Nat.leb n 90)%bool then ascii_of_nat (n + 32) else c.

Definition eq_nocase (c d : ascii) : bool := Ascii.eqb (lower c) (lower d).

Definition is_cont (c : ascii) : bool :=
  let n := nat_of_ascii c in (Nat.leb 128 n && Nat.leb n 191)%bool.

Fixpoint skip_cont (s : list ascii) : list ascii :=
  match s with
  | c :: s' => if is_cont c then skip_cont s' else s
  | [] => []
  end.

Definition next_char (s : list ascii) : option (list ascii) :=
  match s with
  | [] => None
  | c :: s' => Some (if Nat.leb 192 (nat_of_ascii c) then skip_cont s' else s')
  end.

(** Some suffix of [s] satisfies [f]. *)
Fixpoint any_suffix (f : list ascii -> bool) (s : list ascii) : bool :=
  f s || match s with [] => false | _ :: s' => any_suffix f s' end.

Fixpoint matches (p s : list ascii) {struct p} : bool :=
  match p with
  | [] => match s with [] => true | _ => false end
  | c :: p' =>
      if Ascii.eqb c "%"%char then any_suffix (matches p') s
      else if Ascii.eqb c "_"%char then
        match next_char s with None => false | Some s' => matches p' s' end
      else
        match s with
        | [] => false
        | d :: s' => eq_nocase c d && matches p' s'
        end
  end.

(** [subject LIKE pattern] *)
Definition LIKE (subject pattern : string) : bool :=
  matches (list_ascii_of_string pattern) (list_ascii_of_string subject).

End like.

Module db.

Module FileRecord.
Record t : Type := mk {
  ID : Z; Path : string; Disk : string; Size : Z; Mtime : Z; SHA256 : string;
  FirstSeen : Z; LastVerified : Z; Status : string
}.
End FileRecord.
Import FileRecord.

Module QuickLookup.
Record t : Type := mk { Size : Z; Mtime : Z; SHA256 : string }.
End QuickLookup.

(** The [files] table in row order, and the counter behind
    [id INTEGER PRIMARY KEY AUTOINCREMENT]: the largest id handed out.
    [first_seen] and [last_verified] are kept as seconds and compared as
    such; rows that tie in an ORDER BY keep their table order. *)
Record DB : Type := mkDB { files : list FileRecord.t; seq : Z }.

Definition hasPath (path : string) (r : FileRecord.t) : bool :=
  String.eqb (Path r) path.

(** The rows selected by [WHERE path = ?]. *)
Definition rowsAt (path : string) (d : DB) : list FileRecord.t :=
  List.filter (hasPath path) (files d).

(** [ON CONFLICT(path) DO UPDATE SET disk, size, mtime, sha256,
    last_verified, status] from the excluded row [f]. *)
Definition conflictUpdate (f r : FileRecord.t) : FileRecord.t :=
  {| ID := ID r; Path := Path r; Disk := Disk f; Size := Size f; Mtime := Mtime f;
     SHA256 := SHA256 f; FirstSeen := FirstSeen r; LastVerified := LastVerified f;
     Status := Status f |}.

Definition withID (id : Z) (f : FileRecord.t) : FileRecord.t :=
  {| ID := id; Path := Path f; Disk := Disk f; Size := Size f; Mtime := Mtime f;
     SHA256 := SHA256 f; FirstSeen := FirstSeen f; LastVerified := LastVerified f;
     Status := Status f |}.

(** [INSERT INTO files ... ON CONFLICT(path) DO UPDATE SET ...].  The
    statement draws a new id from the AUTOINCREMENT counter before the
    conflict is found, so the counter advances whether a row is inserted or
    an existing row is updated; an updated row keeps its own id. *)
Definition UpsertFileTx (f : FileRecord.t) (d : DB) : DB :=
  if existsb (hasPath (Path f)) (files d)
  then {| files := map (fun r => if hasPath (Path f) r then conflictUpdate f r else r)
                       (files d);
          seq := seq d + 1 |}
  else {| files := files d ++ [withID (seq d + 1) f]; seq := seq d + 1 |}.

Definition setStatus (now : Z) (status : string) (r : FileRecord.t) : FileRecord.t :=
  {| ID := ID r; Path := Path r; Disk := Disk r; Size := Size r; Mtime := Mtime r;
     SHA256 := SHA256 r; FirstSeen := FirstSeen r; LastVerified := now;
     Status := status |}.

(** [UPDATE files SET status = ?, last_verified = CURRENT_TIMESTAMP WHERE path = ?] *)
Definition UpdateStatusTx (now : Z) (path status : string) (d : DB) : DB :=
  {| files := map (fun r => if hasPath path r then setStatus now status r else r)
                  (files d);
     seq := seq d |}.

Definition lastVerifiedDesc (a b : FileRecord.t) : bool :=
  LastVerified b <=? LastVerified a.

Definition isCandidate (baseName : string) (size : Z) (r : FileRecord.t) : bool :=
  (Size r =? size) && like.LIKE (Path r) (String.append "%/" baseName).

Definition FindMoveCandidates (baseName : string) (size : Z) (limit : Z) (d : DB)
  : list FileRecord.t :=
  let limit := if limit <=? 0 then 20 else limit in
  firstn (Z.to_nat limit)
         (order_by lastVerifiedDesc (List.filter (isCandidate baseName size) (files d))).

Definition rekey (now : Z) (newPath newDisk : string) (newSize newMtime : Z)
           (r : FileRecord.t) : FileRecord.t :=
  {| ID := ID r; Path := newPath; Disk := newDisk; Size := newSize; Mtime := newMtime;
     SHA256 := SHA256 r; FirstSeen := FirstSeen r; LastVerified := now;
     Status := "ok" |}.

(** The effect of the UPDATE of [MovePathTx] on one row. *)
Definition moved (now : Z) (oldPath newPath newDisk : string) (newSize newMtime : Z)
           (r : FileRecord.t) : FileRecord.t :=
  if hasPath oldPath r then rekey now newPath newDisk newSize newMtime r else r.

(** [DELETE FROM files WHERE path = newPath] followed by
    [UPDATE files SET path, disk, size, mtime, last_verified, status = 'ok'
     WHERE path = oldPath]. *)
Definition MovePathTx (now : Z) (oldPath newPath newDisk : string)
           (newSize newMtime : Z) (d : DB) : DB :=
  let kept := List.filter (fun r => negb (hasPath newPath r)) (files d) in
  {| files := map (moved now oldPath newPath newDisk newSize newMtime) kept;
     seq := seq d |}.

Definition quickOf (r : FileRecord.t) : QuickLookup.t :=
  {| QuickLookup.Size := Size r; QuickLookup.Mtime := Mtime r;
     QuickLookup.SHA256 := SHA256 r |}.

(** [m[path] = &ql] for every row. *)
Definition LoadQuickLookupMap (d : DB) : gmap string QuickLookup.t :=
  fold_left (fun m r => <[Path r := quickOf r]> m) (files d) ∅.

Definition byPath (a b : FileRecord.t) : bool := String.leb (Path a) (Path b).

Definition GetAllFiles (d : DB) : list FileRecord.t := order_by byPath (files d).

Definition GetFilesByDisk (disk : string) (d : DB) : list FileRecord.t :=
  order_by byPath (List.filter (fun r => String.eqb (Disk r) disk) (files d)).

(** The constraints of the schema: [path] is UNIQUE, [id] is the primary
    key, and no id exceeds the AUTOINCREMENT counter. *)
Definition wf (d : DB) : Prop :=
  List.NoDup (map Path (files d)) /\ List.NoDup (map ID (files d)) /\
  Forall (fun r => ID r <= seq d) (files d).

(** The write statements of the catalog. *)
Inductive write : Type :=
| Upsert (f : FileRecord.t)
| UpdateStatus (path status : string)
| MovePath (oldPath newPath newDisk : string) (newSize newMtime : Z).

(** Executing a write at clock reading [now]. *)
Definition exec (d : DB) (nw : Z * write) : DB :=
  match snd nw with
  | Upsert f => UpsertFileTx f d
  | UpdateStatus path status => UpdateStatusTx (fst nw) path status d
  | MovePath o n disk size mtime => MovePathTx (fst nw) o n disk size mtime d
  end.

End db.

(* ===================================================================== *)
(** * internal/scanner/scanner.go *)
(* ===================================================================== *)

Module scanner.

Import hasher.

Inductive DiskType : Type := DiskTypeUnknown | DiskTypeHDD | DiskTypeSSD.

Definition DefaultWorkers (dt : DiskType) : Z :=
  match dt with
  | DiskTypeHDD => 1
  | DiskTypeSSD => 4
  | DiskTypeUnknown => 2
  end.

Record DiskInfo : Type := mkDiskInfo { Name : string; Path : string; Type_ : DiskType }.

(** A compiled pattern is used through [MatchString] only. *)
Definition Regexp : Type := string -> bool.

Record Scanner : Type := mkScanner { excludePatterns : list Regexp }.

(** [New]: the patterns are compiled in order, the first one that does not
    compile makes the constructor fail. *)
Fixpoint compileAll (compile : string -> option Regexp) (patterns : list string)
  : option (list Regexp) :=
  match patterns with
  | [] => Some []
  | p :: rest =>
      match compile p with
      | None => None
      | Some re =>
          match compileAll compile rest with
          | None => None
          | Some res => Some (re :: res)
          end
      end
  end.

Definition New (compile : string -> option Regexp) (excludePatterns : list string)
  : option Scanner :=
  match compileAll compile excludePatterns with
  | None => None
  | Some compiled => Some {| excludePatterns := compiled |}
  end.

(** [for _, re := range s.excludePatterns { if re.MatchString(path) ... }] *)
Definition excluded (s : Scanner) (path : string) : bool :=
  existsb (fun re => re path) (excludePatterns s).

(** The callback of [Walk] run by [filepath.WalkDir] over the entry [d] met
    at [path]: the descriptors sent on the channel, in order.  The callback
    answers [SkipDir] for an excluded directory and [nil] everywhere else, so
    the walk never stops early and [Walk] returns no error. *)
Fixpoint walkDir (s : Scanner) (disk : string) (path : string) (d : os.DirEntry)
  : list FileInfo.t :=
  match d with
  | os.Dir _ entries =>
      if excluded s path then []
      else flat_map (fun d1 => walkDir s disk (filepath.Join path (os.Name d1)) d1)
                    entries
  | os.NonDir _ regular info =>
      if negb regular then []
      else if excluded s path then []
      else match info with
           | None => []
           | Some (size, mtime) =>
               if size =? 0 then []
               else [ {| FileInfo.Path := path; FileInfo.Disk := disk;
                         FileInfo.Size := size; FileInfo.Mtime := mtime |} ]
           end
  end.

Definition Walk (s : Scanner) (w : os.World) (root disk : string) : list FileInfo.t :=
  match os.Lstat w root with
  | None => []
  | Some d => walkDir s disk root d
  end.

(** The Walker rules in the words of the specification.  [reaches s p d q e]:
    the entry [e] at path [q] lies at or below the entry [d] at path [p], and
    no directory on the way from [d] down to the parent of [e] matches an
    exclusion pattern. *)
Inductive reaches (s : Scanner) : string -> os.DirEntry -> string -> os.DirEntry -> Prop :=
| reaches_here (p : string) (d : os.DirEntry) : reaches s p d p d
| reaches_below (p name : string) (entries : list os.DirEntry) (d1 : os.DirEntry)
                (q : string) (e : os.DirEntry) :
    excluded s p = false ->
    In d1 entries ->
    reaches s (filepath.Join p (os.Name d1)) d1 q e ->
    reaches s p (os.Dir name entries) q e.

(** A descriptor the specification asks for: a regular file that is reached,
    is not excluded itself, whose size and modification time are known and
    whose size is not zero. *)
Definition wanted (s : Scanner) (disk root : string) (d : os.DirEntry)
           (fi : FileInfo.t) : Prop :=
  exists name size mtime,
    reaches s root d (FileInfo.Path fi) (os.NonDir name true (Some (size, mtime))) /\
    excluded s (FileInfo.Path fi) = false /\
    size <> 0 /\
    FileInfo.Disk fi = disk /\ FileInfo.Size fi = size /\ FileInfo.Mtime fi = mtime.

End scanner.

(* ===================================================================== *)
(** * internal/verifier/verifier.go *)
(* ===================================================================== *)

Module verifier.

Import hasher.
Import db.

Module VerifyResult.
Record t : Type := mk {
  Path : string; Status : string; OldHash : string; NewHash : string;
  Err : option hasher.error
}.
End VerifyResult.

Module Summary.
Record t : Type := mk {
  TotalChecked : Z; OK : Z; Corrupted : Z; Missing : Z; Skipped : Z; Errors : Z
}.
End Summary.

(** The database handle of the Go struct is the [db.DB] value threaded
    through [verifyFiles]. *)
Record Verifier : Type := mkVerifier { workers : Z; quick : bool }.

Definition New (workers : Z) (quick : bool) : Verifier :=
  let workers := if workers <=? 0 then 4 else workers in
  {| workers := workers; quick := quick |}.

(** What the feeder goroutine has done so far: the items sent to the hasher,
    the paths found missing, and the files skipped in quick mode. *)
Record Feed : Type := mkFeed {
  input : list FileInfo.t;
  missingPaths : list string;
  skippedCount : Z
}.

Definition feedOne (v : Verifier) (w : os.World) (acc : Feed) (f : FileRecord.t) : Feed :=
  match os.Stat w (FileRecord.Path f) with
  | os.StatNotExist =>
      {| input := input acc;
         missingPaths := missingPaths acc ++ [FileRecord.Path f];
         skippedCount := skippedCount acc |}
  | os.StatError => acc
  | os.StatOK size mtime =>
      if quick v && (mtime =? FileRecord.Mtime f) && (size =? FileRecord.Size f)
      then {| input := input acc; missingPaths := missingPaths acc;
              skippedCount := skippedCount acc + 1 |}
      else {| input := input acc ++
                       [ {| FileInfo.Path := FileRecord.Path f;
                            FileInfo.Disk := FileRecord.Disk f;
                            FileInfo.Size := 0; FileInfo.Mtime := 0 |} ];
              missingPaths := missingPaths acc;
              skippedCount := skippedCount acc |}
  end.

Definition feeder (v : Verifier) (w : os.World) (files : list FileRecord.t) : Feed :=
  fold_left (feedOne v w) files {| input := []; missingPaths := []; skippedCount := 0 |}.

(** What the feeder does with a catalogued file. *)
Inductive fate : Type := Missing | StatFailed | QuickSkipped | ToHash.

Definition fateOf (v : Verifier) (w : os.World) (f : FileRecord.t) : fate :=
  match os.Stat w (FileRecord.Path f) with
  | os.StatNotExist => Missing
  | os.StatError => StatFailed
  | os.StatOK size mtime =>
      if quick v && (mtime =? FileRecord.Mtime f) && (size =? FileRecord.Size f)
      then QuickSkipped else ToHash
  end.

Definition isMissing (v : Verifier) (w : os.World) (f : FileRecord.t) : bool :=
  match fateOf v w f with Missing => true | _ => false end.
Definition isQuickSkipped (v : Verifier) (w : os.World) (f : FileRecord.t) : bool :=
  match fateOf v w f with QuickSkipped => true | _ => false end.
Definition isToHash (v : Verifier) (w : os.World) (f : FileRecord.t) : bool :=
  match fateOf v w f with ToHash => true | _ => false end.

(** A file is processed when the run reaches an outcome for it: it is found
    missing or it is handed to the hashing pool. *)
Definition processed (v : Verifier) (w : os.World) (f : FileRecord.t) : Prop :=
  fateOf v w f = Missing \/ fateOf v w f = ToHash.

(** [hasher.FileInfo{Path: f.Path, Disk: f.Disk}] *)
Definition toInput (f : FileRecord.t) : FileInfo.t :=
  {| FileInfo.Path := FileRecord.Path f; FileInfo.Disk := FileRecord.Disk f;
     FileInfo.Size := 0; FileInfo.Mtime := 0 |}.

(** The results handed to [resultCb] for a given path. *)
Definition atPath (p : string) (vr : VerifyResult.t) : bool :=
  String.eqb (VerifyResult.Path vr) p.

(** [storedMap[f.Path] = f] *)
Definition buildStoredMap (files : list FileRecord.t) : gmap string FileRecord.t :=
  fold_left (fun m f => <[FileRecord.Path f := f]> m) files ∅.

(** The state of the collecting loops: the summary, the open transaction and
    the results handed to [resultCb] so far. *)
Record Run : Type := mkRun {
  summary : Summary.t;
  tx : db.DB;
  calls : list VerifyResult.t
}.

Definition bump (total ok corrupted missing errors : Z) (s : Summary.t) : Summary.t :=
  {| Summary.TotalChecked := Summary.TotalChecked s + total;
     Summary.OK := Summary.OK s + ok;
     Summary.Corrupted := Summary.Corrupted s + corrupted;
     Summary.Missing := Summary.Missing s + missing;
     Summary.Skipped := Summary.Skipped s;
     Summary.Errors := Summary.Errors s + errors |}.

(** [if resultCb != nil { resultCb(vr) }] *)
Definition call (resultCb : bool) (vr : VerifyResult.t) (calls : list VerifyResult.t)
  : list VerifyResult.t :=
  if resultCb then calls ++ [vr] else calls.

(** The classification of one hashed result against its stored record. *)
Definition classify (stored : FileRecord.t) (result : Result.t) : VerifyResult.t :=
  match Result.Err result with
  | Some e =>
      {| VerifyResult.Path := Result.Path result; VerifyResult.Status := "corrupted";
         VerifyResult.OldHash := FileRecord.SHA256 stored; VerifyResult.NewHash := "";
         VerifyResult.Err := Some e |}
  | None =>
      {| VerifyResult.Path := Result.Path result;
         VerifyResult.Status :=
           if String.eqb (Result.SHA256 result) (FileRecord.SHA256 stored)
           then "ok" else "corrupted";
         VerifyResult.OldHash := FileRecord.SHA256 stored;
         VerifyResult.NewHash := Result.SHA256 result;
         VerifyResult.Err := None |}
  end.

(** One iteration of [for result := range output].  The clock is read at the
    number of results counted so far. *)
Definition collectOne (clock : Z -> Z) (storedMap : gmap string FileRecord.t)
           (resultCb : bool) (st : Run) (result : Result.t) : Run :=
  let now := clock (Summary.TotalChecked (summary st)) in
  let s := bump 1 0 0 0 0 (summary st) in
  match storedMap !! Result.Path result with
  | None => {| summary := s; tx := tx st; calls := calls st |}
  | Some stored =>
      let vr := classify stored result in
      match Result.Err result with
      | Some _ =>
          {| summary := bump 0 0 1 0 1 s;
             tx := UpdateStatusTx now (Result.Path result) "corrupted" (tx st);
             calls := call resultCb vr (calls st) |}
      | None =>
          if String.eqb (Result.SHA256 result) (FileRecord.SHA256 stored)
          then {| summary := bump 0 1 0 0 0 s;
                  tx := UpdateStatusTx now (Result.Path result) "ok" (tx st);
                  calls := call resultCb vr (calls st) |}
          else {| summary := bump 0 0 1 0 0 s;
                  tx := UpdateStatusTx now (Result.Path result) "corrupted" (tx st);
                  calls := call resultCb vr (calls st) |}
      end
  end.

(** The result reported for a missing path. *)
Definition missingResult (storedMap : gmap string FileRecord.t) (path : string)
  : VerifyResult.t :=
  let oldHash := match storedMap !! path with
                 | Some stored => FileRecord.SHA256 stored
                 | None => ""
                 end in
  {| VerifyResult.Path := path; VerifyResult.Status := "missing";
     VerifyResult.OldHash := oldHash; VerifyResult.NewHash := "";
     VerifyResult.Err := None |}.

(** One iteration of [for _, path := range missingPaths]. *)
Definition missingOne (clock : Z -> Z) (storedMap : gmap string FileRecord.t)
           (resultCb : bool) (st : Run) (path : string) : Run :=
  let now := clock (Summary.TotalChecked (summary st)) in
  {| summary := bump 1 0 0 1 0 (summary st);
     tx := UpdateStatusTx now path "missing" (tx st);
     calls := call resultCb (missingResult storedMap path) (calls st) |}.

(** What one result of the pool adds to the results handed to [resultCb]. *)
Definition callsFor (storedMap : gmap string FileRecord.t) (resultCb : bool)
           (result : Result.t) : list VerifyResult.t :=
  match storedMap !! Result.Path result with
  | Some stored => if resultCb then [classify stored result] else []
  | None => []
  end.

Definition setSkipped (n : Z) (s : Summary.t) : Summary.t :=
  {| Summary.TotalChecked := Summary.TotalChecked s; Summary.OK := Summary.OK s;
     Summary.Corrupted := Summary.Corrupted s; Summary.Missing := Summary.Missing s;
     Summary.Skipped := n; Summary.Errors := Summary.Errors s |}.

Definition emptySummary : Summary.t :=
  {| Summary.TotalChecked := 0; Summary.OK := 0; Summary.Corrupted := 0;
     Summary.Missing := 0; Summary.Skipped := 0; Summary.Errors := 0 |}.

(** [verifyFiles] once the results of the hashing pool are known in the order
    [output] in which they arrive.  The returned [tx] is the catalog after
    [tx.Commit()]. *)
Definition verifyFilesFrom (v : Verifier) (w : os.World) (clock : Z -> Z)
           (resultCb : bool) (files : list FileRecord.t)
           (output : list Result.t) (d : db.DB) : Run :=
  let storedMap := buildStoredMap files in
  let fed := feeder v w files in
  let st0 := {| summary := emptySummary; tx := d; calls := [] |} in
  let st1 := fold_left (collectOne clock storedMap resultCb) output st0 in
  let st2 := fold_left (missingOne clock storedMap resultCb) (missingPaths fed) st1 in
  {| summary := setSkipped (skippedCount fed) (summary st2);
     tx := tx st2; calls := calls st2 |}.

(** [verifyFiles] with the results in the order of the feeder. *)
Definition verifyFiles (v : Verifier) (w : os.World) (clock : Z -> Z)
           (resultCb : bool) (files : list FileRecord.t) (d : db.DB) : Run :=
  verifyFilesFrom v w clock resultCb files
    (HashFiles (hasher.New (workers v)) w (input (feeder v w files))) d.

Definition VerifyAll (v : Verifier) (w : os.World) (clock : Z -> Z)
           (resultCb : bool) (d : db.DB) : Run :=
  verifyFiles v w clock resultCb (GetAllFiles d) d.

Definition VerifyDisk (v : Verifier) (w : os.World) (clock : Z -> Z)
           (disk : string) (resultCb : bool) (d : db.DB) : Run :=
  verifyFiles v w clock resultCb (GetFilesByDisk disk d) d.

End verifier.

(* ===================================================================== *)
(** * cmd/main.go: the body of [scanCmd] *)
(* ===================================================================== *)

Module main.

Import hasher.
Import db.

(** Lines written to standard error by the result loop. *)
Inductive event : Type :=
| ErrorHashing (path : string) (e : hasher.error)
| WarnMoveCorruption (oldPath newPath : string) (size : Z) (oldSHA newSHA : string).

(** The catalog as the result loop sees it.  Statements run on the open
    transaction [tx]; [FindMoveCandidates] queries through the connection
    pool and so reads [committed], the state as of the last commit. *)
Record ScanState : Type := mkScanState {
  committed : db.DB;
  tx : db.DB;
  batchCount : Z;
  totalProcessed : Z;
  totalErrors : Z;
  stderr : list event
}.

Definition batchSize : Z := 1000.

(** The incremental check of the filter goroutine. *)
Definition unchanged (lookupMap : option (gmap string QuickLookup.t)) (fi : FileInfo.t)
  : bool :=
  match lookupMap with
  | None => false
  | Some m =>
      match m !! FileInfo.Path fi with
      | Some existing =>
          (QuickLookup.Size existing =? FileInfo.Size fi) &&
          (QuickLookup.Mtime existing =? FileInfo.Mtime fi)
      | None => false
      end
  end.

(** [for fi := range scanned]: the descriptors forwarded to the hasher and
    the number added to [skipped]. *)
Fixpoint incrementalFilter (lookupMap : option (gmap string QuickLookup.t))
         (scanned : list FileInfo.t) : list FileInfo.t * Z :=
  match scanned with
  | [] => ([], 0)
  | fi :: rest =>
      let '(diskInput, skipped) := incrementalFilter lookupMap rest in
      if unchanged lookupMap fi then (diskInput, skipped + 1)
      else (fi :: diskInput, skipped)
  end.

(** How the candidate loop ends. *)
Inductive moveOutcome : Type :=
| NoMove
| Moved (cand : FileRecord.t)
| MoveCorrupted (cand : FileRecord.t).

(** [for _, cand := range cands] *)
Fixpoint detectMove (w : os.World) (result : Result.t) (cands : list FileRecord.t)
  : moveOutcome :=
  match cands with
  | [] => NoMove
  | cand :: rest =>
      if String.eqb (FileRecord.Path cand) (Result.Path result)
      then detectMove w result rest
      else
        match os.Stat w (FileRecord.Path cand) with
        | os.StatNotExist =>
            if String.eqb (FileRecord.SHA256 cand) (Result.SHA256 result)
            then Moved cand
            else MoveCorrupted cand
        | _ => detectMove w result rest
        end
  end.

(** A candidate the loop passes over: its path is the path of the result,
    or [os.Stat] does not report it as not existing. *)
Definition passedOver (w : os.World) (result : Result.t) (cand : FileRecord.t) : Prop :=
  FileRecord.Path cand = Result.Path result \/
  os.Stat w (FileRecord.Path cand) <> os.StatNotExist.

(** [s[:12]]; slicing past the end of the string panics. *)
Definition prefix12 (s : string) : option string :=
  if (12 <=? String.length s)%nat then Some (String.substring 0 12 s) else None.

Definition newRecord (now : Z) (status : string) (result : Result.t) : FileRecord.t :=
  {| FileRecord.ID := 0;
     FileRecord.Path := Result.Path result;
     FileRecord.Disk := Result.Disk result;
     FileRecord.Size := Result.Size result;
     FileRecord.Mtime := Result.Mtime result;
     FileRecord.SHA256 := Result.SHA256 result;
     FileRecord.FirstSeen := now;
     FileRecord.LastVerified := now;
     FileRecord.Status := status |}.

(** [batchCount++] and the commit of a full batch. *)
Definition endOfIteration (st : ScanState) : ScanState :=
  let n := batchCount st + 1 in
  if batchSize <=? n
  then {| committed := tx st; tx := tx st; batchCount := 0;
          totalProcessed := totalProcessed st; totalErrors := totalErrors st;
          stderr := stderr st |}
  else {| committed := committed st; tx := tx st; batchCount := n;
          totalProcessed := totalProcessed st; totalErrors := totalErrors st;
          stderr := stderr st |}.

Definition withTx (t : db.DB) (st : ScanState) : ScanState :=
  {| committed := committed st; tx := t; batchCount := batchCount st;
     totalProcessed := totalProcessed st; totalErrors := totalErrors st;
     stderr := stderr st |}.

Definition logged (e : event) (st : ScanState) : ScanState :=
  {| committed := committed st; tx := tx st; batchCount := batchCount st;
     totalProcessed := totalProcessed st; totalErrors := totalErrors st;
     stderr := stderr st ++ [e] |}.

Definition countProcessed (st : ScanState) : ScanState :=
  {| committed := committed st; tx := tx st; batchCount := batchCount st;
     totalProcessed := totalProcessed st + 1; totalErrors := totalErrors st;
     stderr := stderr st |}.

Definition countError (st : ScanState) : ScanState :=
  {| committed := committed st; tx := tx st; batchCount := batchCount st;
     totalProcessed := totalProcessed st; totalErrors := totalErrors st + 1;
     stderr := stderr st |}.

(** The candidate loop for one result: it runs only when a lookup map was
    loaded and holds no entry for the path. *)
Definition moveDetection (w : os.World) (lookupMap : option (gmap string QuickLookup.t))
           (result : Result.t) (st : ScanState) : moveOutcome :=
  match lookupMap with
  | None => NoMove
  | Some m =>
      match m !! Result.Path result with
      | Some _ => NoMove
      | None =>
          detectMove w result
            (FindMoveCandidates (filepath.Base (Result.Path result))
                                (Result.Size result) 20 (committed st))
      end
  end.

(** One iteration of [for result := range results]; [None] is a run-time
    panic.  [now] is [time.Now()]. *)
Definition processResult (w : os.World) (lookupMap : option (gmap string QuickLookup.t))
           (now : Z) (result : Result.t) (st : ScanState) : option ScanState :=
  let st := countProcessed st in
  match Result.Err result with
  | Some e => Some (logged (ErrorHashing (Result.Path result) e) (countError st))
  | None =>
      match moveDetection w lookupMap result st with
      | Moved cand =>
          Some (endOfIteration
                  (withTx (MovePathTx now (FileRecord.Path cand) (Result.Path result)
                                      (Result.Disk result) (Result.Size result)
                                      (Result.Mtime result) (tx st)) st))
      | MoveCorrupted cand =>
          match prefix12 (FileRecord.SHA256 cand), prefix12 (Result.SHA256 result) with
          | Some oldSHA, Some newSHA =>
              let st := logged (WarnMoveCorruption (FileRecord.Path cand)
                                                   (Result.Path result)
                                                   (Result.Size result) oldSHA newSHA) st in
              Some (endOfIteration
                      (withTx (UpsertFileTx (newRecord now "corrupted" result) (tx st)) st))
          | _, _ => None
          end
      | NoMove =>
          Some (endOfIteration
                  (withTx (UpsertFileTx (newRecord now "ok" result) (tx st)) st))
      end
  end.

(** The result loop over the results in their order of arrival; the clock is
    read at the number of results processed so far. *)
Fixpoint processResults (w : os.World) (lookupMap : option (gmap string QuickLookup.t))
         (clock : Z -> Z) (results : list Result.t) (st : ScanState)
  : option ScanState :=
  match results with
  | [] => Some st
  | result :: rest =>
      match processResult w lookupMap (clock (totalProcessed st)) result st with
      | None => None
      | Some st' => processResults w lookupMap clock rest st'
      end
  end.

(** [if batchCount > 0 { tx.Commit() }], otherwise the deferred
    [tx.Rollback()]. *)
Definition finish (st : ScanState) : ScanState :=
  if 0 <? batchCount st
  then {| committed := tx st; tx := tx st; batchCount := batchCount st;
          totalProcessed := totalProcessed st; totalErrors := totalErrors st;
          stderr := stderr st |}
  else {| committed := committed st; tx := committed st; batchCount := batchCount st;
          totalProcessed := totalProcessed st; totalErrors := totalErrors st;
          stderr := stderr st |}.

(** The per-disk pipeline up to the hasher: walk, incremental filter. *)
Definition diskInput (sc : scanner.Scanner) (w : os.World)
           (lookupMap : option (gmap string QuickLookup.t)) (d : scanner.DiskInfo)
  : list FileInfo.t * Z :=
  incrementalFilter lookupMap (scanner.Walk sc w (scanner.Path d) (scanner.Name d)).

Definition diskOutput (sc : scanner.Scanner) (w : os.World)
           (lookupMap : option (gmap string QuickLookup.t)) (d : scanner.DiskInfo)
  : list Result.t :=
  HashFiles (hasher.New (scanner.DefaultWorkers (scanner.Type_ d))) w
            (fst (diskInput sc w lookupMap d)).

(** Everything the walkers emit, everything the pipelines hash, and the
    total of the [skipped] counter. *)
Definition scanned (sc : scanner.Scanner) (w : os.World) (disks : list scanner.DiskInfo)
  : list FileInfo.t :=
  flat_map (fun d => scanner.Walk sc w (scanner.Path d) (scanner.Name d)) disks.

Definition hashed (sc : scanner.Scanner) (w : os.World)
           (lookupMap : option (gmap string QuickLookup.t))
           (disks : list scanner.DiskInfo) : list Result.t :=
  flat_map (diskOutput sc w lookupMap) disks.

Definition skippedTotal (sc : scanner.Scanner) (w : os.World)
           (lookupMap : option (gmap string QuickLookup.t))
           (disks : list scanner.DiskInfo) : Z :=
  fold_right (fun d n => snd (diskInput sc w lookupMap d) + n) 0 disks.

(** The catalog holds a record for the path of the descriptor with its size
    and modification time. *)
Definition recorded (d : db.DB) (fi : FileInfo.t) : Prop :=
  exists r, In r (files d) /\
            FileRecord.Path r = FileInfo.Path fi /\
            FileRecord.Size r = FileInfo.Size fi /\
            FileRecord.Mtime r = FileInfo.Mtime fi.

(** No record of the catalog is for a path that has left the disk. *)
Definition noneVanished (w : os.World) (d : db.DB) : Prop :=
  forall r, In r (files d) -> os.Stat w (FileRecord.Path r) <> os.StatNotExist.

(** What the result loop keeps true from one iteration to the next. *)
Definition loopInv (w : os.World) (lookupMap : option (gmap string QuickLookup.t))
           (st : ScanState) : Prop :=
  wf (tx st) /\ 0 <= batchCount st /\
  (batchCount st = 0 -> tx st = committed st) /\
  (lookupMap = None \/ (noneVanished w (committed st) /\ noneVanished w (tx st))).

Record ScanReport : Type := mkScanReport {
  final : ScanState;
  filesProcessed : Z;
  filesSkipped : Z;
  errors : Z
}.

Definition loadLookup (fullScan : bool) (d : db.DB) : option (gmap string QuickLookup.t) :=
  if fullScan then None else Some (LoadQuickLookupMap d).

Definition start (d : db.DB) : ScanState :=
  {| committed := d; tx := d; batchCount := 0; totalProcessed := 0;
     totalErrors := 0; stderr := [] |}.

(** [scanCmd] once the aggregate channel delivers [results]. *)
Definition scanFrom (sc : scanner.Scanner) (w : os.World) (clock : Z -> Z)
           (fullScan : bool) (disks : list scanner.DiskInfo)
           (results : list Result.t) (d : db.DB) : option ScanReport :=
  let lookupMap := loadLookup fullScan d in
  match processResults w lookupMap clock results (start d) with
  | None => None
  | Some st =>
      let st := finish st in
      Some {| final := st;
              filesProcessed := totalProcessed st;
              filesSkipped := skippedTotal sc w lookupMap disks;
              errors := totalErrors st |}
  end.

(** [scanCmd] with the results of the disks one disk after the other, one of
    the orders in which the fan-in can deliver them. *)
Definition scanCmd (sc : scanner.Scanner) (w : os.World) (clock : Z -> Z)
           (fullScan : bool) (disks : list scanner.DiskInfo) (d : db.DB)
  : option ScanReport :=
  scanFrom sc w clock fullScan disks
           (hashed sc w (loadLookup fullScan d) disks) d.

End main.


(* ===================================================================== *)
(** * Concrete catalogs and file systems used in the examples *)
(* ===================================================================== *)

Module fixtures.

Import db.

Definition digestHello : string :=
  "a948904f2f0f479b8f8197694b30184b0d2ed1c1cd2a1ec0fb85d299a192a447".

Definition digestEmpty : string :=
  "e3b0c44298fc1c149afbf4c8996fb92427ae41e4649b934ca495991b7852b855".

Definition oldPath : string := "/mnt/disk1/old/a.txt".
Definition newPath : string := "/mnt/disk2/new/a.txt".

(** A catalog with one record, for a file that has since left [oldPath]. *)
Definition rowA : FileRecord.t :=
  {| FileRecord.ID := 1; FileRecord.Path := oldPath; FileRecord.Disk := "disk1";
     FileRecord.Size := 12; FileRecord.Mtime := 100; FileRecord.SHA256 := digestHello;
     FileRecord.FirstSeen := 10; FileRecord.LastVerified := 20;
     FileRecord.Status := "ok" |}.

Definition dbA : DB := {| files := [rowA]; seq := 1 |}.

Definition helloFile : os.File :=
  {| os.fstat := Some {| os.IsDir := false; os.Size := 12; os.ModTime := 100 |};
     os.reads := [list_byte_of_string "hello "; list_byte_of_string "world" ++ [x0a]];
     os.readErr := false |}.

Definition helloWhole : os.File :=
  {| os.fstat := Some {| os.IsDir := false; os.Size := 12; os.ModTime := 100 |};
     os.reads := [hello_world];
     os.readErr := false |}.

Definition disk2Tree : os.DirEntry :=
  os.Dir "disk2"
    [ os.Dir "new" [ os.NonDir "a.txt" true (Some (12, 100));
                     os.NonDir "empty.lock" true (Some (0, 100));
                     os.NonDir "link" false (Some (7, 100)) ];
      os.Dir "tmp" [ os.NonDir "scratch.bin" true (Some (3, 100)) ] ].

(** The file now lives at [newPath]; [oldPath] is gone. *)
Definition worldMoved : os.World :=
  {| os.Stat := fun p => if String.eqb p oldPath then os.StatNotExist
                         else if String.eqb p newPath then os.StatOK 12 100
                         else os.StatError;
     os.Open := fun p => if String.eqb p newPath then Some helloFile else None;
     os.Lstat := fun p => if String.eqb p "/mnt/disk2" then Some disk2Tree else None |}.

(** The file is still at [oldPath], readable in one piece. *)
Definition worldStill : os.World :=
  {| os.Stat := fun p => if String.eqb p oldPath then os.StatOK 12 100
                         else os.StatNotExist;
     os.Open := fun p => if String.eqb p oldPath then Some helloWhole else None;
     os.Lstat := fun _ => None |}.

(** The file is at [oldPath] but cannot be opened. *)
Definition worldUnreadable : os.World :=
  {| os.Stat := fun p => if String.eqb p oldPath then os.StatOK 12 101
                         else os.StatNotExist;
     os.Open := fun _ => None;
     os.Lstat := fun _ => None |}.

Definition resultB : hasher.Result.t :=
  {| hasher.Result.Path := newPath; hasher.Result.Disk := "disk2";
     hasher.Result.Size := 12; hasher.Result.Mtime := 100;
     hasher.Result.SHA256 := digestHello; hasher.Result.Err := None |}.

Definition resultBchanged : hasher.Result.t :=
  {| hasher.Result.Path := newPath; hasher.Result.Disk := "disk2";
     hasher.Result.Size := 12; hasher.Result.Mtime := 100;
     hasher.Result.SHA256 := digestEmpty; hasher.Result.Err := None |}.

(** The same content found at a second new path. *)
Definition resultB3 : hasher.Result.t :=
  {| hasher.Result.Path := "/mnt/disk3/new/a.txt"; hasher.Result.Disk := "disk3";
     hasher.Result.Size := 12; hasher.Result.Mtime := 100;
     hasher.Result.SHA256 := digestHello; hasher.Result.Err := None |}.

Definition resultFailed : hasher.Result.t :=
  {| hasher.Result.Path := oldPath; hasher.Result.Disk := "disk1";
     hasher.Result.Size := 0; hasher.Result.Mtime := 0;
     hasher.Result.SHA256 := ""; hasher.Result.Err := Some (hasher.ErrOpen oldPath) |}.

(** The catalog after the move has been recorded. *)
Definition rowB : FileRecord.t :=
  {| FileRecord.ID := 1; FileRecord.Path := newPath; FileRecord.Disk := "disk2";
     FileRecord.Size := 12; FileRecord.Mtime := 100; FileRecord.SHA256 := digestHello;
     FileRecord.FirstSeen := 10; FileRecord.LastVerified := 50;
     FileRecord.Status := "ok" |}.

Definition dbB : DB := {| files := [rowB]; seq := 1 |}.

Definition disk2 : scanner.DiskInfo :=
  {| scanner.Name := "disk2"; scanner.Path := "/mnt/disk2";
     scanner.Type_ := scanner.DiskTypeUnknown |}.

Definition noExcludes : scanner.Scanner := {| scanner.excludePatterns := [] |}.

(** Excludes every path that contains "/tmp". *)
Definition excludeTmp : scanner.Scanner :=
  {| scanner.excludePatterns :=
       [ fun p => like.any_suffix
                    (fun s => String.prefix "/tmp" (string_of_list_ascii s))
                    (list_ascii_of_string p) ] |}.

End fixtures.

(* ===================================================================== *)
(** * internal/db/db.go: the read queries and the [scan_history] table *)
(* ===================================================================== *)

Module dbread.

Import db.
Import db.FileRecord.

(** [SELECT ... FROM files WHERE status = ? ORDER BY path] *)
Definition GetFilesByStatus (status : string) (d : DB) : list FileRecord.t :=
  order_by byPath (List.filter (fun r => String.eqb (Status r) status) (files d)).

Definition searchMatches (pattern : string) (r : FileRecord.t) : bool :=
  like.LIKE (Path r) (String.append "%" (String.append pattern "%")).

(** [SELECT ... FROM files WHERE path LIKE ? ORDER BY path LIMIT ?] with
    the pattern wrapped in "%". *)
Definition SearchFiles (pattern : string) (limit : Z) (d : DB) : list FileRecord.t :=
  let limit := if limit <=? 0 then 100 else limit in
  firstn (Z.to_nat limit)
         (order_by byPath (List.filter (searchMatches pattern) (files d))).

(** One row of [scan_history]; [ended_at] is NULL until the operation is
    completed. *)
Record ScanEntry : Type := mkScanEntry {
  id : Z; scan_type : string; started_at : Z; ended_at : option Z;
  disks : string; files_processed : Z; errors : Z; status : string
}.

Record History : Type := mkHistory { entries : list ScanEntry; hseq : Z }.

(** [INSERT INTO scan_history (scan_type, started_at, disks, status)
     VALUES (?, CURRENT_TIMESTAMP, ?, 'running')], returning the new id. *)
Definition InsertScanHistory (now : Z) (scanType disks : string) (h : History)
  : Z * History :=
  let newID := hseq h + 1 in
  (newID,
   {| entries := entries h ++
                 [ {| id := newID; scan_type := scanType; started_at := now;
                      ended_at := None; disks := disks; files_processed := 0;
                      errors := 0; status := "running" |} ];
      hseq := newID |}).

Definition complete (now filesProcessed errs : Z) (e : ScanEntry) : ScanEntry :=
  {| id := id e; scan_type := scan_type e; started_at := started_at e;
     ended_at := Some now; disks := disks e; files_processed := filesProcessed;
     errors := errs; status := "completed" |}.

(** [UPDATE scan_history SET ended_at = CURRENT_TIMESTAMP, files_processed,
     errors, status = 'completed' WHERE id = ?] *)
Definition CompleteScanHistory (now : Z) (scanID filesProcessed errs : Z) (h : History)
  : History :=
  {| entries := map (fun e => if id e =? scanID then complete now filesProcessed errs e
                              else e) (entries h);
     hseq := hseq h |}.

(** [MAX] of an aggregate over no rows, or over NULLs only, is NULL. *)
Definition maxOpt (acc : option Z) (x : option Z) : option Z :=
  match acc, x with
  | None, _ => x
  | _, None => acc
  | Some a, Some b => Some (Z.max a b)
  end.

(** [SELECT MAX(ended_at) FROM scan_history
     WHERE scan_type = ? AND status = 'completed'] *)
Definition lastEnded (scanType : string) (h : History) : option Z :=
  fold_left maxOpt
            (map ended_at
                 (List.filter (fun e => String.eqb (scan_type e) scanType &&
                                        String.eqb (status e) "completed")
                              (entries h)))
            None.

Record Stats : Type := mkStats {
  TotalFiles : Z; TotalSize : Z; OKFiles : Z; CorruptedFiles : Z;
  MissingFiles : Z; NewFiles : Z; LastScan : option Z; LastVerify : option Z
}.

(** [COUNT( * ) ... WHERE status = ?] *)
Definition countStatus (status : string) (rows : list FileRecord.t) : Z :=
  Z.of_nat (length (List.filter (fun r => String.eqb (Status r) status) rows)).

(** [COALESCE(SUM(size), 0)] *)
Definition sumSize (rows : list FileRecord.t) : Z :=
  fold_right (fun r acc => Size r + acc) 0 rows.

Definition GetStats (d : DB) (h : History) : Stats :=
  {| TotalFiles := Z.of_nat (length (files d));
     TotalSize := sumSize (files d);
     OKFiles := countStatus "ok" (files d);
     CorruptedFiles := countStatus "corrupted" (files d);
     MissingFiles := countStatus "missing" (files d);
     NewFiles := countStatus "new" (files d);
     LastScan := lastEnded "scan" h;
     LastVerify := lastEnded "verify" h |}.

Module DiskStats.
Record t : Type := mk {
  Disk : string; TotalFiles : Z; TotalSize : Z; CorruptedFiles : Z;
  MissingFiles : Z; LastVerified : option Z
}.
End DiskStats.

(** The rows of one group of [GROUP BY disk]. *)
Definition onDisk (disk : string) (rows : list FileRecord.t) : list FileRecord.t :=
  List.filter (fun r => String.eqb (Disk r) disk) rows.

Definition groupStats (rows : list FileRecord.t) (disk : string) : DiskStats.t :=
  let g := onDisk disk rows in
  {| DiskStats.Disk := disk;
     DiskStats.TotalFiles := Z.of_nat (length g);
     DiskStats.TotalSize := sumSize g;
     DiskStats.CorruptedFiles := countStatus "corrupted" g;
     DiskStats.MissingFiles := countStatus "missing" g;
     DiskStats.LastVerified := fold_left maxOpt (map (fun r => Some (LastVerified r)) g) None |}.

(** The distinct values of the [disk] column. *)
Definition diskNames (rows : list FileRecord.t) : list string :=
  nodup string_dec (map Disk rows).

(** [SELECT disk, COUNT( * ), SUM(size), ... FROM files GROUP BY disk ORDER BY disk] *)
Definition GetDiskStats (d : DB) : list DiskStats.t :=
  map (groupStats (files d)) (order_by String.leb (diskNames (files d))).

End dbread.

(* ===================================================================== *)
(** * internal/scanner/scanner.go: [ResolveDisk] *)
(* ===================================================================== *)

Module resolve.

Definition isDigit (c : ascii) : bool :=
  let n := nat_of_ascii c in (Nat.leb 48 n && Nat.leb n 57)%bool.

(** [strings.TrimPrefix(s, prefix)] on byte lists. *)
Fixpoint trimPrefix (prefix s : list ascii) : option (list ascii) :=
  match prefix, s with
  | [], _ => Some s
  | p :: prefix', c :: s' => if Ascii.eqb p c then trimPrefix prefix' s' else None
  | _ :: _, [] => None
  end.

(** [diskPattern = regexp.MustCompile(`^disk\d+$`)] *)
Definition diskPattern (name : string) : bool :=
  match trimPrefix (list_ascii_of_string "disk") (list_ascii_of_string name) with
  | Some (c :: rest) => forallb isDigit (c :: rest)
  | _ => false
  end.

(** [cachePattern = regexp.MustCompile(`^cache\d*$`)] *)
Definition cachePattern (name : string) : bool :=
  match trimPrefix (list_ascii_of_string "cache") (list_ascii_of_string name) with
  | Some rest => forallb isDigit rest
  | None => false
  end.

(** [strings.SplitN(strings.TrimPrefix(filePath, "/mnt/"), "/", 2)[0]] for
    a path that starts with "/mnt/". *)
Definition firstUnderMnt (filePath : string) : option string :=
  match trimPrefix (list_ascii_of_string "/mnt/") (list_ascii_of_string filePath) with
  | Some rest => Some (string_of_list_ascii (filepath.takeElem rest))
  | None => None
  end.

(** [ResolveDisk]; [evalSymlinks] is [filepath.EvalSymlinks] ([None] when it
    fails) and [fuel] bounds the recursion through resolved paths: [None]
    means the bound was reached. *)
Fixpoint ResolveDisk (evalSymlinks : string -> option string) (fuel : nat)
         (filePath scanRoot : string) : option string :=
  match fuel with
  | O => None
  | S fuel' =>
      match firstUnderMnt filePath with
      | Some name =>
          if diskPattern name || cachePattern name then Some name
          else if String.prefix "/mnt/user/" filePath || String.prefix "/mnt/user0/" filePath
          then match evalSymlinks filePath with
               | Some resolved =>
                   if String.eqb resolved filePath then Some (filepath.Base scanRoot)
                   else ResolveDisk evalSymlinks fuel' resolved scanRoot
               | None => Some (filepath.Base scanRoot)
               end
          else Some (filepath.Base scanRoot)
      | None => Some (filepath.Base scanRoot)
      end
  end.

(** An entry of [os.ReadDir("/mnt")]: its name, whether it is a directory,
    and the number of entries [os.ReadDir] finds inside it ([None] when
    that call fails). *)
Record MntEntry : Type := mkMntEntry {
  ename : string; isDir : bool; subEntries : option nat
}.

(** The entries [DetectUnraidDisks] keeps: directories named like an array
    disk or a cache pool that can be read and are not empty. *)
Definition mounted (e : MntEntry) : bool :=
  isDir e && (diskPattern (ename e) || cachePattern (ename e)) &&
  match subEntries e with
  | Some n => negb (Nat.eqb n 0)
  | None => false
  end.

Definition toDisk (detectDiskType : string -> scanner.DiskType) (e : MntEntry)
  : scanner.DiskInfo :=
  let path := filepath.Join "/mnt" (ename e) in
  {| scanner.Name := ename e; scanner.Path := path;
     scanner.Type_ := detectDiskType path |}.

Definition byName (a b : scanner.DiskInfo) : bool :=
  String.leb (scanner.Name a) (scanner.Name b).

(** [DetectUnraidDisks]; [mnt] is the result of [os.ReadDir("/mnt")] ([None]
    when it fails).  The names of a directory are distinct, so the order
    [sort.Slice] leaves is the one order by name. *)
Definition DetectUnraidDisks (detectDiskType : string -> scanner.DiskType)
           (mnt : option (list MntEntry)) : option (list scanner.DiskInfo) :=
  match mnt with
  | None => None
  | Some entries =>
      Some (order_by byName (map (toDisk detectDiskType) (List.filter mounted entries)))
  end.

End resolve.

(* ===================================================================== *)
(** * cmd/main.go: the body of [verifyCmd] *)
(* ===================================================================== *)

Module cli.

Import db.

(** What a run of the command leaves: the verify run ([None] when the
    database could not be opened), the history, and the exit status of the
    process. *)
Record VerifyOutcome : Type := mkVerifyOutcome {
  run : option verifier.Run;
  history : dbread.History;
  exitCode : Z
}.

(** [verifyCmd]; [jsonOut] is the global [--json] flag and [opened] tells
    whether [db.Open] succeeds.  When it does not, [RunE] returns the error
    and [main] exits with status 1.  Otherwise the operation is recorded as
    running, the verifier runs over the whole catalog or over one disk, and
    the operation is completed with the counts of the summary.  With
    [--json] the summary is then encoded and [RunE] returns, so the process
    exits with status 0; without it the process exits with status 2 when
    anything is corrupted or missing, and with 0 when nothing is. *)
Definition verifyCmd (jsonOut quick : bool) (disk : string) (workers : Z)
           (w : os.World) (clock : Z -> Z) (started ended : Z)
           (opened : bool) (d : DB) (h : dbread.History) : VerifyOutcome :=
  if negb opened then {| run := None; history := h; exitCode := 1 |}
  else
    let '(scanID, h1) := dbread.InsertScanHistory started "verify" disk h in
    let v := verifier.New workers quick in
    let r := if String.eqb disk ""
             then verifier.VerifyAll v w clock true d
             else verifier.VerifyDisk v w clock disk true d in
    let s := verifier.summary r in
    let h2 := if 0 <? scanID
              then dbread.CompleteScanHistory ended scanID
                     (verifier.Summary.TotalChecked s) (verifier.Summary.Errors s) h1
              else h1 in
    {| run := Some r; history := h2;
       exitCode := if jsonOut then 0
                   else if (0 <? verifier.Summary.Corrupted s)
                           || (0 <? verifier.Summary.Missing s)
                        then 2 else 0 |}.

End cli.

(* ===================================================================== *)
(** * A catalog over two disks *)
(* ===================================================================== *)

Module samples.

Import db.

Definition rowC : FileRecord.t :=
  {| FileRecord.ID := 2; FileRecord.Path := fixtures.newPath;
     FileRecord.Disk := "disk2"; FileRecord.Size := 12; FileRecord.Mtime := 100;
     FileRecord.SHA256 := fixtures.digestHello; FileRecord.FirstSeen := 30;
     FileRecord.LastVerified := 40; FileRecord.Status := "ok" |}.

Definition dbTwo : DB := {| files := [fixtures.rowA; rowC]; seq := 2 |}.

Definition noHistory : dbread.History := {| dbread.entries := []; dbread.hseq := 0 |}.

(** A catalog before its first scan. *)
Definition emptyDB : DB := {| files := []; seq := 0 |}.

End samples.

(* ===================================================================== *)
(** * Observations used in the statements *)
(* ===================================================================== *)

Module obs.

Import db.
Import db.FileRecord.

(** A name without a path separator. *)
Definition noSlash (s : list ascii) : Prop :=
  Forall (fun c => Ascii.eqb c filepath.slash = false) s.

(** Text of ASCII bytes other than NUL. *)
Definition plainByte (c : ascii) : bool :=
  let n := nat_of_ascii c in (Nat.leb 1 n && Nat.leb n 127)%bool.

Definition plain (s : string) : Prop :=
  forallb plainByte (list_ascii_of_string s) = true.

(** The elements of a path between its separators. *)
Fixpoint elements (cur : list ascii) (s : list ascii) : list (list ascii) :=
  match s with
  | [] => [rev cur]
  | c :: s' =>
      if Ascii.eqb c filepath.slash then rev cur :: elements [] s'
      else elements (c :: cur) s'
  end.

(** A name a directory entry can have: not empty, not "." and not "..". *)
Definition properName (n : list ascii) : bool :=
  match n with
  | [] => false
  | [c] => negb (Ascii.eqb c "."%char)
  | [c; c'] => negb (Ascii.eqb c "."%char && Ascii.eqb c' "."%char)
  | _ => true
  end.

(** A path as [filepath.Abs] returns it, absolute and clean: "/", or "/"
    followed by proper names separated by single slashes. *)
Definition cleanAbs (p : string) : bool :=
  match list_ascii_of_string p with
  | c :: rest =>
      Ascii.eqb c filepath.slash &&
      (match rest with [] => true | _ => forallb properName (elements [] rest) end)
  | [] => false
  end.

(** A digit of lower-case hexadecimal. *)
Definition isLowerHex (c : ascii) : bool :=
  existsb (Ascii.eqb c) (list_ascii_of_string sha256.hextable).

(** What a verify run must leave alone in a record: everything but
    [status] and [last_verified]. *)
Definition content (r : FileRecord.t) : Z * string * string * Z * Z * string * Z :=
  (ID r, Path r, Disk r, Size r, Mtime r, SHA256 r, FirstSeen r).

(** What identifies a record over its life. *)
Definition identity (r : FileRecord.t) : Z * string * Z := (ID r, Path r, FirstSeen r).

(** The sum of a quantity over rows. *)
Definition total (f : FileRecord.t -> Z) (rows : list FileRecord.t) : Z :=
  fold_right (fun r acc => f r + acc) 0 rows.

(** The same over a list of numbers. *)
Definition sumZ (l : list Z) : Z := fold_right Z.add 0 l.

(** The number of reported results with a given status, and with an error. *)
Definition reportedAs (status : string) (calls : list verifier.VerifyResult.t) : Z :=
  Z.of_nat (length (List.filter
                      (fun vr => String.eqb (verifier.VerifyResult.Status vr) status)
                      calls)).

Definition isErr (r : hasher.Result.t) : bool :=
  match hasher.Result.Err r with Some _ => true | None => false end.

(** Every stored digest is long enough for the [[:12]] of the warning. *)
Definition sliceable (d : DB) : Prop :=
  Forall (fun r => (12 <= String.length (SHA256 r))%nat) (files d).

Definition knownStatus (vr : verifier.VerifyResult.t) : Prop :=
  verifier.VerifyResult.Status vr = "ok" \/
  verifier.VerifyResult.Status vr = "corrupted" \/
  verifier.VerifyResult.Status vr = "missing".

(** The summary of a verify run agrees with the results handed to the
    callback. *)
Definition summaryAgrees (s : verifier.Summary.t)
           (calls : list verifier.VerifyResult.t) : Prop :=
  verifier.Summary.OK s = reportedAs "ok" calls /\
  verifier.Summary.Corrupted s = reportedAs "corrupted" calls /\
  verifier.Summary.Missing s = reportedAs "missing" calls /\
  verifier.Summary.TotalChecked s = Z.of_nat (length calls) /\
  verifier.Summary.TotalChecked s
  = verifier.Summary.OK s + verifier.Summary.Corrupted s + verifier.Summary.Missing s /\
  Forall knownStatus calls.

(** The shape of every result the hashing pool sends for a descriptor. *)
Definition wellFormedResult (fi : hasher.FileInfo.t) (r : hasher.Result.t) : Prop :=
  hasher.Result.Path r = hasher.FileInfo.Path fi /\
  hasher.Result.Disk r = hasher.FileInfo.Disk fi /\
  match hasher.Result.Err r with
  | None =>
      String.length (hasher.Result.SHA256 r) = 64%nat /\
      forallb isLowerHex (list_ascii_of_string (hasher.Result.SHA256 r)) = true
  | Some _ =>
      hasher.Result.SHA256 r = "" /\ hasher.Result.Size r = 0 /\
      hasher.Result.Mtime r = 0
  end.

End obs.

(* ===================================================================== *)
(** * Properties *)
(* ===================================================================== *)

(** Schema constraints of a concrete catalog. *)
Ltac concrete_wf :=
  unfold db.wf; simpl; repeat split; repeat constructor; simpl;
  intuition (try discriminate; try lia).

(** ** The digest *)

Example sha256_hello :
  sha256.EncodeToString (sha256.Sum256 hello_world)
  = "a948904f2f0f479b8f8197694b30184b0d2ed1c1cd2a1ec0fb85d299a192a447".
Proof. vm_compute. reflexivity. Qed.

Example sha256_empty :
  sha256.EncodeToString (sha256.Sum256 [])
  = "e3b0c44298fc1c149afbf4c8996fb92427ae41e4649b934ca495991b7852b855".
Proof. vm_compute. reflexivity. Qed.

Example sha256_abc :
  hasher.digestOf (list_byte_of_string "abc")
  = "ba7816bf8f01cfea414140de5dae2223b00361a396177a9cb410ff61f20015ad".
Proof. vm_compute. reflexivity. Qed.

(** 56 bytes: the padding spills into a second block. *)
Example sha256_two_blocks :
  hasher.digestOf
    (list_byte_of_string "abcdbcdecdefdefgefghfghighijhijkijkljklmklmnlmnomnopnopq")
  = "248d6a61d20638b8e5c026930c3e6039a33ce45964ff2167f6ecedd419db06c1".
Proof. vm_compute. reflexivity. Qed.

(** 130 bytes: two full blocks and a remainder. *)
Example sha256_three_blocks :
  hasher.digestOf (repeat "a"%byte 130)
  = "1e3c4f4750c8c29bbfa9ced317788176b156d342e57f7777f62fd7221a44312f".
Proof. vm_compute. reflexivity. Qed.

Example sha256_constants :
  length sha256._K = 64%nat /\
  nth 0 sha256._K 0 = 0x428a2f98 /\ nth 63 sha256._K 0 = 0xc67178f2 /\
  nth 0 sha256.init 0 = 0x6a09e667 /\ nth 7 sha256.init 0 = 0x5be0cd19.
Proof. repeat split; reflexivity. Qed.

Lemma Write_app (d : sha256.digest) (p q : list byte) :
  sha256.Write d (p ++ q) = sha256.Write (sha256.Write d p) q.
Proof. unfold sha256.Write. apply fold_left_app. Qed.

(** Feeding the data in pieces, whatever the cut points, is feeding it whole. *)
Lemma Write_chunks (chunks : list (list byte)) (d : sha256.digest) :
  fold_left sha256.Write chunks d = sha256.Write d (concat chunks).
Proof.
  revert d. induction chunks as [|c cs IH]; intros d; simpl.
  - reflexivity.
  - rewrite IH. symmetry. apply Write_app.
Qed.

Lemma block_length (h : list Z) (p : list byte) : length (sha256.block h p) = 8%nat.
Proof.
  unfold sha256.block.
  destruct (fold_left sha256.round _ _) as [[[[[[[a b] c] d] e] f] g] hh].
  reflexivity.
Qed.

Lemma absorb_length (d : sha256.digest) (b : byte) :
  length (sha256.h d) = 8%nat -> length (sha256.h (sha256.absorb d b)) = 8%nat.
Proof.
  intros H. unfold sha256.absorb.
  destruct (Nat.eqb _ _); cbn [sha256.h]; [apply block_length|exact H].
Qed.

Lemma Write_length (p : list byte) (d : sha256.digest) :
  length (sha256.h d) = 8%nat -> length (sha256.h (sha256.Write d p)) = 8%nat.
Proof.
  revert d. unfold sha256.Write.
  induction p as [|b p IH]; intros d H; cbn [fold_left]; [exact H|].
  apply IH. now apply absorb_length.
Qed.

Lemma EncodeToString_length (src : list byte) :
  String.length (sha256.EncodeToString src) = (2 * length src)%nat.
Proof.
  induction src as [|b src IH]; [reflexivity|].
  cbn [sha256.EncodeToString String.length length]. rewrite IH. lia.
Qed.

Lemma Sum_length (d : sha256.digest) :
  length (sha256.h d) = 8%nat -> length (sha256.Sum d) = 32%nat.
Proof.
  intros H. unfold sha256.Sum.
  pose proof (Write_length (sha256.padding (sha256.len d)) d H) as H8.
  destruct (sha256.h (sha256.Write d (sha256.padding (sha256.len d))))
    as [|a0 [|a1 [|a2 [|a3 [|a4 [|a5 [|a6 [|a7 [|a8 l]]]]]]]]]; try discriminate H8.
  reflexivity.
Qed.

Lemma CopyBuffer_contents (f : os.File) :
  os.readErr f = false ->
  hasher.CopyBuffer sha256.New f = Some (sha256.Write sha256.New (os.contents f)).
Proof.
  intros Hr. unfold hasher.CopyBuffer. rewrite Hr.
  now rewrite Write_chunks.
Qed.

Section HasherFacts.
Import hasher.

Lemma HashFile_holds (w : os.World) (path : string) (data : list byte) :
  holds w path data ->
  exists r, HashFile w path = inl r /\
            Result.SHA256 r = digestOf data /\ Result.Err r = None /\
            Result.Path r = path.
Proof.
  intros (f & st & Ho & Hs & Hd & Hr & Hc).
  unfold HashFile. rewrite Ho, Hs, Hd, (CopyBuffer_contents f Hr), Hc.
  eexists. split; [reflexivity|]. simpl. unfold digestOf, sha256.Sum256. auto.
Qed.

Lemma hashFileWithInfo_holds (w : os.World) (fi : FileInfo.t) (data : list byte) :
  holds w (FileInfo.Path fi) data ->
  exists r, hashFileWithInfo w fi = inl r /\
            Result.SHA256 r = digestOf data /\ Result.Err r = None /\
            Result.Path r = FileInfo.Path fi /\
            Result.Size r = FileInfo.Size fi /\ Result.Mtime r = FileInfo.Mtime fi.
Proof.
  intros (f & st & Ho & Hs & Hd & Hr & Hc).
  unfold hashFileWithInfo. rewrite Ho, (CopyBuffer_contents f Hr), Hc.
  eexists. split; [reflexivity|]. simpl. unfold digestOf, sha256.Sum256. auto.
Qed.

Lemma hashOne_holds (w : os.World) (fi : FileInfo.t) (data : list byte) :
  holds w (FileInfo.Path fi) data ->
  Result.SHA256 (hashOne w fi) = digestOf data /\
  Result.Err (hashOne w fi) = None /\
  Result.Path (hashOne w fi) = FileInfo.Path fi.
Proof.
  intros Hh. unfold hashOne.
  destruct ((0 <? FileInfo.Size fi) || (0 <? FileInfo.Mtime fi)).
  - destruct (hashFileWithInfo_holds w fi data Hh) as (r & -> & H1 & H2 & H3 & _).
    auto.
  - destruct (HashFile_holds w _ data Hh) as (r & -> & H1 & H2 & H3).
    simpl. auto.
Qed.

Lemma hashOne_Path (w : os.World) (fi : FileInfo.t) :
  Result.Path (hashOne w fi) = FileInfo.Path fi.
Proof.
  unfold hashOne, hashFileWithInfo, HashFile.
  destruct ((0 <? FileInfo.Size fi) || (0 <? FileInfo.Mtime fi)).
  - destruct (os.Open w (FileInfo.Path fi)) as [f|]; [|reflexivity].
    destruct (CopyBuffer sha256.New f); reflexivity.
  - destruct (os.Open w (FileInfo.Path fi)) as [f|]; [|reflexivity].
    destruct (os.fstat f) as [st|]; [|reflexivity].
    destruct (os.IsDir st); [reflexivity|].
    destruct (CopyBuffer sha256.New f); reflexivity.
Qed.

(** Every digest the hasher reports is 64 characters long. *)
Lemma hashOne_digest_length (w : os.World) (fi : FileInfo.t) :
  Result.Err (hashOne w fi) = None ->
  String.length (Result.SHA256 (hashOne w fi)) = 64%nat.
Proof.
  assert (forall f h, CopyBuffer sha256.New f = Some h ->
                      String.length (sha256.EncodeToString (sha256.Sum h)) = 64%nat)
    as Hlen.
  { intros f h Hc. unfold CopyBuffer in Hc.
    destruct (os.readErr f); [discriminate|]. inversion Hc; subst.
    rewrite EncodeToString_length, Sum_length; [reflexivity|].
    rewrite Write_chunks. now apply Write_length. }
  unfold hashOne, hashFileWithInfo, HashFile.
  destruct ((0 <? FileInfo.Size fi) || (0 <? FileInfo.Mtime fi)).
  - destruct (os.Open w (FileInfo.Path fi)) as [f|]; [|discriminate].
    destruct (CopyBuffer sha256.New f) as [h|] eqn:Hc; [|discriminate].
    intros _. cbn [Result.SHA256]. eapply Hlen; eauto.
  - destruct (os.Open w (FileInfo.Path fi)) as [f|]; [|discriminate].
    destruct (os.fstat f) as [st|]; [|discriminate].
    destruct (os.IsDir st); [discriminate|].
    destruct (CopyBuffer sha256.New f) as [h|] eqn:Hc; [|discriminate].
    intros _. cbn [setDisk Result.SHA256]. eapply Hlen; eauto.
Qed.

Lemma New_workers (n : Z) : 1 <= workers (New n).
Proof. unfold New; simpl. destruct (n <=? 0) eqn:E; lia. Qed.

Lemma HashFiles_New (n : Z) (w : os.World) (files : list FileInfo.t) :
  HashFiles (New n) w files = map (hashOne w) files.
Proof.
  unfold HashFiles. pose proof (New_workers n) as H.
  destruct (workers (New n) <=? 0) eqn:E; [lia|reflexivity].
Qed.

(** C8.  The digest reported for a file is a function of its bytes alone:
    whatever the path, the disk label, the size and time carried by the
    descriptor, the way the reads cut the content, and whichever of
    [HashFile] and [hashFileWithInfo] the worker takes, a file holding [data]
    is reported with [digestOf data], so two files holding the same bytes
    are reported with the same digest; and the bytes "hello world\n" have
    the digest a948904f...a447. *)
Theorem digest_is_function_of_bytes
        (w1 w2 : os.World) (fi1 fi2 : FileInfo.t) (data : list byte)
        (H1 : holds w1 (FileInfo.Path fi1) data)
        (H2 : holds w2 (FileInfo.Path fi2) data) :
  Result.Err (hashOne w1 fi1) = None /\
  Result.Err (hashOne w2 fi2) = None /\
  Result.SHA256 (hashOne w1 fi1) = Result.SHA256 (hashOne w2 fi2) /\
  Result.SHA256 (hashOne w1 fi1) = digestOf data /\
  (exists r1 r2,
      HashFile w1 (FileInfo.Path fi1) = inl r1 /\
      hashFileWithInfo w2 fi2 = inl r2 /\
      Result.SHA256 r1 = Result.SHA256 r2 /\ Result.SHA256 r1 = digestOf data) /\
  digestOf hello_world
  = "a948904f2f0f479b8f8197694b30184b0d2ed1c1cd2a1ec0fb85d299a192a447".
Proof.
  destruct (hashOne_holds w1 fi1 data H1) as (S1 & E1 & _).
  destruct (hashOne_holds w2 fi2 data H2) as (S2 & E2 & _).
  destruct (HashFile_holds w1 _ data H1) as (r1 & Hr1 & Sr1 & _).
  destruct (hashFileWithInfo_holds w2 fi2 data H2) as (r2 & Hr2 & Sr2 & _).
  split; [exact E1|]. split; [exact E2|]. split; [congruence|].
  split; [exact S1|]. split.
  - exists r1, r2. split; [exact Hr1|]. split; [exact Hr2|]. split; congruence.
  - vm_compute. reflexivity.
Qed.

End HasherFacts.

(** ** The catalog store *)

Section DbFacts.
Import db.
Import db.FileRecord.

Lemma hasPath_true (p : string) (r : FileRecord.t) : hasPath p r = true <-> Path r = p.
Proof. unfold hasPath. apply String.eqb_eq. Qed.

Lemma hasPath_false (p : string) (r : FileRecord.t) : hasPath p r = false <-> Path r <> p.
Proof. unfold hasPath. apply String.eqb_neq. Qed.

Lemma existsb_hasPath (p : string) (l : list FileRecord.t) :
  existsb (hasPath p) l = true <-> In p (map Path l).
Proof.
  rewrite existsb_exists, List.in_map_iff. split.
  - intros (r & Hin & Hp). exists r. split; [now apply hasPath_true|exact Hin].
  - intros (r & Hp & Hin). exists r. split; [exact Hin|now apply hasPath_true].
Qed.

(** In a list without duplicate keys, equal keys mean equal elements. *)
Lemma NoDup_map_inj {A B : Type} (f : A -> B) (l : list A) (a b : A) :
  List.NoDup (map f l) -> In a l -> In b l -> f a = f b -> a = b.
Proof.
  induction l as [|c l IH]; simpl; [tauto|].
  intros Hnd Ha Hb Hf. inversion Hnd as [|? ? Hnotin Hnd']; subst.
  destruct Ha as [->|Ha], Hb as [->|Hb]; auto.
  - exfalso. apply Hnotin. rewrite Hf. now apply List.in_map.
  - exfalso. apply Hnotin. rewrite <- Hf. now apply List.in_map.
Qed.

Lemma filter_none {A : Type} (P : A -> bool) (l : list A) :
  (forall a, In a l -> P a = false) -> List.filter P l = [].
Proof.
  induction l as [|a l IH]; simpl; intros H; [reflexivity|].
  rewrite (H a (or_introl eq_refl)). apply IH. intros b Hb. apply H. now right.
Qed.

(** Under the UNIQUE constraint a row is the only one at its path. *)
Lemma rowsAt_unique (d : DB) (r : FileRecord.t) :
  List.NoDup (map Path (files d)) -> In r (files d) -> rowsAt (Path r) d = [r].
Proof.
  unfold rowsAt. induction (files d) as [|a l IH]; simpl; [tauto|].
  intros Hnd Hin. inversion Hnd as [|? ? Hnotin Hnd']; subst.
  destruct Hin as [->|Hin].
  - replace (hasPath (Path r) r) with true by (symmetry; now apply hasPath_true).
    f_equal. apply filter_none. intros b Hb. apply hasPath_false.
    intros E. apply Hnotin. rewrite <- E. now apply List.in_map.
  - replace (hasPath (Path r) a) with false.
    + now apply IH.
    + symmetry. apply hasPath_false. intros E. apply Hnotin. rewrite E.
      now apply List.in_map.
Qed.

Lemma rowsAt_In (p : string) (d : DB) (r : FileRecord.t) :
  In r (rowsAt p d) <-> In r (files d) /\ Path r = p.
Proof. unfold rowsAt. rewrite List.filter_In, hasPath_true. tauto. Qed.

Lemma rowsAt_nil (p : string) (d : DB) :
  rowsAt p d = [] <-> ~ In p (map Path (files d)).
Proof.
  split.
  - intros H Hin. apply List.in_map_iff in Hin as (r & Hp & Hin).
    assert (In r (rowsAt p d)) as Hr by (apply rowsAt_In; auto).
    rewrite H in Hr. exact Hr.
  - intros H. apply filter_none. intros r Hr. apply hasPath_false. intros E.
    apply H. rewrite <- E. now apply List.in_map.
Qed.

(** *** UpsertFileTx *)

Lemma upsert_conflict (f : FileRecord.t) (d : DB) :
  In (Path f) (map Path (files d)) ->
  UpsertFileTx f d
  = {| files := map (fun r => if hasPath (Path f) r then conflictUpdate f r else r)
                    (files d);
       seq := seq d + 1 |}.
Proof.
  intros H. unfold UpsertFileTx.
  now rewrite (proj2 (existsb_hasPath _ _) H).
Qed.

Lemma upsert_insert (f : FileRecord.t) (d : DB) :
  ~ In (Path f) (map Path (files d)) ->
  UpsertFileTx f d
  = {| files := files d ++ [withID (seq d + 1) f]; seq := seq d + 1 |}.
Proof.
  intros H. unfold UpsertFileTx.
  destruct (existsb (hasPath (Path f)) (files d)) eqn:E; [|reflexivity].
  apply existsb_hasPath in E. contradiction.
Qed.

Lemma filter_map_same_path (p : string) (g : FileRecord.t -> FileRecord.t)
      (l : list FileRecord.t) :
  (forall r, Path (g r) = Path r) ->
  List.filter (hasPath p) (map g l) = map g (List.filter (hasPath p) l).
Proof.
  intros Hg. induction l as [|a l IH]; [reflexivity|].
  cbn [map List.filter].
  assert (hasPath p (g a) = hasPath p a) as -> by (unfold hasPath; now rewrite Hg).
  destruct (hasPath p a); cbn [map]; now rewrite IH.
Qed.

Lemma map_id_on {A : Type} (g : A -> A) (l : list A) :
  (forall a, In a l -> g a = a) -> map g l = l.
Proof.
  induction l as [|a l IH]; simpl; intros H; [reflexivity|].
  rewrite (H a (or_introl eq_refl)). f_equal. apply IH. intros b Hb. apply H. now right.
Qed.

Lemma rowsAt_upsert_other (f : FileRecord.t) (d : DB) (p : string) :
  p <> Path f -> rowsAt p (UpsertFileTx f d) = rowsAt p d.
Proof.
  intros Hne. unfold UpsertFileTx, rowsAt.
  destruct (existsb (hasPath (Path f)) (files d)); cbn [files].
  - rewrite filter_map_same_path.
    + apply map_id_on. intros r Hr. apply List.filter_In in Hr as [_ Hr].
      apply hasPath_true in Hr.
      replace (hasPath (Path f) r) with false; [reflexivity|].
      symmetry. apply hasPath_false. congruence.
    + intros r. now destruct (hasPath (Path f) r).
  - rewrite List.filter_app. simpl.
    replace (hasPath p (withID (seq d + 1) f)) with false; [apply app_nil_r|].
    symmetry. apply hasPath_false. simpl. congruence.
Qed.

Lemma rowsAt_upsert_same_conflict (f : FileRecord.t) (d : DB) :
  In (Path f) (map Path (files d)) ->
  rowsAt (Path f) (UpsertFileTx f d) = map (conflictUpdate f) (rowsAt (Path f) d).
Proof.
  intros H. rewrite (upsert_conflict f d H). unfold rowsAt. cbn [files].
  rewrite filter_map_same_path.
  - apply map_ext_in. intros r Hr. apply List.filter_In in Hr as [_ Hr]. now rewrite Hr.
  - intros r. now destruct (hasPath (Path f) r).
Qed.

Lemma rowsAt_upsert_same_insert (f : FileRecord.t) (d : DB) :
  ~ In (Path f) (map Path (files d)) ->
  rowsAt (Path f) (UpsertFileTx f d) = [withID (seq d + 1) f].
Proof.
  intros H. rewrite (upsert_insert f d H). unfold rowsAt. cbn [files].
  rewrite List.filter_app. cbn [List.filter].
  replace (hasPath (Path f) (withID (seq d + 1) f)) with true
    by (symmetry; now apply hasPath_true).
  fold (rowsAt (Path f) d). now rewrite (proj2 (rowsAt_nil _ _) H).
Qed.

(** After an upsert the path holds exactly one row, with the digest, size,
    time and status of the upserted record. *)
Lemma rowsAt_upsert_same (f : FileRecord.t) (d : DB) :
  List.NoDup (map Path (files d)) ->
  exists r, rowsAt (Path f) (UpsertFileTx f d) = [r] /\
            Path r = Path f /\ Disk r = Disk f /\ Size r = Size f /\
            Mtime r = Mtime f /\ SHA256 r = SHA256 f /\
            LastVerified r = LastVerified f /\ Status r = Status f.
Proof.
  intros Hnd.
  destruct (in_dec string_dec (Path f) (map Path (files d))) as [Hin|Hout].
  - rewrite (rowsAt_upsert_same_conflict f d Hin).
    apply List.in_map_iff in Hin as (r0 & Hp & Hin).
    rewrite <- Hp, (rowsAt_unique d r0 Hnd Hin). simpl.
    eexists. split; [reflexivity|]. simpl. rewrite Hp. repeat split; reflexivity.
  - rewrite (rowsAt_upsert_same_insert f d Hout).
    eexists. split; [reflexivity|]. simpl. repeat split; reflexivity.
Qed.

(** *** UpdateStatusTx *)

Lemma rowsAt_status_other (now : Z) (path status : string) (d : DB) (p : string) :
  p <> path -> rowsAt p (UpdateStatusTx now path status d) = rowsAt p d.
Proof.
  intros Hne. unfold UpdateStatusTx, rowsAt. cbn [files].
  rewrite filter_map_same_path.
  - apply map_id_on. intros r Hr. apply List.filter_In in Hr as [_ Hr].
    apply hasPath_true in Hr.
    replace (hasPath path r) with false; [reflexivity|].
    symmetry. apply hasPath_false. congruence.
  - intros r. now destruct (hasPath path r).
Qed.

Lemma rowsAt_status_same (now : Z) (path status : string) (d : DB) :
  rowsAt path (UpdateStatusTx now path status d)
  = map (setStatus now status) (rowsAt path d).
Proof.
  unfold UpdateStatusTx, rowsAt. cbn [files].
  rewrite filter_map_same_path.
  - apply map_ext_in. intros r Hr. apply List.filter_In in Hr as [_ Hr]. now rewrite Hr.
  - intros r. now destruct (hasPath path r).
Qed.

(** *** MovePathTx *)

Lemma move_files (now : Z) (o n disk : string) (size mtime : Z) (d : DB) :
  files (MovePathTx now o n disk size mtime d)
  = map (moved now o n disk size mtime)
        (List.filter (fun r => negb (hasPath n r)) (files d)).
Proof. reflexivity. Qed.

Lemma rowsAt_move_old (now : Z) (o n disk : string) (size mtime : Z) (d : DB) :
  o <> n -> rowsAt o (MovePathTx now o n disk size mtime d) = [].
Proof.
  intros Hne. unfold rowsAt. rewrite move_files. apply filter_none.
  intros r Hr. apply List.in_map_iff in Hr as (r0 & <- & _).
  apply hasPath_false. unfold moved.
  destruct (hasPath o r0) eqn:E; simpl.
  - congruence.
  - now apply hasPath_false.
Qed.

Lemma rowsAt_move_new (now : Z) (o n disk : string) (size mtime : Z) (d : DB) :
  o <> n ->
  rowsAt n (MovePathTx now o n disk size mtime d)
  = map (rekey now n disk size mtime) (rowsAt o d).
Proof.
  intros Hne. unfold rowsAt. rewrite move_files.
  induction (files d) as [|a l IH]; [reflexivity|].
  cbn [List.filter].
  destruct (hasPath n a) eqn:En; cbn [negb].
  - assert (hasPath o a = false) as ->.
    { apply hasPath_false. apply hasPath_true in En. congruence. }
    exact IH.
  - cbn [map List.filter].
    destruct (hasPath o a) eqn:Eo.
    + assert (moved now o n disk size mtime a = rekey now n disk size mtime a) as ->
        by (unfold moved; now rewrite Eo).
      replace (hasPath n (rekey now n disk size mtime a)) with true
        by (symmetry; now apply hasPath_true).
      cbn [map]. now rewrite IH.
    + assert (moved now o n disk size mtime a = a) as ->
        by (unfold moved; now rewrite Eo).
      rewrite En. exact IH.
Qed.

Lemma rowsAt_move_other (now : Z) (o n disk : string) (size mtime : Z) (d : DB)
      (p : string) :
  p <> o -> p <> n ->
  rowsAt p (MovePathTx now o n disk size mtime d) = rowsAt p d.
Proof.
  intros Ho Hn. unfold rowsAt. rewrite move_files.
  induction (files d) as [|a l IH]; [reflexivity|].
  cbn [List.filter].
  destruct (hasPath n a) eqn:En; cbn [negb].
  - assert (hasPath p a = false) as ->.
    { apply hasPath_false. apply hasPath_true in En. congruence. }
    exact IH.
  - cbn [map List.filter].
    destruct (hasPath o a) eqn:Eo.
    + assert (moved now o n disk size mtime a = rekey now n disk size mtime a) as ->
        by (unfold moved; now rewrite Eo).
      replace (hasPath p (rekey now n disk size mtime a)) with false
        by (symmetry; apply hasPath_false; simpl; congruence).
      assert (hasPath p a = false) as ->.
      { apply hasPath_false. apply hasPath_true in Eo. congruence. }
      exact IH.
    + assert (moved now o n disk size mtime a = a) as ->
        by (unfold moved; now rewrite Eo).
      destruct (hasPath p a); [now rewrite IH|exact IH].
Qed.

(** *** The schema constraints are kept by every write *)

Lemma NoDup_filter {A B : Type} (f : A -> B) (P : A -> bool) (l : list A) :
  List.NoDup (map f l) -> List.NoDup (map f (List.filter P l)).
Proof.
  induction l as [|a l IH]; simpl; intros Hnd; [constructor|].
  inversion Hnd as [|? ? Hnotin Hnd']; subst.
  destruct (P a); simpl; [|now apply IH].
  constructor; [|now apply IH].
  intros Hin. apply Hnotin. apply List.in_map_iff in Hin as (b & Hb & Hin).
  apply List.in_map_iff. exists b. split; [exact Hb|].
  now apply List.filter_In in Hin as [Hin _].
Qed.

Lemma map_map_same {A B : Type} (f : A -> B) (g : A -> A) (l : list A) :
  (forall a, f (g a) = f a) -> map f (map g l) = map f l.
Proof.
  intros H. rewrite List.map_map. apply map_ext. exact H.
Qed.

Lemma Forall_map_same (P : FileRecord.t -> Prop) (g : FileRecord.t -> FileRecord.t)
      (l : list FileRecord.t) :
  (forall r, P r -> P (g r)) -> Forall P l -> Forall P (map g l).
Proof.
  intros H. induction 1; simpl; constructor; auto.
Qed.

Lemma Forall_filter_keep {A : Type} (P : A -> Prop) (Q : A -> bool) (l : list A) :
  Forall P l -> Forall P (List.filter Q l).
Proof.
  induction 1; simpl; [constructor|]. destruct (Q x); [constructor|]; auto.
Qed.

Lemma NoDup_snoc {A : Type} (l : list A) (a : A) :
  List.NoDup l -> ~ In a l -> List.NoDup (l ++ [a]).
Proof.
  induction l as [|b l IH]; simpl; intros Hnd Hout.
  - constructor; [tauto|constructor].
  - inversion Hnd as [|? ? Hnotin Hnd']; subst. constructor.
    + rewrite in_app_iff. simpl. intros [H|[H|[]]]; [tauto|]. apply Hout. now left.
    + apply IH; tauto.
Qed.

Lemma wf_upsert (f : FileRecord.t) (d : DB) : wf d -> wf (UpsertFileTx f d).
Proof.
  intros (Hp & Hi & Hs).
  destruct (in_dec string_dec (Path f) (map Path (files d))) as [Hin|Hout].
  - rewrite (upsert_conflict f d Hin). unfold wf. cbn [files seq].
    rewrite !map_map_same by (intros r; now destruct (hasPath (Path f) r)).
    repeat split; try assumption.
    apply Forall_map_same.
    + intros r Hr. now destruct (hasPath (Path f) r).
    + eapply List.Forall_impl; [|exact Hs]. simpl. intros; lia.
  - rewrite (upsert_insert f d Hout). unfold wf. cbn [files seq].
    rewrite !List.map_app. cbn [map withID ID Path]. repeat split.
    + now apply NoDup_snoc.
    + apply NoDup_snoc; [exact Hi|]. intros Hin.
      apply List.in_map_iff in Hin as (r & Hr & Hin).
      rewrite List.Forall_forall in Hs. specialize (Hs r Hin). lia.
    + apply List.Forall_app. split.
      * eapply List.Forall_impl; [|exact Hs]. simpl. intros; lia.
      * constructor; [simpl; lia|constructor].
Qed.

Lemma wf_status (now : Z) (path status : string) (d : DB) :
  wf d -> wf (UpdateStatusTx now path status d).
Proof.
  intros (Hp & Hi & Hs). unfold wf, UpdateStatusTx. cbn [files seq].
  rewrite !map_map_same by (intros r; now destruct (hasPath path r)).
  repeat split; try assumption.
  apply Forall_map_same; [|exact Hs].
  intros r Hr. now destruct (hasPath path r).
Qed.

Lemma NoDup_moved_paths (now : Z) (o n disk : string) (size mtime : Z)
      (l : list FileRecord.t) :
  List.NoDup (map Path l) -> (forall r, In r l -> Path r <> n) ->
  List.NoDup (map Path (map (moved now o n disk size mtime) l)).
Proof.
  induction l as [|a l IH]; simpl; intros Hnd Hn; [constructor|].
  inversion Hnd as [|? ? Hnotin Hnd']; subst.
  constructor; [|apply IH; auto].
  intros Hin. rewrite List.map_map in Hin.
  apply List.in_map_iff in Hin as (b & Hb & Hin).
  assert (Path b <> Path a) as Hba.
  { intros E. apply Hnotin. rewrite <- E. now apply List.in_map. }
  unfold moved in Hb.
  destruct (hasPath o b) eqn:Eb, (hasPath o a) eqn:Ea; simpl in Hb.
  - apply hasPath_true in Eb, Ea. congruence.
  - symmetry in Hb. exact (Hn a (or_introl eq_refl) Hb).
  - exact (Hn b (or_intror Hin) Hb).
  - congruence.
Qed.

Lemma wf_move (now : Z) (o n disk : string) (size mtime : Z) (d : DB) :
  wf d -> wf (MovePathTx now o n disk size mtime d).
Proof.
  intros (Hp & Hi & Hs). unfold wf. rewrite move_files. cbn [seq MovePathTx].
  repeat split.
  - apply NoDup_moved_paths.
    + now apply NoDup_filter.
    + intros r Hr. apply List.filter_In in Hr as [_ Hr].
      apply negb_true_iff in Hr. now apply hasPath_false.
  - rewrite map_map_same by (intros r; unfold moved; now destruct (hasPath o r)).
    now apply NoDup_filter.
  - apply Forall_map_same.
    + intros r Hr. unfold moved. now destruct (hasPath o r).
    + now apply Forall_filter_keep.
Qed.

Lemma wf_exec (d : DB) (nw : Z * write) : wf d -> wf (exec d nw).
Proof.
  destruct nw as [now [f|path status|o n disk size mtime]]; simpl.
  - apply wf_upsert.
  - apply wf_status.
  - apply wf_move.
Qed.

(** Every row after a write is a row from before with its id and first-seen
    time, or carries an id above the old counter; the counter never goes
    down. *)
Lemma exec_origin (d : DB) (nw : Z * write) (r' : FileRecord.t) :
  In r' (files (exec d nw)) ->
  (exists r, In r (files d) /\ ID r' = ID r /\ FirstSeen r' = FirstSeen r) \/
  seq d < ID r'.
Proof.
  destruct nw as [now [f|path status|o n disk size mtime]]; unfold exec; cbn [fst snd].
  - unfold UpsertFileTx. destruct (existsb (hasPath (Path f)) (files d)); cbn [files].
    + intros Hin. apply List.in_map_iff in Hin as (r & <- & Hin). left. exists r.
      split; [exact Hin|]. now destruct (hasPath (Path f) r).
    + intros Hin. apply in_app_iff in Hin as [Hin|[<-|[]]].
      * left. exists r'. auto.
      * right. simpl. lia.
  - unfold UpdateStatusTx. cbn [files].
    intros Hin. apply List.in_map_iff in Hin as (r & <- & Hin). left. exists r.
    split; [exact Hin|]. now destruct (hasPath path r).
  - rewrite move_files.
    intros Hin. apply List.in_map_iff in Hin as (r & <- & Hin). left. exists r.
    apply List.filter_In in Hin as [Hin _].
    split; [exact Hin|]. unfold moved. now destruct (hasPath o r).
Qed.

Lemma exec_seq (d : DB) (nw : Z * write) : seq d <= seq (exec d nw).
Proof.
  destruct nw as [now [f|path status|o n disk size mtime]]; unfold exec; cbn [fst snd].
  - unfold UpsertFileTx. destruct (existsb (hasPath (Path f)) (files d)); simpl; lia.
  - simpl. lia.
  - simpl. lia.
Qed.

(** Every row survives a write under its id, except a row sitting at the
    destination of a re-keying. *)
Lemma exec_survives (d : DB) (nw : Z * write) (r : FileRecord.t) :
  In r (files d) ->
  (exists r', In r' (files (exec d nw)) /\ ID r' = ID r) \/
  (exists o n disk size mtime, snd nw = MovePath o n disk size mtime /\ Path r = n).
Proof.
  intros Hin.
  destruct nw as [now [f|path status|o n disk size mtime]]; unfold exec; cbn [fst snd].
  - left. unfold UpsertFileTx.
    destruct (existsb (hasPath (Path f)) (files d)); cbn [files].
    + eexists. split; [apply List.in_map; exact Hin|]. now destruct (hasPath (Path f) r).
    + exists r. split; [apply in_app_iff; now left|reflexivity].
  - left. unfold UpdateStatusTx. cbn [files].
    eexists. split; [apply List.in_map; exact Hin|]. now destruct (hasPath path r).
  - destruct (hasPath n r) eqn:En.
    + right. exists o, n, disk, size, mtime. split; [reflexivity|].
      now apply hasPath_true.
    + left. rewrite move_files. eexists. split.
      * apply List.in_map. apply List.filter_In. split; [exact Hin|now rewrite En].
      * unfold moved. now destruct (hasPath o r).
Qed.

(** C9.  The first-seen time of a catalog record never changes once the
    record exists: for every write statement of the store (upsert, status
    update, re-keying) run on a catalog that meets the schema constraints,
    the catalog still meets them, every row that was there before keeps its
    first-seen time under its id, and the row is still there unless it sat at
    the destination path of a re-keying, which deletes it. *)
Theorem first_seen_immutable (d : DB) (nw : Z * write) (r : FileRecord.t)
        (Hwf : wf d) (Hin : In r (files d)) :
  wf (exec d nw) /\
  (forall r', In r' (files (exec d nw)) -> ID r' = ID r -> FirstSeen r' = FirstSeen r) /\
  ((exists r', In r' (files (exec d nw)) /\ ID r' = ID r /\ FirstSeen r' = FirstSeen r) \/
   (exists o n disk size mtime, snd nw = MovePath o n disk size mtime /\ Path r = n)).
Proof.
  assert (forall r', In r' (files (exec d nw)) -> ID r' = ID r ->
                     FirstSeen r' = FirstSeen r) as Hkeep.
  { intros r' Hin' Hid.
    destruct (exec_origin d nw r' Hin') as [(r0 & Hin0 & Hid0 & Hfs0)|Hfresh].
    - destruct Hwf as (_ & Hi & _).
      assert (r0 = r) as -> by (eapply (NoDup_map_inj ID); eauto; congruence).
      exact Hfs0.
    - destruct Hwf as (_ & _ & Hs). rewrite List.Forall_forall in Hs.
      specialize (Hs r Hin). lia. }
  split; [now apply wf_exec|]. split; [exact Hkeep|].
  destruct (exec_survives d nw r Hin) as [(r' & Hin' & Hid)|Hdel].
  - left. exists r'. auto.
  - now right.
Qed.

(** The same over any sequence of writes. *)
Lemma first_seen_kept_over_writes (ops : list (Z * write)) (d : DB) (r : FileRecord.t) :
  wf d -> In r (files d) ->
  forall r', In r' (files (fold_left exec ops d)) -> ID r' = ID r ->
             FirstSeen r' = FirstSeen r.
Proof.
  intros Hwf Hin.
  assert (ID r <= seq d /\
          forall r', In r' (files d) -> ID r' = ID r -> FirstSeen r' = FirstSeen r)
    as Hinv.
  { destruct Hwf as (_ & Hi & Hs). split.
    - rewrite List.Forall_forall in Hs. now apply Hs.
    - intros r' Hin' Hid.
      assert (r' = r) as -> by (eapply (NoDup_map_inj ID); eauto). reflexivity. }
  clear Hwf Hin. revert d Hinv.
  induction ops as [|nw ops IH]; intros d (Hle & Hinv); simpl.
  - exact Hinv.
  - apply IH. split.
    + pose proof (exec_seq d nw). lia.
    + intros r' Hin' Hid.
      destruct (exec_origin d nw r' Hin') as [(r0 & Hin0 & Hid0 & Hfs0)|Hfresh].
      * rewrite Hfs0. apply Hinv; [exact Hin0|congruence].
      * lia.
Qed.

End DbFacts.

(** ** Ordering and the candidate query *)

Section OrderByFacts.
Context {A : Type} (le : A -> A -> bool).

Lemma insert_by_perm (a : A) (l : list A) : Permutation (a :: l) (insert_by le a l).
Proof.
  induction l as [|b l IH]; simpl.
  - apply Permutation_refl.
  - destruct (le a b).
    + apply Permutation_refl.
    + eapply Permutation_trans; [apply perm_swap|]. now apply perm_skip.
Qed.

Lemma order_by_perm (l : list A) : Permutation l (order_by le l).
Proof.
  induction l as [|a l IH]; simpl.
  - apply perm_nil.
  - eapply Permutation_trans; [|apply insert_by_perm]. now apply perm_skip.
Qed.

Lemma order_by_In (a : A) (l : list A) : In a (order_by le l) <-> In a l.
Proof.
  split; apply Permutation_in; [apply Permutation_sym|]; apply order_by_perm.
Qed.

Hypothesis le_total : forall a b, le a b = true \/ le b a = true.
Hypothesis le_trans : forall a b c, le a b = true -> le b c = true -> le a c = true.

Lemma insert_by_sorted (a : A) (l : list A) :
  StronglySorted (fun u v => le u v = true) l ->
  StronglySorted (fun u v => le u v = true) (insert_by le a l).
Proof.
  induction 1 as [|b l Hs IH Hb]; simpl.
  - constructor; constructor.
  - destruct (le a b) eqn:Hab.
    + constructor.
      * now constructor.
      * constructor; [exact Hab|].
        rewrite List.Forall_forall in *. intros v Hv. eapply le_trans; eauto.
    + constructor; [exact IH|].
      rewrite List.Forall_forall in *. intros v Hv.
      apply (Permutation_in _ (Permutation_sym (insert_by_perm a l))) in Hv.
      destruct Hv as [<-|Hv]; [|now apply Hb].
      destruct (le_total a b) as [E|E]; [congruence|exact E].
Qed.

Lemma order_by_sorted (l : list A) :
  StronglySorted (fun u v => le u v = true) (order_by le l).
Proof.
  induction l; simpl; [constructor|now apply insert_by_sorted].
Qed.

End OrderByFacts.

Lemma In_firstn {A : Type} (n : nat) (l : list A) (a : A) :
  In a (firstn n l) -> In a l.
Proof.
  revert l. induction n as [|n IH]; intros [|b l]; simpl; try tauto.
  intros [H|H]; [now left|right; now apply IH].
Qed.

Lemma StronglySorted_firstn {A : Type} (R : A -> A -> Prop) (n : nat) (l : list A) :
  StronglySorted R l -> StronglySorted R (firstn n l).
Proof.
  intros H. revert n. induction H as [|a l Hs IH Ha]; intros [|n]; simpl;
    try constructor.
  - apply IH.
  - rewrite List.Forall_forall in *. intros b Hb. apply Ha.
    eapply In_firstn. exact Hb.
Qed.

Section LikeFacts.
Import like.

Lemma eq_nocase_refl (c : ascii) : eq_nocase c c = true.
Proof. unfold eq_nocase. apply Ascii.eqb_refl. Qed.

Lemma any_suffix_intro (f : list ascii -> bool) (pre s : list ascii) :
  f s = true -> any_suffix f (pre ++ s) = true.
Proof.
  intros H. induction pre as [|c pre IH]; simpl.
  - destruct s; simpl; rewrite H; reflexivity.
  - rewrite IH. apply orb_true_r.
Qed.

(** A string matches itself taken as a pattern, wildcards included. *)
Lemma matches_refl (s : list ascii) : matches s s = true.
Proof.
  induction s as [|c s IH]; [reflexivity|].
  cbn [matches].
  destruct (Ascii.eqb c "%"%char) eqn:E1.
  - apply (any_suffix_intro (matches s) [c] s IH).
  - destruct (Ascii.eqb c "_"%char) eqn:E2.
    + apply Ascii.eqb_eq in E2. subst c. simpl. exact IH.
    + now rewrite eq_nocase_refl, IH.
Qed.

Lemma list_ascii_app (a b : string) :
  list_ascii_of_string (String.append a b)
  = list_ascii_of_string a ++ list_ascii_of_string b.
Proof. induction a as [|c a IH]; simpl; [reflexivity|now rewrite IH]. Qed.

(** Every path that ends in "/" followed by the base name is matched by the
    pattern "%/" ++ base name. *)
Lemma LIKE_basename (dir base : string) :
  LIKE (String.append dir (String.append "/" base))
       (String.append "%/" base) = true.
Proof.
  unfold LIKE. rewrite !list_ascii_app.
  change (list_ascii_of_string "%/") with ["%"%char; "/"%char].
  change (list_ascii_of_string "/") with ["/"%char].
  change (matches (["%"%char; "/"%char] ++ list_ascii_of_string base))
    with (any_suffix (matches ("/"%char :: list_ascii_of_string base))).
  apply any_suffix_intro. apply matches_refl.
Qed.

End LikeFacts.

Example Base_file : filepath.Base "/mnt/disk1/movies/test.mkv" = "test.mkv".
Proof. reflexivity. Qed.
Example Base_trailing : filepath.Base "/mnt/disk1/movies/" = "movies".
Proof. reflexivity. Qed.
Example Base_root : filepath.Base "///" = "/".
Proof. reflexivity. Qed.
Example like_case : like.LIKE "/mnt/disk1/Photos/IMG.JPG" "%/img.jpg" = true.
Proof. reflexivity. Qed.
Example like_underscore : like.LIKE "/mnt/disk1/aXb.txt" "%/a_b.txt" = true.
Proof. reflexivity. Qed.
Example like_other : like.LIKE "/mnt/disk1/b.txt" "%/a.txt" = false.
Proof. reflexivity. Qed.
Example like_suffix_only : like.LIKE "/mnt/disk1/xa.txt" "%/a.txt" = false.
Proof. reflexivity. Qed.

Section CandidateFacts.
Import db.
Import db.FileRecord.

Lemma lastVerifiedDesc_total (a b : FileRecord.t) :
  lastVerifiedDesc a b = true \/ lastVerifiedDesc b a = true.
Proof. unfold lastVerifiedDesc. rewrite !Z.leb_le. lia. Qed.

Lemma lastVerifiedDesc_trans (a b c : FileRecord.t) :
  lastVerifiedDesc a b = true -> lastVerifiedDesc b c = true ->
  lastVerifiedDesc a c = true.
Proof. unfold lastVerifiedDesc. rewrite !Z.leb_le. lia. Qed.

(** What [FindMoveCandidates] returns: at most [limit] rows (20 when the
    limit is not positive), each a row of the table of the given size whose
    path matches "%/" ++ base name, the most recently verified first. *)
Lemma FindMoveCandidates_spec (baseName : string) (size limit : Z) (d : DB) :
  let cands := FindMoveCandidates baseName size limit d in
  (Z.of_nat (length cands) <= if limit <=? 0 then 20 else limit) /\
  StronglySorted (fun a b => LastVerified b <= LastVerified a) cands /\
  Forall (fun c => In c (files d) /\ Size c = size /\
                   like.LIKE (Path c) (String.append "%/" baseName) = true) cands.
Proof.
  unfold FindMoveCandidates. cbv zeta.
  set (lim := if limit <=? 0 then 20 else limit).
  set (rows := order_by lastVerifiedDesc _).
  assert (0 < lim) as Hlim by (unfold lim; destruct (limit <=? 0) eqn:E; lia).
  split; [|split].
  - pose proof (firstn_le_length (Z.to_nat lim) rows). rewrite length_firstn. lia.
  - apply StronglySorted_firstn.
    pose proof (order_by_sorted lastVerifiedDesc lastVerifiedDesc_total
                                lastVerifiedDesc_trans
                                (List.filter (isCandidate baseName size) (files d))) as Hs.
    fold rows in Hs. clearbody rows.
    induction Hs as [|a l Hs IH Ha]; constructor; [exact IH|].
    eapply List.Forall_impl; [|exact Ha]. intros b Hb.
    unfold lastVerifiedDesc in Hb. now apply Z.leb_le.
  - apply List.Forall_forall. intros c Hc. apply In_firstn in Hc.
    apply order_by_In in Hc. apply List.filter_In in Hc as [Hin Hc].
    unfold isCandidate in Hc. apply andb_true_iff in Hc as [Hs Hl].
    apply Z.eqb_eq in Hs. auto.
Qed.

(** A row with exactly this base name and size passes the WHERE clause. *)
Lemma isCandidate_same_basename (dir baseName : string) (size : Z) (r : FileRecord.t) :
  Path r = String.append dir (String.append "/" baseName) -> Size r = size ->
  isCandidate baseName size r = true.
Proof.
  intros Hp Hs. unfold isCandidate. rewrite Hp, Hs, Z.eqb_refl. simpl.
  apply LIKE_basename.
Qed.

End CandidateFacts.

(** ** The constructors *)

(** C10.  Neither constructor yields a pool without workers: for every
    integer, [hasher.New] gives at least one worker and exactly one when the
    argument is zero or negative, [verifier.New] gives at least one and
    exactly four when the argument is zero or negative, a positive argument
    is kept, and the pool the verifier builds from its own count has that
    count.  Both constructors are total functions: there is no failing
    result. *)
Theorem constructors_give_workers (n : Z) (q : bool) :
  1 <= hasher.workers (hasher.New n) /\
  1 <= verifier.workers (verifier.New n q) /\
  (n <= 0 -> hasher.workers (hasher.New n) = 1 /\
             verifier.workers (verifier.New n q) = 4) /\
  (0 < n -> hasher.workers (hasher.New n) = n /\
            verifier.workers (verifier.New n q) = n) /\
  hasher.workers (hasher.New (verifier.workers (verifier.New n q)))
  = verifier.workers (verifier.New n q) /\
  verifier.quick (verifier.New n q) = q.
Proof.
  unfold hasher.New, verifier.New. cbn [hasher.workers verifier.workers verifier.quick].
  destruct (n <=? 0) eqn:E.
  - apply Z.leb_le in E. simpl. repeat split; try lia.
  - apply Z.leb_gt in E. replace (n <=? 0) with false by (symmetry; now apply Z.leb_gt).
    repeat split; try lia.
Qed.

Lemma constructors_give_workers_witness :
  (-3 <= 0) /\
  hasher.workers (hasher.New (-3)) = 1 /\
  verifier.workers (verifier.New (-3) true) = 4 /\
  (0 < 8) /\
  hasher.workers (hasher.New 8) = 8 /\
  verifier.workers (verifier.New 8 false) = 8.
Proof.
  destruct (constructors_give_workers (-3) true) as (_ & _ & Hneg & _).
  destruct (constructors_give_workers 8 false) as (_ & _ & _ & Hpos & _).
  assert (-3 <= 0) as H1 by lia. assert (0 < 8) as H2 by lia.
  destruct (Hneg H1) as [A B]. destruct (Hpos H2) as [C D].
  repeat split; assumption.
Defined.

(** ** The result loop of the scan *)

Section MainFacts.
Import main.
Import hasher.
Import db.

Lemma detectMove_passedOver (w : os.World) (result : Result.t)
      (pre rest : list FileRecord.t) :
  Forall (passedOver w result) pre ->
  detectMove w result (pre ++ rest) = detectMove w result rest.
Proof.
  induction 1 as [|c pre Hc Hpre IH]; [reflexivity|].
  cbn [app detectMove]. destruct Hc as [Hc|Hc].
  - apply String.eqb_eq in Hc. now rewrite Hc.
  - destruct (String.eqb _ _); [exact IH|].
    destruct (os.Stat w (FileRecord.Path c)); try exact IH. congruence.
Qed.

Lemma detectMove_gone (w : os.World) (result : Result.t)
      (pre post : list FileRecord.t) (c : FileRecord.t) :
  Forall (passedOver w result) pre ->
  FileRecord.Path c <> Result.Path result ->
  os.Stat w (FileRecord.Path c) = os.StatNotExist ->
  detectMove w result (pre ++ c :: post)
  = if String.eqb (FileRecord.SHA256 c) (Result.SHA256 result)
    then Moved c else MoveCorrupted c.
Proof.
  intros Hpre Hne Hgone. rewrite (detectMove_passedOver w result pre _ Hpre).
  cbn [detectMove]. apply String.eqb_neq in Hne. now rewrite Hne, Hgone.
Qed.

Lemma endOfIteration_tx (st : ScanState) : tx (endOfIteration st) = tx st.
Proof. unfold endOfIteration. now destruct (batchSize <=? batchCount st + 1). Qed.

Lemma endOfIteration_stderr (st : ScanState) : stderr (endOfIteration st) = stderr st.
Proof. unfold endOfIteration. now destruct (batchSize <=? batchCount st + 1). Qed.

Lemma endOfIteration_errors (st : ScanState) :
  totalErrors (endOfIteration st) = totalErrors st.
Proof. unfold endOfIteration. now destruct (batchSize <=? batchCount st + 1). Qed.

Lemma endOfIteration_processed (st : ScanState) :
  totalProcessed (endOfIteration st) = totalProcessed st.
Proof. unfold endOfIteration. now destruct (batchSize <=? batchCount st + 1). Qed.

(** C1 (as amended).  In an incremental scan (a lookup map was loaded), when
    a successfully hashed result arrives for a path the lookup map does not
    hold, the candidates are the rows returned by
    [FindMoveCandidates (basename, size, 20)]: at most 20 rows of that size
    whose path matches the base name, most recently verified first.  If the
    first candidate that is not passed over (its path differs from the new
    path and no longer exists) has the digest of the result, and its row is
    still in the open transaction, then the row is re-keyed to the new path:
    nothing is left at the old path, exactly one row sits at the new path,
    it is the candidate's row with its id, digest and first-seen time, with
    the disk, size and modification time of the result, status ok; the
    search does not look at later candidates, no error is counted, nothing
    is upserted and every other path keeps its rows. *)
Theorem move_detection_rekeys
        (w : os.World) (m : gmap string QuickLookup.t) (now : Z)
        (result : Result.t) (st : ScanState)
        (pre post : list FileRecord.t) (c : FileRecord.t)
        (Hok : Result.Err result = None)
        (Hnew : m !! Result.Path result = None)
        (Hcands : FindMoveCandidates (filepath.Base (Result.Path result))
                                     (Result.Size result) 20 (committed st)
                  = pre ++ c :: post)
        (Hpre : Forall (passedOver w result) pre)
        (Hne : FileRecord.Path c <> Result.Path result)
        (Hgone : os.Stat w (FileRecord.Path c) = os.StatNotExist)
        (Hsha : FileRecord.SHA256 c = Result.SHA256 result)
        (Hwf : wf (tx st))
        (Hin : In c (files (tx st))) :
  (Z.of_nat (length (pre ++ c :: post)) <= 20 /\
   StronglySorted (fun a b => FileRecord.LastVerified b <= FileRecord.LastVerified a)
                  (pre ++ c :: post) /\
   Forall (fun a => In a (files (committed st)) /\
                    FileRecord.Size a = Result.Size result /\
                    like.LIKE (FileRecord.Path a)
                              (String.append "%/" (filepath.Base (Result.Path result)))
                    = true)
          (pre ++ c :: post)) /\
  (forall post', detectMove w result (pre ++ c :: post') = Moved c) /\
  exists st',
    processResult w (Some m) now result st = Some st' /\
    tx st' = MovePathTx now (FileRecord.Path c) (Result.Path result)
                        (Result.Disk result) (Result.Size result)
                        (Result.Mtime result) (tx st) /\
    rowsAt (FileRecord.Path c) (tx st') = [] /\
    rowsAt (Result.Path result) (tx st')
    = [ {| FileRecord.ID := FileRecord.ID c;
           FileRecord.Path := Result.Path result;
           FileRecord.Disk := Result.Disk result;
           FileRecord.Size := Result.Size result;
           FileRecord.Mtime := Result.Mtime result;
           FileRecord.SHA256 := FileRecord.SHA256 c;
           FileRecord.FirstSeen := FileRecord.FirstSeen c;
           FileRecord.LastVerified := now;
           FileRecord.Status := "ok" |} ] /\
    (forall p, p <> FileRecord.Path c -> p <> Result.Path result ->
               rowsAt p (tx st') = rowsAt p (tx st)) /\
    wf (tx st') /\
    totalErrors st' = totalErrors st /\
    stderr st' = stderr st /\
    totalProcessed st' = totalProcessed st + 1.
Proof.
  split.
  { rewrite <- Hcands.
    exact (FindMoveCandidates_spec (filepath.Base (Result.Path result))
                                   (Result.Size result) 20 (committed st)). }
  assert (forall post', detectMove w result (pre ++ c :: post') = Moved c) as Hstop.
  { intros post'. rewrite (detectMove_gone w result pre post' c Hpre Hne Hgone).
    apply String.eqb_eq in Hsha. now rewrite Hsha. }
  split; [exact Hstop|].
  unfold processResult. rewrite Hok. unfold moveDetection.
  cbn [committed countProcessed]. rewrite Hnew, Hcands, (Hstop post).
  eexists. split; [reflexivity|].
  rewrite endOfIteration_tx, endOfIteration_errors, endOfIteration_stderr,
    endOfIteration_processed.
  cbn [tx withTx countProcessed totalErrors stderr totalProcessed].
  split; [reflexivity|]. split; [now apply rowsAt_move_old|]. split.
  - rewrite rowsAt_move_new by exact Hne.
    destruct Hwf as (Hp & _). now rewrite (rowsAt_unique (tx st) c Hp Hin).
  - split; [intros p Hp1 Hp2; now apply rowsAt_move_other|].
    split; [now apply wf_move|]. auto.
Qed.

Lemma move_detection_rekeys_witness :
  fixtures.resultB.(Result.Err) = None /\
  LoadQuickLookupMap fixtures.dbA !! fixtures.newPath = None /\
  FindMoveCandidates (filepath.Base fixtures.newPath) 12 20 fixtures.dbA
  = [fixtures.rowA] /\
  os.Stat fixtures.worldMoved fixtures.oldPath = os.StatNotExist /\
  exists st',
    processResult fixtures.worldMoved (Some (LoadQuickLookupMap fixtures.dbA)) 50
                  fixtures.resultB (start fixtures.dbA) = Some st' /\
    rowsAt fixtures.oldPath (tx st') = [] /\
    rowsAt fixtures.newPath (tx st')
    = [ {| FileRecord.ID := 1; FileRecord.Path := fixtures.newPath;
           FileRecord.Disk := "disk2"; FileRecord.Size := 12; FileRecord.Mtime := 100;
           FileRecord.SHA256 := fixtures.digestHello; FileRecord.FirstSeen := 10;
           FileRecord.LastVerified := 50; FileRecord.Status := "ok" |} ].
Proof.
  assert (LoadQuickLookupMap fixtures.dbA !! fixtures.newPath = None) as Hnew
      by (vm_compute; reflexivity).
  assert (FindMoveCandidates (filepath.Base fixtures.newPath) 12 20 fixtures.dbA
          = [] ++ fixtures.rowA :: []) as Hcands by (vm_compute; reflexivity).
  assert (FileRecord.Path fixtures.rowA <> Result.Path fixtures.resultB) as Hne
      by (vm_compute; discriminate).
  assert (wf (tx (start fixtures.dbA))) as Hwf by concrete_wf.
  destruct (move_detection_rekeys fixtures.worldMoved (LoadQuickLookupMap fixtures.dbA)
              50 fixtures.resultB (start fixtures.dbA) [] [] fixtures.rowA
              eq_refl Hnew Hcands (List.Forall_nil _) Hne eq_refl eq_refl Hwf
              (or_introl eq_refl))
    as (_ & _ & st' & Hrun & _ & Hold & Hnewrow & _).
  split; [reflexivity|]. split; [exact Hnew|]. split; [exact Hcands|].
  split; [reflexivity|].
  exists st'. split; [exact Hrun|]. split; [exact Hold|exact Hnewrow].
Defined.

(** C1 as stated does not hold for every scan: with [--full] no lookup map
    is loaded and the candidate loop is not entered.  Here the catalog holds
    one record, for a file that has left its path; the same content arrives
    at a new path with no record; the candidate is there, gone from disk,
    with the digest of the result; and the scan leaves the old record in
    place and inserts a second record with a fresh first-seen time. *)
Lemma full_scan_does_not_detect_moves :
  rowsAt fixtures.newPath fixtures.dbA = [] /\
  FindMoveCandidates (filepath.Base fixtures.newPath) 12 20 fixtures.dbA
  = [fixtures.rowA] /\
  os.Stat fixtures.worldMoved fixtures.oldPath = os.StatNotExist /\
  FileRecord.SHA256 fixtures.rowA = Result.SHA256 fixtures.resultB /\
  exists st',
    processResult fixtures.worldMoved (loadLookup true fixtures.dbA) 50
                  fixtures.resultB (start fixtures.dbA) = Some st' /\
    rowsAt fixtures.oldPath (tx st') = [fixtures.rowA] /\
    rowsAt fixtures.newPath (tx st')
    = [ {| FileRecord.ID := 2; FileRecord.Path := fixtures.newPath;
           FileRecord.Disk := "disk2"; FileRecord.Size := 12; FileRecord.Mtime := 100;
           FileRecord.SHA256 := fixtures.digestHello; FileRecord.FirstSeen := 50;
           FileRecord.LastVerified := 50; FileRecord.Status := "ok" |} ] /\
    length (files (tx st')) = 2%nat.
Proof.
  split; [reflexivity|]. split; [vm_compute; reflexivity|].
  split; [reflexivity|]. split; [reflexivity|].
  eexists. split; [vm_compute; reflexivity|].
  split; [reflexivity|]. split; reflexivity.
Qed.

(** C2.  When the first candidate that is not passed over has gone from its
    path but carries a digest other than that of the result, nothing is
    re-keyed: the candidate's row stays as it was, the new path is upserted
    and then holds exactly one row, with the digest of the result and status
    corrupted, the warning is written to standard error, and the search does
    not look at later candidates.  Digests are at least 12 characters long,
    as every digest the hasher writes is. *)
Theorem move_with_other_digest_is_corrupted
        (w : os.World) (m : gmap string QuickLookup.t) (now : Z)
        (result : Result.t) (st : ScanState)
        (pre post : list FileRecord.t) (c : FileRecord.t)
        (Hok : Result.Err result = None)
        (Hnew : m !! Result.Path result = None)
        (Hcands : FindMoveCandidates (filepath.Base (Result.Path result))
                                     (Result.Size result) 20 (committed st)
                  = pre ++ c :: post)
        (Hpre : Forall (passedOver w result) pre)
        (Hne : FileRecord.Path c <> Result.Path result)
        (Hgone : os.Stat w (FileRecord.Path c) = os.StatNotExist)
        (Hsha : FileRecord.SHA256 c <> Result.SHA256 result)
        (Hlen1 : (12 <= String.length (FileRecord.SHA256 c))%nat)
        (Hlen2 : (12 <= String.length (Result.SHA256 result))%nat)
        (Hwf : wf (tx st)) :
  (forall post', detectMove w result (pre ++ c :: post') = MoveCorrupted c) /\
  exists st',
    processResult w (Some m) now result st = Some st' /\
    tx st' = UpsertFileTx (newRecord now "corrupted" result) (tx st) /\
    rowsAt (FileRecord.Path c) (tx st') = rowsAt (FileRecord.Path c) (tx st) /\
    (exists r, rowsAt (Result.Path result) (tx st') = [r] /\
               FileRecord.Status r = "corrupted" /\
               FileRecord.SHA256 r = Result.SHA256 result /\
               FileRecord.Disk r = Result.Disk result /\
               FileRecord.Size r = Result.Size result /\
               FileRecord.Mtime r = Result.Mtime result) /\
    (forall p, p <> Result.Path result -> rowsAt p (tx st') = rowsAt p (tx st)) /\
    stderr st'
    = stderr st ++
      [ WarnMoveCorruption (FileRecord.Path c) (Result.Path result) (Result.Size result)
                           (String.substring 0 12 (FileRecord.SHA256 c))
                           (String.substring 0 12 (Result.SHA256 result)) ] /\
    totalErrors st' = totalErrors st.
Proof.
  assert (forall post', detectMove w result (pre ++ c :: post') = MoveCorrupted c)
    as Hstop.
  { intros post'. rewrite (detectMove_gone w result pre post' c Hpre Hne Hgone).
    apply String.eqb_neq in Hsha. now rewrite Hsha. }
  split; [exact Hstop|].
  unfold processResult. rewrite Hok. unfold moveDetection.
  cbn [committed countProcessed]. rewrite Hnew, Hcands, (Hstop post).
  unfold prefix12.
  apply Nat.leb_le in Hlen1, Hlen2. rewrite Hlen1, Hlen2.
  eexists. split; [reflexivity|].
  rewrite endOfIteration_tx, endOfIteration_errors, endOfIteration_stderr.
  cbn [tx withTx logged countProcessed totalErrors stderr].
  split; [reflexivity|]. split.
  - apply rowsAt_upsert_other. exact Hne.
  - split.
    + destruct Hwf as (Hp & _).
      destruct (rowsAt_upsert_same (newRecord now "corrupted" result) (tx st) Hp)
        as (r & Hr & _ & Hd & Hs & Hm & Hh & _ & Hst).
      exists r. cbn [newRecord FileRecord.Path FileRecord.Disk FileRecord.Size
                       FileRecord.Mtime FileRecord.SHA256 FileRecord.Status] in *.
      repeat split; assumption.
    + split; [intros p Hp; now apply rowsAt_upsert_other|]. auto.
Qed.

Lemma move_with_other_digest_is_corrupted_witness :
  FindMoveCandidates (filepath.Base fixtures.newPath) 12 20 fixtures.dbA
  = [fixtures.rowA] /\
  FileRecord.SHA256 fixtures.rowA <> Result.SHA256 fixtures.resultBchanged /\
  exists st',
    processResult fixtures.worldMoved (Some (LoadQuickLookupMap fixtures.dbA)) 50
                  fixtures.resultBchanged (start fixtures.dbA) = Some st' /\
    rowsAt fixtures.oldPath (tx st') = [fixtures.rowA] /\
    stderr st' = [ WarnMoveCorruption fixtures.oldPath fixtures.newPath 12
                                      "a948904f2f0f" "e3b0c44298fc" ].
Proof.
  assert (LoadQuickLookupMap fixtures.dbA !! fixtures.newPath = None) as Hnew
      by (vm_compute; reflexivity).
  assert (FindMoveCandidates (filepath.Base fixtures.newPath) 12 20 fixtures.dbA
          = [] ++ fixtures.rowA :: []) as Hcands by (vm_compute; reflexivity).
  assert (FileRecord.Path fixtures.rowA <> Result.Path fixtures.resultBchanged) as Hne
      by (vm_compute; discriminate).
  assert (FileRecord.SHA256 fixtures.rowA <> Result.SHA256 fixtures.resultBchanged)
    as Hsha by (vm_compute; discriminate).
  assert (12 <= String.length (FileRecord.SHA256 fixtures.rowA))%nat as Hl1
      by (vm_compute; lia).
  assert (12 <= String.length (Result.SHA256 fixtures.resultBchanged))%nat as Hl2
      by (vm_compute; lia).
  assert (wf (tx (start fixtures.dbA))) as Hwf by concrete_wf.
  destruct (move_with_other_digest_is_corrupted
              fixtures.worldMoved (LoadQuickLookupMap fixtures.dbA)
              50 fixtures.resultBchanged (start fixtures.dbA) [] [] fixtures.rowA
              eq_refl Hnew Hcands (List.Forall_nil _) Hne eq_refl Hsha Hl1 Hl2 Hwf)
    as (_ & st' & Hrun & _ & Hold & _ & _ & Herr & _).
  split; [exact Hcands|]. split; [exact Hsha|].
  exists st'. split; [exact Hrun|]. split; [exact Hold|exact Herr].
Defined.

End MainFacts.

(** ** The verifier *)

Section VerifierFacts.
Import verifier.
Import hasher.
Import db.

Lemma feeder_acc (v : Verifier) (w : os.World) (files : list FileRecord.t) (acc : Feed) :
  let fed := fold_left (feedOne v w) files acc in
  input fed = input acc ++ map toInput (List.filter (isToHash v w) files) /\
  missingPaths fed
  = missingPaths acc ++ map FileRecord.Path (List.filter (isMissing v w) files) /\
  skippedCount fed
  = skippedCount acc + Z.of_nat (length (List.filter (isQuickSkipped v w) files)).
Proof.
  revert acc. induction files as [|f files IH]; intros acc; cbn [fold_left].
  - cbn. rewrite !app_nil_r. repeat split; lia.
  - specialize (IH (feedOne v w acc f)). cbv zeta in IH.
    destruct IH as (Hi & Hm & Hs). rewrite Hi, Hm, Hs. clear Hi Hm Hs.
    unfold feedOne, isToHash, isMissing, isQuickSkipped, fateOf.
    cbn [List.filter].
    destruct (os.Stat w (FileRecord.Path f)) as [size mtime| |].
    + destruct (quick v && (mtime =? FileRecord.Mtime f) && (size =? FileRecord.Size f));
        cbn [input missingPaths skippedCount map length].
      * repeat split; try reflexivity. lia.
      * rewrite <- app_assoc. repeat split; reflexivity.
    + cbn [input missingPaths skippedCount map length].
      rewrite <- app_assoc. repeat split; reflexivity.
    + repeat split; reflexivity.
Qed.

(** The feeder in closed form. *)
Lemma feeder_spec (v : Verifier) (w : os.World) (files : list FileRecord.t) :
  input (feeder v w files) = map toInput (List.filter (isToHash v w) files) /\
  missingPaths (feeder v w files)
  = map FileRecord.Path (List.filter (isMissing v w) files) /\
  skippedCount (feeder v w files)
  = Z.of_nat (length (List.filter (isQuickSkipped v w) files)).
Proof.
  unfold feeder.
  destruct (feeder_acc v w files {| input := []; missingPaths := []; skippedCount := 0 |})
    as (Hi & Hm & Hs).
  cbn in Hi, Hm, Hs. auto.
Qed.

Lemma storedMap_notin (files : list FileRecord.t) (m : gmap string FileRecord.t)
      (p : string) :
  ~ In p (map FileRecord.Path files) ->
  fold_left (fun m f => <[FileRecord.Path f := f]> m) files m !! p = m !! p.
Proof.
  revert m. induction files as [|a l IH]; intros m Hout; cbn [fold_left]; [reflexivity|].
  rewrite IH.
  - apply lookup_insert_ne. intros E. apply Hout. left. exact E.
  - intros Hin. apply Hout. now right.
Qed.

Lemma storedMap_acc (files : list FileRecord.t) (m : gmap string FileRecord.t)
      (f : FileRecord.t) :
  List.NoDup (map FileRecord.Path files) -> In f files ->
  fold_left (fun m f => <[FileRecord.Path f := f]> m) files m !! FileRecord.Path f
  = Some f.
Proof.
  revert m. induction files as [|a l IH]; intros m Hnd Hin; [destruct Hin|].
  inversion Hnd as [|? ? Hnotin Hnd']; subst. cbn [fold_left].
  destruct Hin as [->|Hin].
  - rewrite storedMap_notin by exact Hnotin. apply lookup_insert_eq.
  - now apply IH.
Qed.

Lemma storedMap_lookup (files : list FileRecord.t) (f : FileRecord.t) :
  List.NoDup (map FileRecord.Path files) -> In f files ->
  buildStoredMap files !! FileRecord.Path f = Some f.
Proof. apply storedMap_acc. Qed.

Lemma collectOne_calls (clock : Z -> Z) (sm : gmap string FileRecord.t) (cb : bool)
      (st : Run) (result : Result.t) :
  calls (collectOne clock sm cb st result) = calls st ++ callsFor sm cb result.
Proof.
  unfold collectOne, callsFor, call, classify.
  destruct (sm !! Result.Path result) as [stored|]; cbn [calls];
    [|now rewrite app_nil_r].
  destruct (Result.Err result); [|destruct (String.eqb _ _)]; cbn [calls];
    destruct cb; now rewrite ?app_nil_r.
Qed.

Lemma collectOne_total (clock : Z -> Z) (sm : gmap string FileRecord.t) (cb : bool)
      (st : Run) (result : Result.t) :
  Summary.TotalChecked (summary (collectOne clock sm cb st result))
  = Summary.TotalChecked (summary st) + 1.
Proof.
  unfold collectOne.
  destruct (sm !! Result.Path result) as [stored|]; cbn; [|lia].
  destruct (Result.Err result); [|destruct (String.eqb _ _)]; cbn; lia.
Qed.

Lemma collectOne_rows (clock : Z -> Z) (sm : gmap string FileRecord.t) (cb : bool)
      (st : Run) (result : Result.t) (p : string) :
  p <> Result.Path result ->
  rowsAt p (tx (collectOne clock sm cb st result)) = rowsAt p (tx st).
Proof.
  intros Hne. unfold collectOne.
  destruct (sm !! Result.Path result) as [stored|]; cbn [tx]; [|reflexivity].
  destruct (Result.Err result); [|destruct (String.eqb _ _)]; cbn [tx];
    now apply rowsAt_status_other.
Qed.

Lemma collect_spec (clock : Z -> Z) (sm : gmap string FileRecord.t) (cb : bool)
      (output : list Result.t) (st : Run) :
  let st' := fold_left (collectOne clock sm cb) output st in
  calls st' = calls st ++ flat_map (callsFor sm cb) output /\
  Summary.TotalChecked (summary st')
  = Summary.TotalChecked (summary st) + Z.of_nat (length output) /\
  (forall p, ~ In p (map Result.Path output) -> rowsAt p (tx st') = rowsAt p (tx st)).
Proof.
  revert st. induction output as [|r output IH]; intros st; cbn [fold_left].
  - cbn [flat_map length map]. rewrite app_nil_r.
    split; [reflexivity|]. split; [cbn; lia|]. intros; reflexivity.
  - specialize (IH (collectOne clock sm cb st r)). cbv zeta in IH.
    destruct IH as (Hc & Ht & Hr). cbv zeta.
    rewrite Hc, Ht, collectOne_calls, collectOne_total.
    cbn [flat_map length map]. rewrite <- app_assoc.
    split; [reflexivity|]. split; [lia|].
    intros p Hp. rewrite Hr by (intros H; apply Hp; now right).
    apply collectOne_rows. intros E. apply Hp. left. now symmetry.
Qed.

Lemma missing_spec (clock : Z -> Z) (sm : gmap string FileRecord.t)
      (paths : list string) (st : Run) :
  let st' := fold_left (missingOne clock sm true) paths st in
  calls st' = calls st ++ map (missingResult sm) paths /\
  Summary.TotalChecked (summary st')
  = Summary.TotalChecked (summary st) + Z.of_nat (length paths) /\
  (forall p, ~ In p paths -> rowsAt p (tx st') = rowsAt p (tx st)).
Proof.
  revert st. induction paths as [|q paths IH]; intros st; cbn [fold_left].
  - cbn [length map]. rewrite app_nil_r.
    split; [reflexivity|]. split; [cbn; lia|]. intros; reflexivity.
  - specialize (IH (missingOne clock sm true st q)). cbv zeta in IH.
    destruct IH as (Hc & Ht & Hr). cbv zeta.
    rewrite Hc, Ht. cbn [missingOne calls call summary bump Summary.TotalChecked
                         map length].
    rewrite <- app_assoc. split; [reflexivity|]. split; [lia|].
    intros p Hp. rewrite Hr by (intros H; apply Hp; now right).
    cbn [missingOne tx]. apply rowsAt_status_other. intros E. apply Hp. now left.
Qed.

Lemma Permutation_filter_bool {A : Type} (P : A -> bool) (l l' : list A) :
  Permutation l l' -> Permutation (List.filter P l) (List.filter P l').
Proof.
  induction 1 as [|a l l' Hp IH|a b l|l1 l2 l3 H1 IH1 H2 IH2]; cbn [List.filter].
  - constructor.
  - destruct (P a); [now constructor|exact IH].
  - destruct (P a), (P b); try apply Permutation_refl. apply perm_swap.
  - eapply Permutation_trans; eassumption.
Qed.

Lemma filter_comm {A : Type} (P Q : A -> bool) (l : list A) :
  List.filter P (List.filter Q l) = List.filter Q (List.filter P l).
Proof.
  induction l as [|a l IH]; [reflexivity|]. cbn [List.filter].
  destruct (P a) eqn:EP, (Q a) eqn:EQ; cbn [List.filter]; rewrite ?EP, ?EQ, IH;
    reflexivity.
Qed.

Lemma filter_rows_unique (Q : FileRecord.t -> bool) (files : list FileRecord.t)
      (f : FileRecord.t) :
  List.NoDup (map FileRecord.Path files) -> In f files ->
  List.filter (hasPath (FileRecord.Path f)) (List.filter Q files)
  = if Q f then [f] else [].
Proof.
  intros Hnd Hin. rewrite filter_comm.
  pose proof (rowsAt_unique {| files := files; seq := 0 |} f Hnd Hin) as H.
  unfold rowsAt in H. cbn [db.files] in H. rewrite H. cbn [List.filter].
  now destruct (Q f).
Qed.

Lemma classify_Path (stored : FileRecord.t) (result : Result.t) :
  VerifyResult.Path (classify stored result) = Result.Path result.
Proof. unfold classify. now destruct (Result.Err result). Qed.

(** The results reported for the hashed files, in feeder order. *)
Lemma calls_of_hashed (w : os.World) (sm : gmap string FileRecord.t)
      (l : list FileRecord.t) :
  (forall x, In x l -> sm !! FileRecord.Path x = Some x) ->
  flat_map (callsFor sm true) (map (hashOne w) (map toInput l))
  = map (fun x => classify x (hashOne w (toInput x))) l.
Proof.
  induction l as [|a l IH]; intros H; [reflexivity|].
  cbn [map flat_map]. rewrite IH by (intros x Hx; apply H; now right).
  unfold callsFor at 1. rewrite hashOne_Path. cbn [toInput FileInfo.Path].
  now rewrite (H a (or_introl eq_refl)).
Qed.

Lemma filter_atPath_map (p : string) (g : FileRecord.t -> VerifyResult.t)
      (l : list FileRecord.t) :
  (forall x, VerifyResult.Path (g x) = FileRecord.Path x) ->
  List.filter (atPath p) (map g l) = map g (List.filter (hasPath p) l).
Proof.
  intros Hg. induction l as [|a l IH]; [reflexivity|].
  cbn [map List.filter].
  assert (atPath p (g a) = hasPath p a) as ->
      by (unfold atPath, hasPath; now rewrite Hg).
  destruct (hasPath p a); cbn [map]; now rewrite IH.
Qed.

Lemma In_filter_sub {A : Type} (P : A -> bool) (l : list A) (a : A) :
  In a (List.filter P l) -> In a l.
Proof. intros H. now apply List.filter_In in H. Qed.

(** The results handed to [resultCb] for the path of a catalogued file,
    whatever the order in which the pool delivers its results. *)
Lemma calls_at_path (v : Verifier) (w : os.World) (clock : Z -> Z)
      (files : list FileRecord.t) (output : list Result.t) (d : DB)
      (f : FileRecord.t) :
  List.NoDup (map FileRecord.Path files) -> In f files ->
  Permutation output
              (HashFiles (hasher.New (verifier.workers v)) w (input (feeder v w files))) ->
  List.filter (atPath (FileRecord.Path f))
              (calls (verifyFilesFrom v w clock true files output d))
  = match fateOf v w f with
    | Missing => [missingResult (buildStoredMap files) (FileRecord.Path f)]
    | ToHash => [classify f (hashOne w (toInput f))]
    | _ => []
    end.
Proof.
  intros Hnd Hin Hperm. unfold verifyFilesFrom. cbn [calls].
  destruct (feeder_spec v w files) as (Hi & Hm & _).
  set (sm := buildStoredMap files).
  destruct (missing_spec clock sm (missingPaths (feeder v w files))
              (fold_left (collectOne clock sm true) output
                         {| summary := emptySummary; tx := d; calls := [] |}))
    as (Hc2 & _ & _).
  cbv zeta in Hc2. rewrite Hc2. clear Hc2.
  destruct (collect_spec clock sm true output
              {| summary := emptySummary; tx := d; calls := [] |}) as (Hc1 & _ & _).
  cbv zeta in Hc1. rewrite Hc1. clear Hc1. cbn [calls app].
  rewrite List.filter_app.
  (* the missing part *)
  assert (List.filter (atPath (FileRecord.Path f))
                      (map (missingResult sm) (missingPaths (feeder v w files)))
          = if isMissing v w f then [missingResult sm (FileRecord.Path f)] else [])
    as Hmiss.
  { rewrite Hm, List.map_map.
    rewrite (filter_atPath_map _ (fun x => missingResult sm (FileRecord.Path x)))
      by reflexivity.
    rewrite (filter_rows_unique _ _ _ Hnd Hin).
    now destruct (isMissing v w f). }
  (* the hashed part, up to the order of arrival *)
  assert (Permutation
            (List.filter (atPath (FileRecord.Path f)) (flat_map (callsFor sm true) output))
            (if isToHash v w f then [classify f (hashOne w (toInput f))] else []))
    as Hhash.
  { eapply Permutation_trans.
    - apply Permutation_filter_bool. apply Permutation_flat_map. exact Hperm.
    - rewrite HashFiles_New, Hi, calls_of_hashed.
      + rewrite (filter_atPath_map _ (fun x => classify x (hashOne w (toInput x)))).
        * rewrite (filter_rows_unique _ _ _ Hnd Hin).
          destruct (isToHash v w f); apply Permutation_refl.
        * intros x. now rewrite classify_Path, hashOne_Path.
      + intros x Hx. apply storedMap_lookup; [exact Hnd|].
        eapply In_filter_sub. exact Hx. }
  rewrite Hmiss. unfold isMissing, isToHash in *.
  destruct (fateOf v w f).
  - apply Permutation_sym, Permutation_nil in Hhash. now rewrite Hhash.
  - apply Permutation_sym, Permutation_nil in Hhash. now rewrite Hhash.
  - apply Permutation_sym, Permutation_nil in Hhash. now rewrite Hhash.
  - apply Permutation_sym, Permutation_length_1_inv in Hhash. now rewrite Hhash.
Qed.

Lemma hashed_paths (v : Verifier) (w : os.World) (files : list FileRecord.t) :
  map Result.Path (HashFiles (hasher.New (verifier.workers v)) w
                             (input (feeder v w files)))
  = map FileRecord.Path (List.filter (isToHash v w) files).
Proof.
  destruct (feeder_spec v w files) as (Hi & _ & _).
  rewrite HashFiles_New, Hi, !List.map_map. apply map_ext.
  intros x. now rewrite hashOne_Path.
Qed.

Lemma input_paths (v : Verifier) (w : os.World) (files : list FileRecord.t) :
  map FileInfo.Path (input (feeder v w files))
  = map FileRecord.Path (List.filter (isToHash v w) files).
Proof.
  destruct (feeder_spec v w files) as (Hi & _ & _).
  rewrite Hi, List.map_map. reflexivity.
Qed.

Lemma path_in_filter (Q : FileRecord.t -> bool) (files : list FileRecord.t)
      (f : FileRecord.t) :
  List.NoDup (map FileRecord.Path files) -> In f files ->
  In (FileRecord.Path f) (map FileRecord.Path (List.filter Q files)) <-> Q f = true.
Proof.
  intros Hnd Hin. split.
  - intros H. apply List.in_map_iff in H as (x & Hp & Hx).
    apply List.filter_In in Hx as [Hx HQ].
    assert (x = f) as <- by (eapply (NoDup_map_inj FileRecord.Path); eauto).
    exact HQ.
  - intros HQ. apply List.in_map. apply List.filter_In. auto.
Qed.

Lemma verify_totals (v : Verifier) (w : os.World) (clock : Z -> Z)
      (files : list FileRecord.t) (output : list Result.t) (d : DB) :
  List.NoDup (map FileRecord.Path files) ->
  Permutation output
              (HashFiles (hasher.New (verifier.workers v)) w (input (feeder v w files))) ->
  let run := verifyFilesFrom v w clock true files output d in
  Summary.TotalChecked (summary run)
  = Z.of_nat (length (List.filter (isToHash v w) files))
    + Z.of_nat (length (List.filter (isMissing v w) files)) /\
  Summary.Skipped (summary run)
  = Z.of_nat (length (List.filter (isQuickSkipped v w) files)) /\
  Z.of_nat (length (calls run)) = Summary.TotalChecked (summary run).
Proof.
  intros Hnd Hperm. cbv zeta. unfold verifyFilesFrom.
  cbn [summary calls setSkipped Summary.TotalChecked Summary.Skipped].
  destruct (feeder_spec v w files) as (Hi & Hm & Hs).
  set (sm := buildStoredMap files).
  set (st0 := {| summary := emptySummary; tx := d; calls := [] |}).
  destruct (missing_spec clock sm (missingPaths (feeder v w files))
              (fold_left (collectOne clock sm true) output st0)) as (Hc2 & Ht2 & _).
  destruct (collect_spec clock sm true output st0) as (Hc1 & Ht1 & _).
  cbv zeta in Hc1, Hc2, Ht1, Ht2. rewrite Hc2, Hc1, Ht2, Ht1.
  assert (length output = length (List.filter (isToHash v w) files)) as Hlen.
  { rewrite (Permutation_length Hperm), HashFiles_New, Hi. now rewrite !length_map. }
  assert (length (flat_map (callsFor sm true) output)
          = length (List.filter (isToHash v w) files)) as Hlen2.
  { rewrite (Permutation_length (Permutation_flat_map (callsFor sm true) Hperm)).
    rewrite HashFiles_New, Hi, calls_of_hashed; [now rewrite length_map|].
    intros x Hx. apply storedMap_lookup; [exact Hnd|]. eapply In_filter_sub; exact Hx. }
  rewrite Hm, Hs. cbn [st0 calls summary emptySummary Summary.TotalChecked app].
  rewrite length_app, !length_map, Hlen, Hlen2. repeat split; lia.
Qed.

Lemma verify_rows_untouched (v : Verifier) (w : os.World) (clock : Z -> Z)
      (files : list FileRecord.t) (output : list Result.t) (d : DB)
      (f : FileRecord.t) :
  List.NoDup (map FileRecord.Path files) -> In f files ->
  Permutation output
              (HashFiles (hasher.New (verifier.workers v)) w (input (feeder v w files))) ->
  isToHash v w f = false -> isMissing v w f = false ->
  rowsAt (FileRecord.Path f) (tx (verifyFilesFrom v w clock true files output d))
  = rowsAt (FileRecord.Path f) d.
Proof.
  intros Hnd Hin Hperm Hh Hm. unfold verifyFilesFrom. cbn [tx].
  destruct (feeder_spec v w files) as (_ & Hmp & _).
  set (sm := buildStoredMap files).
  set (st0 := {| summary := emptySummary; tx := d; calls := [] |}).
  destruct (missing_spec clock sm (missingPaths (feeder v w files))
              (fold_left (collectOne clock sm true) output st0)) as (_ & _ & Hr2).
  destruct (collect_spec clock sm true output st0) as (_ & _ & Hr1).
  cbv zeta in Hr1, Hr2. rewrite Hr2, Hr1; [reflexivity| |].
  - intros H.
    apply (Permutation_in _ (Permutation_map Result.Path Hperm)) in H.
    rewrite hashed_paths in H. apply (path_in_filter _ _ _ Hnd Hin) in H. congruence.
  - rewrite Hmp. intros H. apply (path_in_filter _ _ _ Hnd Hin) in H. congruence.
Qed.


(** C5.  In quick mode a catalogued file whose live size and modification
    time equal the stored ones is skipped: it is not handed to the hashing
    pool, no result is reported for it, its row in the catalog is left as it
    was, the skipped count is the number of such files (it is one of them)
    and the total-checked count counts only the files hashed or missing. *)
Theorem quick_mode_skips_unchanged_file
        (v : Verifier) (w : os.World) (clock : Z -> Z)
        (files : list FileRecord.t) (output : list Result.t) (d : DB)
        (f : FileRecord.t)
        (Hnd : List.NoDup (map FileRecord.Path files))
        (Hin : In f files)
        (Hperm : Permutation output
                   (HashFiles (hasher.New (verifier.workers v)) w
                              (input (feeder v w files))))
        (Hquick : quick v = true)
        (Hstat : os.Stat w (FileRecord.Path f)
                 = os.StatOK (FileRecord.Size f) (FileRecord.Mtime f)) :
  let run := verifyFilesFrom v w clock true files output d in
  fateOf v w f = QuickSkipped /\
  ~ In (FileRecord.Path f) (map FileInfo.Path (input (feeder v w files))) /\
  ~ In (FileRecord.Path f) (map Result.Path output) /\
  List.filter (atPath (FileRecord.Path f)) (calls run) = [] /\
  rowsAt (FileRecord.Path f) (tx run) = rowsAt (FileRecord.Path f) d /\
  Summary.Skipped (summary run)
  = Z.of_nat (length (List.filter (isQuickSkipped v w) files)) /\
  In f (List.filter (isQuickSkipped v w) files) /\
  ~ In f (List.filter (isToHash v w) files) /\
  ~ In f (List.filter (isMissing v w) files) /\
  Summary.TotalChecked (summary run)
  = Z.of_nat (length (List.filter (isToHash v w) files))
    + Z.of_nat (length (List.filter (isMissing v w) files)).
Proof.
  cbv zeta.
  assert (fateOf v w f = QuickSkipped) as Hfate.
  { unfold fateOf. now rewrite Hstat, Hquick, !Z.eqb_refl. }
  assert (isToHash v w f = false) as Hh by (unfold isToHash; now rewrite Hfate).
  assert (isMissing v w f = false) as Hm by (unfold isMissing; now rewrite Hfate).
  destruct (verify_totals v w clock files output d Hnd Hperm) as (Ht & Hs & _).
  split; [exact Hfate|]. split; [|split; [|split; [|split; [|split; [exact Hs|]]]]].
  - rewrite input_paths, (path_in_filter _ _ _ Hnd Hin). congruence.
  - intros H. apply (Permutation_in _ (Permutation_map Result.Path Hperm)) in H.
    rewrite hashed_paths in H. apply (path_in_filter _ _ _ Hnd Hin) in H. congruence.
  - now rewrite (calls_at_path v w clock files output d f Hnd Hin Hperm), Hfate.
  - now apply verify_rows_untouched.
  - split; [|split; [|split; [|exact Ht]]].
    + apply List.filter_In. split; [exact Hin|]. unfold isQuickSkipped. now rewrite Hfate.
    + intros H. apply List.filter_In in H as [_ H]. congruence.
    + intros H. apply List.filter_In in H as [_ H]. congruence.
Qed.

End VerifierFacts.


Lemma quick_mode_skips_unchanged_file_witness :
  verifier.quick (verifier.New 1 true) = true /\
  os.Stat fixtures.worldStill (db.FileRecord.Path fixtures.rowA)
  = os.StatOK (db.FileRecord.Size fixtures.rowA) (db.FileRecord.Mtime fixtures.rowA) /\
  let run := verifier.verifyFiles (verifier.New 1 true) fixtures.worldStill
                                  (fun _ => 60) true [fixtures.rowA] fixtures.dbA in
  verifier.calls run = [] /\
  db.rowsAt fixtures.oldPath (verifier.tx run) = [fixtures.rowA] /\
  verifier.Summary.Skipped (verifier.summary run) = 1 /\
  verifier.Summary.TotalChecked (verifier.summary run) = 0.
Proof.
  assert (List.NoDup (map db.FileRecord.Path [fixtures.rowA])) as Hnd
      by (repeat constructor; simpl; tauto).
  assert (In fixtures.rowA [fixtures.rowA]) as Hin by (left; reflexivity).
  pose proof (quick_mode_skips_unchanged_file
                (verifier.New 1 true) fixtures.worldStill (fun _ => 60)
                [fixtures.rowA] _ fixtures.dbA fixtures.rowA Hnd Hin
                (Permutation_refl _) eq_refl eq_refl) as H.
  cbv zeta in H. destruct H as (_ & _ & _ & _ & Hrows & Hskip & _ & _ & _ & Htot).
  split; [reflexivity|]. split; [reflexivity|]. cbv zeta.
  unfold verifier.verifyFiles.
  split; [vm_compute; reflexivity|]. split; [exact Hrows|].
  split; [rewrite Hskip; vm_compute; reflexivity|].
  rewrite Htot. vm_compute. reflexivity.
Defined.

(** ** Failures of the hasher *)

(** C4 (as amended).  A result of the hashing pool that carries an error
    never stops a run.  In a scan it is counted as an error and logged,
    nothing is written, the committed catalog, the open transaction and the
    batch counter stay as they were, and the loop goes on with the next
    result.  In a verify run it is counted as an error and the loop goes on,
    no digest is written, but the file is reported as corrupted and the
    status of its row is set to corrupted (its last-verified time is
    refreshed); the other columns of the row and all other rows stay as they
    were. *)
Theorem hash_failure_is_counted_and_run_goes_on
        (w : os.World) (lookupMap : option (gmap string db.QuickLookup.t))
        (clock : Z -> Z) (result : hasher.Result.t) (e : hasher.error)
        (rest : list hasher.Result.t) (st : main.ScanState)
        (storedMap : gmap string db.FileRecord.t) (resultCb : bool)
        (stored : db.FileRecord.t) (vst : verifier.Run)
        (Herr : hasher.Result.Err result = Some e)
        (Hstored : storedMap !! hasher.Result.Path result = Some stored) :
  (exists st',
      main.processResult w lookupMap (clock (main.totalProcessed st)) result st
      = Some st' /\
      main.committed st' = main.committed st /\
      main.tx st' = main.tx st /\
      main.batchCount st' = main.batchCount st /\
      main.totalErrors st' = main.totalErrors st + 1 /\
      main.totalProcessed st' = main.totalProcessed st + 1 /\
      main.stderr st'
      = main.stderr st ++ [main.ErrorHashing (hasher.Result.Path result) e] /\
      main.processResults w lookupMap clock (result :: rest) st
      = main.processResults w lookupMap clock rest st') /\
  (let now := clock (verifier.Summary.TotalChecked (verifier.summary vst)) in
   let vst' := verifier.collectOne clock storedMap resultCb vst result in
   verifier.Summary.Errors (verifier.summary vst')
   = verifier.Summary.Errors (verifier.summary vst) + 1 /\
   verifier.Summary.Corrupted (verifier.summary vst')
   = verifier.Summary.Corrupted (verifier.summary vst) + 1 /\
   verifier.Summary.TotalChecked (verifier.summary vst')
   = verifier.Summary.TotalChecked (verifier.summary vst) + 1 /\
   verifier.calls vst'
   = verifier.call resultCb
       {| verifier.VerifyResult.Path := hasher.Result.Path result;
          verifier.VerifyResult.Status := "corrupted";
          verifier.VerifyResult.OldHash := db.FileRecord.SHA256 stored;
          verifier.VerifyResult.NewHash := "";
          verifier.VerifyResult.Err := Some e |}
       (verifier.calls vst) /\
   db.rowsAt (hasher.Result.Path result) (verifier.tx vst')
   = map (db.setStatus now "corrupted")
         (db.rowsAt (hasher.Result.Path result) (verifier.tx vst)) /\
   (forall p, p <> hasher.Result.Path result ->
              db.rowsAt p (verifier.tx vst') = db.rowsAt p (verifier.tx vst)) /\
   fold_left (verifier.collectOne clock storedMap resultCb) (result :: rest) vst
   = fold_left (verifier.collectOne clock storedMap resultCb) rest vst').
Proof.
  split.
  - eexists. split.
    + unfold main.processResult. rewrite Herr. reflexivity.
    + cbn [main.committed main.tx main.batchCount main.totalErrors
             main.totalProcessed main.stderr main.logged main.countError
             main.countProcessed main.processResults].
      unfold main.processResult. rewrite Herr.
      repeat split; reflexivity.
  - cbv zeta. unfold verifier.collectOne, verifier.classify.
    rewrite Hstored, Herr.
    cbn [verifier.summary verifier.tx verifier.calls verifier.bump
           verifier.Summary.Errors verifier.Summary.Corrupted
           verifier.Summary.TotalChecked fold_left].
    unfold verifier.collectOne, verifier.classify. rewrite Hstored, Herr.
    split; [lia|]. split; [lia|]. split; [lia|]. split; [reflexivity|].
    split; [apply rowsAt_status_same|].
    split; [intros p Hp; now apply rowsAt_status_other|reflexivity].
Qed.

Lemma hash_failure_is_counted_and_run_goes_on_witness :
  hasher.Result.Err fixtures.resultFailed = Some (hasher.ErrOpen fixtures.oldPath) /\
  verifier.buildStoredMap [fixtures.rowA] !! fixtures.oldPath = Some fixtures.rowA /\
  (exists st',
      main.processResult fixtures.worldUnreadable None 70 fixtures.resultFailed
                         (main.start fixtures.dbA) = Some st' /\
      main.tx st' = fixtures.dbA /\ main.totalErrors st' = 1) /\
  db.rowsAt fixtures.oldPath
    (verifier.tx (verifier.collectOne (fun _ => 70)
                    (verifier.buildStoredMap [fixtures.rowA]) true
                    {| verifier.summary := verifier.emptySummary;
                       verifier.tx := fixtures.dbA; verifier.calls := [] |}
                    fixtures.resultFailed))
  = [ db.setStatus 70 "corrupted" fixtures.rowA ].
Proof.
  assert (verifier.buildStoredMap [fixtures.rowA] !! fixtures.oldPath
          = Some fixtures.rowA) as Hst by (vm_compute; reflexivity).
  destruct (hash_failure_is_counted_and_run_goes_on
              fixtures.worldUnreadable None (fun _ => 70) fixtures.resultFailed
              (hasher.ErrOpen fixtures.oldPath) [] (main.start fixtures.dbA)
              (verifier.buildStoredMap [fixtures.rowA]) true fixtures.rowA
              {| verifier.summary := verifier.emptySummary;
                 verifier.tx := fixtures.dbA; verifier.calls := [] |}
              eq_refl Hst) as (Hscan & Hver).
  split; [reflexivity|]. split; [exact Hst|]. split.
  - destruct Hscan as (st' & Hrun & _ & Htx & _ & Herrs & _).
    exists st'. split; [exact Hrun|]. split; [exact Htx|exact Herrs].
  - cbv zeta in Hver. destruct Hver as (_ & _ & _ & _ & Hrows & _).
    exact Hrows.
Defined.

(** C4 as stated does not hold for a verify run: the file is at its path
    but cannot be opened; the run counts the error and marks the record
    corrupted, so the prior record is not left unchanged. *)
Lemma verify_marks_unreadable_file_corrupted :
  hasher.Result.Err (hasher.hashOne fixtures.worldUnreadable
                                    (verifier.toInput fixtures.rowA))
  = Some (hasher.ErrOpen fixtures.oldPath) /\
  db.rowsAt fixtures.oldPath fixtures.dbA = [fixtures.rowA] /\
  db.FileRecord.Status fixtures.rowA = "ok" /\
  let run := verifier.VerifyAll (verifier.New 4 false) fixtures.worldUnreadable
                                (fun _ => 70) true fixtures.dbA in
  db.rowsAt fixtures.oldPath (verifier.tx run)
  = [ {| db.FileRecord.ID := 1; db.FileRecord.Path := fixtures.oldPath;
         db.FileRecord.Disk := "disk1"; db.FileRecord.Size := 12;
         db.FileRecord.Mtime := 100; db.FileRecord.SHA256 := fixtures.digestHello;
         db.FileRecord.FirstSeen := 10; db.FileRecord.LastVerified := 70;
         db.FileRecord.Status := "corrupted" |} ] /\
  db.rowsAt fixtures.oldPath (verifier.tx run) <> db.rowsAt fixtures.oldPath fixtures.dbA /\
  verifier.Summary.Errors (verifier.summary run) = 1 /\
  verifier.Summary.Corrupted (verifier.summary run) = 1.
Proof.
  split; [reflexivity|]. split; [reflexivity|]. split; [reflexivity|].
  cbv zeta. split; [vm_compute; reflexivity|].
  split; [vm_compute; discriminate|]. split; vm_compute; reflexivity.
Qed.

(** ** The incremental filter *)

Section IncrementalFacts.
Import main.
Import hasher.
Import db.

Lemma lookupMap_notin (rows : list FileRecord.t) (m : gmap string QuickLookup.t)
      (p : string) :
  ~ In p (map FileRecord.Path rows) ->
  fold_left (fun m r => <[FileRecord.Path r := quickOf r]> m) rows m !! p = m !! p.
Proof.
  revert m. induction rows as [|a l IH]; intros m Hout; cbn [fold_left]; [reflexivity|].
  rewrite IH.
  - apply lookup_insert_ne. intros E. apply Hout. left. exact E.
  - intros Hin. apply Hout. now right.
Qed.

Lemma lookupMap_acc (rows : list FileRecord.t) (m : gmap string QuickLookup.t)
      (r : FileRecord.t) :
  List.NoDup (map FileRecord.Path rows) -> In r rows ->
  fold_left (fun m r => <[FileRecord.Path r := quickOf r]> m) rows m
  !! FileRecord.Path r = Some (quickOf r).
Proof.
  revert m. induction rows as [|a l IH]; intros m Hnd Hin; [destruct Hin|].
  inversion Hnd as [|? ? Hnotin Hnd']; subst. cbn [fold_left].
  destruct Hin as [->|Hin].
  - rewrite lookupMap_notin by exact Hnotin. apply lookup_insert_eq.
  - now apply IH.
Qed.

(** The lookup map holds, for the path of every row, its size, time and
    digest, and nothing for a path without a row. *)
Lemma LoadQuickLookupMap_row (d : DB) (r : FileRecord.t) :
  List.NoDup (map FileRecord.Path (files d)) -> In r (files d) ->
  LoadQuickLookupMap d !! FileRecord.Path r = Some (quickOf r).
Proof. apply lookupMap_acc. Qed.

Lemma LoadQuickLookupMap_none (d : DB) (p : string) :
  ~ In p (map FileRecord.Path (files d)) -> LoadQuickLookupMap d !! p = None.
Proof.
  intros H. unfold LoadQuickLookupMap. rewrite lookupMap_notin by exact H.
  apply lookup_empty.
Qed.

Lemma incrementalFilter_spec (lookupMap : option (gmap string QuickLookup.t))
      (l : list FileInfo.t) :
  incrementalFilter lookupMap l
  = (List.filter (fun fi => negb (unchanged lookupMap fi)) l,
     Z.of_nat (length (List.filter (unchanged lookupMap) l))).
Proof.
  induction l as [|fi l IH]; [reflexivity|].
  cbn [incrementalFilter List.filter]. rewrite IH.
  destruct (unchanged lookupMap fi); cbn [negb length]; f_equal. lia.
Qed.

Lemma filter_all_false {A : Type} (P : A -> bool) (l : list A) :
  (forall a, In a l -> P a = true) ->
  List.filter (fun a => negb (P a)) l = [] /\ List.filter P l = l.
Proof.
  induction l as [|a l IH]; intros H; [split; reflexivity|].
  cbn [List.filter]. rewrite (H a (or_introl eq_refl)). cbn [negb].
  destruct IH as [IH1 IH2]; [intros b Hb; apply H; now right|].
  now rewrite IH1, IH2.
Qed.

Lemma recorded_unchanged (d : DB) (fi : FileInfo.t) :
  List.NoDup (map FileRecord.Path (files d)) -> recorded d fi ->
  unchanged (loadLookup false d) fi = true.
Proof.
  intros Hnd (r & Hin & Hp & Hs & Hm).
  unfold unchanged, loadLookup. rewrite <- Hp, (LoadQuickLookupMap_row d r Hnd Hin).
  cbn [quickOf QuickLookup.Size QuickLookup.Mtime]. now rewrite Hs, Hm, !Z.eqb_refl.
Qed.

Lemma filter_length_split {A : Type} (P : A -> bool) (l : list A) :
  Z.of_nat (length (List.filter (fun a => negb (P a)) l))
  + Z.of_nat (length (List.filter P l)) = Z.of_nat (length l).
Proof.
  induction l as [|a l IH]; [reflexivity|].
  cbn [List.filter]. destruct (P a); cbn [negb length]; lia.
Qed.

(** A disk all of whose files are unchanged sends nothing to its hasher. *)
Lemma diskInput_all_unchanged (sc : scanner.Scanner) (w : os.World)
      (lookupMap : option (gmap string QuickLookup.t)) (dk : scanner.DiskInfo) :
  (forall fi, In fi (scanner.Walk sc w (scanner.Path dk) (scanner.Name dk)) ->
              unchanged lookupMap fi = true) ->
  diskInput sc w lookupMap dk
  = ([], Z.of_nat (length (scanner.Walk sc w (scanner.Path dk) (scanner.Name dk)))).
Proof.
  intros H. unfold diskInput. rewrite incrementalFilter_spec.
  destruct (filter_all_false (unchanged lookupMap) _ H) as [E1 E2].
  now rewrite E1, E2.
Qed.

Lemma all_unchanged_totals (sc : scanner.Scanner) (w : os.World)
      (lookupMap : option (gmap string QuickLookup.t))
      (disks : list scanner.DiskInfo) :
  (forall fi, In fi (scanned sc w disks) -> unchanged lookupMap fi = true) ->
  hashed sc w lookupMap disks = [] /\
  skippedTotal sc w lookupMap disks = Z.of_nat (length (scanned sc w disks)).
Proof.
  unfold hashed, skippedTotal, scanned.
  induction disks as [|dk dks IH]; intros H; [split; reflexivity|].
  cbn [flat_map fold_right].
  assert (forall fi, In fi (scanner.Walk sc w (scanner.Path dk) (scanner.Name dk)) ->
                     unchanged lookupMap fi = true) as Hdk.
  { intros fi Hfi. apply H. cbn [flat_map]. apply in_app_iff. now left. }
  destruct IH as [IH1 IH2].
  { intros fi Hfi. apply H. cbn [flat_map]. apply in_app_iff. now right. }
  rewrite IH1, IH2. unfold diskOutput.
  rewrite (diskInput_all_unchanged sc w lookupMap dk Hdk). cbn [fst snd].
  rewrite HashFiles_New, length_app. split; [reflexivity|lia].
Qed.

(** C6.  In incremental mode the filter forwards to the hasher exactly the
    descriptors that are not unchanged, and counts the others as skipped; a
    descriptor whose path has a row with the same size and modification time
    is unchanged.  Consequently, when every descriptor the walkers emit has
    such a row (the tree is as the catalog recorded it), the scan hashes
    nothing, processes no result, counts no error, leaves the catalog as it
    was, and the skipped count is the number of files the walkers emitted. *)
Theorem incremental_scan_skips_unchanged
        (sc : scanner.Scanner) (w : os.World) (clock : Z -> Z)
        (disks : list scanner.DiskInfo) (d : DB)
        (Hnd : List.NoDup (map FileRecord.Path (files d)))
        (Hrec : forall fi, In fi (scanned sc w disks) -> recorded d fi) :
  (forall (m : gmap string QuickLookup.t) (l : list FileInfo.t),
      fst (incrementalFilter (Some m) l)
      = List.filter (fun fi => negb (unchanged (Some m) fi)) l /\
      snd (incrementalFilter (Some m) l)
      = Z.of_nat (length (List.filter (unchanged (Some m)) l)) /\
      (Z.of_nat (length (fst (incrementalFilter (Some m) l)))
       + snd (incrementalFilter (Some m) l) = Z.of_nat (length l))) /\
  (forall fi, In fi (scanned sc w disks) ->
              unchanged (loadLookup false d) fi = true /\
              ~ In fi (flat_map (fun dk => fst (diskInput sc w (loadLookup false d) dk))
                                disks)) /\
  hashed sc w (loadLookup false d) disks = [] /\
  exists report,
    scanCmd sc w clock false disks d = Some report /\
    committed (final report) = d /\
    tx (final report) = d /\
    filesProcessed report = 0 /\
    errors report = 0 /\
    filesSkipped report = Z.of_nat (length (scanned sc w disks)).
Proof.
  assert (forall fi, In fi (scanned sc w disks) ->
                     unchanged (loadLookup false d) fi = true) as Hunch
      by (intros fi Hfi; apply recorded_unchanged; auto).
  destruct (all_unchanged_totals sc w (loadLookup false d) disks Hunch)
    as [Hhashed Hskip].
  split; [|split; [|split; [exact Hhashed|]]].
  - intros m l. rewrite incrementalFilter_spec. cbn [fst snd].
    split; [reflexivity|]. split; [reflexivity|]. apply filter_length_split.
  - intros fi Hfi. split; [now apply Hunch|].
    intros H. apply in_flat_map in H as (dk & Hdk & H).
    rewrite diskInput_all_unchanged in H; [destruct H|].
    intros fi' Hfi'. apply Hunch. unfold scanned. apply in_flat_map. eauto.
  - unfold scanCmd, scanFrom. rewrite Hhashed. cbn [processResults].
    eexists. split; [reflexivity|].
    cbn [final filesProcessed errors filesSkipped finish start batchCount committed
           tx totalProcessed totalErrors Z.ltb Z.compare].
    split; [reflexivity|]. split; [reflexivity|]. split; [reflexivity|].
    split; [reflexivity|exact Hskip].
Qed.

End IncrementalFacts.

Example Walk_disk2 :
  scanner.Walk fixtures.noExcludes fixtures.worldMoved "/mnt/disk2" "disk2"
  = [ {| hasher.FileInfo.Path := "/mnt/disk2/new/a.txt"; hasher.FileInfo.Disk := "disk2";
         hasher.FileInfo.Size := 12; hasher.FileInfo.Mtime := 100 |};
      {| hasher.FileInfo.Path := "/mnt/disk2/tmp/scratch.bin";
         hasher.FileInfo.Disk := "disk2";
         hasher.FileInfo.Size := 3; hasher.FileInfo.Mtime := 100 |} ].
Proof. reflexivity. Qed.

Example Walk_disk2_excluding_tmp :
  scanner.Walk fixtures.excludeTmp fixtures.worldMoved "/mnt/disk2" "disk2"
  = [ {| hasher.FileInfo.Path := "/mnt/disk2/new/a.txt"; hasher.FileInfo.Disk := "disk2";
         hasher.FileInfo.Size := 12; hasher.FileInfo.Mtime := 100 |} ].
Proof. reflexivity. Qed.

Lemma incremental_scan_skips_unchanged_witness :
  List.NoDup (map db.FileRecord.Path (db.files fixtures.dbB)) /\
  main.scanned fixtures.excludeTmp fixtures.worldMoved [fixtures.disk2]
  = [ {| hasher.FileInfo.Path := fixtures.newPath; hasher.FileInfo.Disk := "disk2";
         hasher.FileInfo.Size := 12; hasher.FileInfo.Mtime := 100 |} ] /\
  exists report,
    main.scanCmd fixtures.excludeTmp fixtures.worldMoved (fun _ => 80) false
                 [fixtures.disk2] fixtures.dbB = Some report /\
    main.committed (main.final report) = fixtures.dbB /\
    main.filesProcessed report = 0 /\
    main.filesSkipped report = 1.
Proof.
  assert (List.NoDup (map db.FileRecord.Path (db.files fixtures.dbB))) as Hnd
      by (repeat constructor; simpl; tauto).
  assert (forall fi,
             In fi (main.scanned fixtures.excludeTmp fixtures.worldMoved [fixtures.disk2]) ->
             main.recorded fixtures.dbB fi) as Hrec.
  { intros fi Hfi. vm_compute in Hfi. destruct Hfi as [<-|[]].
    exists fixtures.rowB. repeat split. left. reflexivity. }
  destruct (incremental_scan_skips_unchanged
              fixtures.excludeTmp fixtures.worldMoved (fun _ => 80)
              [fixtures.disk2] fixtures.dbB Hnd Hrec)
    as (_ & _ & _ & report & Hrun & Hc & _ & Hp & _ & Hs).
  split; [exact Hnd|]. split; [reflexivity|].
  exists report. split; [exact Hrun|]. split; [exact Hc|]. split; [exact Hp|].
  rewrite Hs. reflexivity.
Defined.

(** C6 as stated does not hold for every unchanged tree: a file whose
    hashing fails is never recorded, so it is not skipped the next time.
    Here the tree holds two files, one of which cannot be opened; it is
    scanned twice in incremental mode without any change in between, and the
    second scan hashes the unreadable file again, counts the error again,
    and skips one file of the two. *)
Lemma rescan_hashes_failed_file_again :
  exists first second,
    main.scanCmd fixtures.noExcludes fixtures.worldMoved (fun _ => 50) false
                 [fixtures.disk2] samples.emptyDB = Some first /\
    main.scanCmd fixtures.noExcludes fixtures.worldMoved (fun _ => 80) false
                 [fixtures.disk2] (main.committed (main.final first)) = Some second /\
    Z.of_nat (length (main.scanned fixtures.noExcludes fixtures.worldMoved
                                   [fixtures.disk2])) = 2 /\
    main.filesProcessed first = 2 /\ main.errors first = 1 /\
    main.filesProcessed second = 1 /\ main.errors second = 1 /\
    main.filesSkipped second = 1.
Proof.
  eexists. eexists.
  split; [vm_compute; reflexivity|].
  split; [vm_compute; reflexivity|].
  repeat split; vm_compute; reflexivity.
Qed.

(** ** The walker *)

Section WalkFacts.
Import scanner.
Import hasher.

Fixpoint DirEntry_nested_ind (P : os.DirEntry -> Prop)
         (Hdir : forall name entries, Forall P entries -> P (os.Dir name entries))
         (Hnon : forall name regular info, P (os.NonDir name regular info))
         (d : os.DirEntry) {struct d} : P d :=
  match d with
  | os.Dir name entries =>
      Hdir name entries
           ((fix all (l : list os.DirEntry) : Forall P l :=
               match l with
               | [] => @List.Forall_nil _ P
               | e :: l' => @List.Forall_cons _ P e l' (DirEntry_nested_ind P Hdir Hnon e) (all l')
               end) entries)
  | os.NonDir name regular info => Hnon name regular info
  end.

Lemma walkDir_wanted (s : Scanner) (disk : string) (d : os.DirEntry) :
  forall (path : string) (fi : FileInfo.t),
    In fi (walkDir s disk path d) <-> wanted s disk path d fi.
Proof.
  induction d as [name entries IH|name regular info] using DirEntry_nested_ind;
    intros path fi.
  - cbn [walkDir]. rewrite List.Forall_forall in IH. split.
    + intros Hin. destruct (excluded s path) eqn:Ex; [destruct Hin|].
      apply in_flat_map in Hin as (d1 & Hd1 & Hin).
      apply (IH d1 Hd1) in Hin as (n & size & mtime & Hr & Hrest).
      exists n, size, mtime. split; [|exact Hrest].
      eapply reaches_below; eauto.
    + intros (n & size & mtime & Hr & Hrest).
      inversion Hr as [|? ? ? d1 ? ? Hex Hd1 Hr']; subst.
      rewrite Hex. apply in_flat_map. exists d1. split; [exact Hd1|].
      apply (IH d1 Hd1). exists n, size, mtime. auto.
  - cbn [walkDir]. split.
    + intros Hin. destruct regular; cbn [negb] in Hin; [|destruct Hin].
      destruct (excluded s path) eqn:Ex; [destruct Hin|].
      destruct info as [[size mtime]|]; [|destruct Hin].
      destruct (size =? 0) eqn:Ez; [destruct Hin|].
      destruct Hin as [<-|[]]. apply Z.eqb_neq in Ez.
      exists name, size, mtime. cbn [FileInfo.Path FileInfo.Disk FileInfo.Size
                                         FileInfo.Mtime].
      repeat split; try assumption. constructor.
    + intros (n & size & mtime & Hr & Hex & Hz & Hd & Hs & Hm).
      inversion Hr; subst. cbn [negb]. rewrite Hex.
      apply Z.eqb_neq in Hz. rewrite Hz. left. now destruct fi.
Qed.

Lemma Walk_nonzero (s : Scanner) (w : os.World) (root disk : string) (fi : FileInfo.t) :
  In fi (Walk s w root disk) ->
  FileInfo.Size fi <> 0 /\ FileInfo.Disk fi = disk /\
  excluded s (FileInfo.Path fi) = false.
Proof.
  intros Hin. unfold Walk in Hin.
  destruct (os.Lstat w root) as [d|]; [|destruct Hin].
  apply walkDir_wanted in Hin as (n & size & mtime & _ & Hex & Hz & Hd & Hs & _).
  rewrite Hs. auto.
Qed.

(** C7.  From a root, the Walker emits exactly the descriptors wanted: those
    of the regular files that are reached without going through a directory
    whose path matches an exclusion pattern, that do not match a pattern
    themselves, whose info is available and whose size is not zero.  A
    directory whose path matches is not descended into, so nothing below it
    is emitted; a file that matches, a non-regular entry and a zero-byte
    file emit nothing; no descriptor of size zero is emitted, so none reaches
    the hashing pool of a scan, with or without a lookup map. *)
Theorem Walk_emits_exactly_the_wanted
        (s : Scanner) (w : os.World) (root disk : string) :
  (forall fi, In fi (Walk s w root disk) <->
              exists d, os.Lstat w root = Some d /\ wanted s disk root d fi) /\
  (forall path name entries,
      excluded s path = true -> walkDir s disk path (os.Dir name entries) = []) /\
  (forall path name regular info,
      excluded s path = true -> walkDir s disk path (os.NonDir name regular info) = []) /\
  (forall path name info, walkDir s disk path (os.NonDir name false info) = []) /\
  (forall path name mtime,
      walkDir s disk path (os.NonDir name true (Some (0, mtime))) = []) /\
  (forall fi, In fi (Walk s w root disk) ->
              FileInfo.Size fi <> 0 /\ FileInfo.Disk fi = disk /\
              excluded s (FileInfo.Path fi) = false) /\
  (forall lookupMap dk fi,
      In fi (fst (main.diskInput s w lookupMap dk)) -> FileInfo.Size fi <> 0).
Proof.
  pose proof (Walk_nonzero s w) as Hnz.
  split; [|split; [|split; [|split; [|split; [|split]]]]].
  - intros fi. unfold Walk. destruct (os.Lstat w root) as [d|].
    + rewrite walkDir_wanted. split.
      * intros H. exists d. auto.
      * intros (d' & E & H). now inversion E; subst.
    + split; [intros []|]. intros (d' & E & _). discriminate.
  - intros path name entries Hex. cbn [walkDir]. now rewrite Hex.
  - intros path name regular info Hex. cbn [walkDir]. rewrite Hex.
    now destruct regular.
  - reflexivity.
  - intros path name mtime. cbn [walkDir negb]. now destruct (excluded s path).
  - apply Hnz.
  - intros lookupMap dk fi Hin. unfold main.diskInput in Hin.
    rewrite incrementalFilter_spec in Hin. cbn [fst] in Hin.
    apply List.filter_In in Hin as [Hin _]. now apply Hnz in Hin.
Qed.

End WalkFacts.

Lemma Walk_emits_exactly_the_wanted_witness :
  In {| hasher.FileInfo.Path := "/mnt/disk2/new/a.txt"; hasher.FileInfo.Disk := "disk2";
        hasher.FileInfo.Size := 12; hasher.FileInfo.Mtime := 100 |}
     (scanner.Walk fixtures.excludeTmp fixtures.worldMoved "/mnt/disk2" "disk2") /\
  scanner.wanted fixtures.excludeTmp "disk2" "/mnt/disk2" fixtures.disk2Tree
    {| hasher.FileInfo.Path := "/mnt/disk2/new/a.txt"; hasher.FileInfo.Disk := "disk2";
       hasher.FileInfo.Size := 12; hasher.FileInfo.Mtime := 100 |} /\
  ~ scanner.wanted fixtures.excludeTmp "disk2" "/mnt/disk2" fixtures.disk2Tree
    {| hasher.FileInfo.Path := "/mnt/disk2/tmp/scratch.bin";
       hasher.FileInfo.Disk := "disk2";
       hasher.FileInfo.Size := 3; hasher.FileInfo.Mtime := 100 |}.
Proof.
  destruct (Walk_emits_exactly_the_wanted fixtures.excludeTmp fixtures.worldMoved
                                          "/mnt/disk2" "disk2") as (Hiff & _).
  assert (In {| hasher.FileInfo.Path := "/mnt/disk2/new/a.txt";
                hasher.FileInfo.Disk := "disk2";
                hasher.FileInfo.Size := 12; hasher.FileInfo.Mtime := 100 |}
             (scanner.Walk fixtures.excludeTmp fixtures.worldMoved "/mnt/disk2" "disk2"))
    as Hin by (left; reflexivity).
  split; [exact Hin|]. split.
  - apply Hiff in Hin as (d & E & Hw). vm_compute in E. now inversion E; subst.
  - intros Hw.
    assert (In {| hasher.FileInfo.Path := "/mnt/disk2/tmp/scratch.bin";
                  hasher.FileInfo.Disk := "disk2";
                  hasher.FileInfo.Size := 3; hasher.FileInfo.Mtime := 100 |}
               (scanner.Walk fixtures.excludeTmp fixtures.worldMoved
                             "/mnt/disk2" "disk2")) as H.
    { apply Hiff. exists fixtures.disk2Tree. split; [reflexivity|exact Hw]. }
    vm_compute in H. destruct H as [H|[]]. discriminate H.
Defined.

(** ** Further concrete runs *)

Lemma digest_is_function_of_bytes_witness :
  hasher.holds fixtures.worldMoved fixtures.newPath hello_world /\
  hasher.holds fixtures.worldStill fixtures.oldPath hello_world /\
  hasher.Result.SHA256
    (hasher.hashOne fixtures.worldMoved
       {| hasher.FileInfo.Path := fixtures.newPath; hasher.FileInfo.Disk := "disk2";
          hasher.FileInfo.Size := 12; hasher.FileInfo.Mtime := 100 |})
  = hasher.Result.SHA256
      (hasher.hashOne fixtures.worldStill
         {| hasher.FileInfo.Path := fixtures.oldPath; hasher.FileInfo.Disk := "disk1";
            hasher.FileInfo.Size := 0; hasher.FileInfo.Mtime := 0 |}) /\
  hasher.Result.SHA256
    (hasher.hashOne fixtures.worldMoved
       {| hasher.FileInfo.Path := fixtures.newPath; hasher.FileInfo.Disk := "disk2";
          hasher.FileInfo.Size := 12; hasher.FileInfo.Mtime := 100 |})
  = fixtures.digestHello.
Proof.
  assert (hasher.holds fixtures.worldMoved fixtures.newPath hello_world) as H1.
  { exists fixtures.helloFile, {| os.IsDir := false; os.Size := 12; os.ModTime := 100 |}.
    repeat split; reflexivity. }
  assert (hasher.holds fixtures.worldStill fixtures.oldPath hello_world) as H2.
  { exists fixtures.helloWhole, {| os.IsDir := false; os.Size := 12; os.ModTime := 100 |}.
    repeat split; reflexivity. }
  destruct (digest_is_function_of_bytes
              fixtures.worldMoved fixtures.worldStill
              {| hasher.FileInfo.Path := fixtures.newPath; hasher.FileInfo.Disk := "disk2";
                 hasher.FileInfo.Size := 12; hasher.FileInfo.Mtime := 100 |}
              {| hasher.FileInfo.Path := fixtures.oldPath; hasher.FileInfo.Disk := "disk1";
                 hasher.FileInfo.Size := 0; hasher.FileInfo.Mtime := 0 |}
              hello_world H1 H2) as (_ & _ & Hsame & Hdig & _ & Hhello).
  split; [exact H1|]. split; [exact H2|]. split; [exact Hsame|].
  rewrite Hdig. exact Hhello.
Defined.

Lemma first_seen_immutable_witness :
  db.wf fixtures.dbA /\
  In fixtures.rowA (db.files fixtures.dbA) /\
  db.files (db.exec fixtures.dbA
              (50, db.MovePath fixtures.oldPath fixtures.newPath "disk2" 12 100))
  = [fixtures.rowB] /\
  (forall r', In r' (db.files (db.exec fixtures.dbA
                       (50, db.MovePath fixtures.oldPath fixtures.newPath "disk2" 12 100))) ->
              db.FileRecord.ID r' = 1 -> db.FileRecord.FirstSeen r' = 10) /\
  (forall r', In r' (db.files (db.exec fixtures.dbA
                       (90, db.Upsert (main.newRecord 90 "ok" fixtures.resultFailed)))) ->
              db.FileRecord.ID r' = 1 -> db.FileRecord.FirstSeen r' = 10).
Proof.
  assert (db.wf fixtures.dbA) as Hwf by concrete_wf.
  assert (In fixtures.rowA (db.files fixtures.dbA)) as Hin by (left; reflexivity).
  split; [exact Hwf|]. split; [exact Hin|]. split; [reflexivity|]. split.
  - destruct (first_seen_immutable fixtures.dbA
                (50, db.MovePath fixtures.oldPath fixtures.newPath "disk2" 12 100)
                fixtures.rowA Hwf Hin) as (_ & Hkeep & _).
    exact Hkeep.
  - destruct (first_seen_immutable fixtures.dbA
                (90, db.Upsert (main.newRecord 90 "ok" fixtures.resultFailed))
                fixtures.rowA Hwf Hin) as (_ & Hkeep & _).
    exact Hkeep.
Defined.

(** An upsert of an existing path keeps the first-seen time even though the
    record handed in carries the time of the scan. *)
Example upsert_keeps_first_seen :
  db.files (db.UpsertFileTx (main.newRecord 90 "ok" fixtures.resultB) fixtures.dbB)
  = [ {| db.FileRecord.ID := 1; db.FileRecord.Path := fixtures.newPath;
         db.FileRecord.Disk := "disk2"; db.FileRecord.Size := 12;
         db.FileRecord.Mtime := 100; db.FileRecord.SHA256 := fixtures.digestHello;
         db.FileRecord.FirstSeen := 10; db.FileRecord.LastVerified := 90;
         db.FileRecord.Status := "ok" |} ].
Proof. reflexivity. Qed.

(** The candidates are read from the state of the last commit.  When two
    results of one batch select the same vanished record, the first re-keys
    it and the second finds no row left at the old path in the transaction:
    its statement changes nothing and its path gets no record in this run. *)
Example candidate_already_rekeyed_in_batch :
  exists st',
    main.processResults fixtures.worldMoved
                        (Some (db.LoadQuickLookupMap fixtures.dbA)) (fun _ => 50)
                        [fixtures.resultB; fixtures.resultB3]
                        (main.start fixtures.dbA) = Some st' /\
    db.files (main.tx st') = [fixtures.rowB] /\
    db.rowsAt "/mnt/disk3/new/a.txt" (main.tx st') = [] /\
    main.totalErrors st' = 0.
Proof.
  eexists. split; [vm_compute; reflexivity|]. repeat split; reflexivity.
Qed.

(** ** A scan followed by an incremental scan of the same tree *)

Section RescanFacts.
Import main.
Import hasher.
Import db.

Lemma detectMove_all_passedOver (w : os.World) (result : Result.t)
      (cands : list FileRecord.t) :
  Forall (passedOver w result) cands -> detectMove w result cands = NoMove.
Proof.
  intros H. rewrite <- (app_nil_r cands).
  now rewrite (detectMove_passedOver w result cands [] H).
Qed.

Lemma moveDetection_none (w : os.World) (lookupMap : option (gmap string QuickLookup.t))
      (result : Result.t) (st : ScanState) :
  lookupMap = None \/ noneVanished w (committed st) ->
  moveDetection w lookupMap result st = NoMove.
Proof.
  intros H. unfold moveDetection.
  destruct lookupMap as [m|]; [|reflexivity].
  destruct H as [H|H]; [discriminate|].
  destruct (m !! Result.Path result); [reflexivity|].
  apply detectMove_all_passedOver.
  destruct (FindMoveCandidates_spec (filepath.Base (Result.Path result))
                                    (Result.Size result) 20 (committed st))
    as (_ & _ & Hc).
  eapply List.Forall_impl; [|exact Hc]. intros c (Hin & _). right. now apply H.
Qed.

Lemma upsert_paths (f r' : FileRecord.t) (d : DB) :
  In r' (files (UpsertFileTx f d)) ->
  FileRecord.Path r' = FileRecord.Path f \/
  exists r, In r (files d) /\ FileRecord.Path r' = FileRecord.Path r.
Proof.
  unfold UpsertFileTx. destruct (existsb _ _); cbn [files]; intros Hin.
  - apply List.in_map_iff in Hin as (r & <- & Hin). right. exists r.
    split; [exact Hin|]. now destruct (hasPath (FileRecord.Path f) r).
  - apply in_app_iff in Hin as [Hin|[<-|[]]].
    + right. exists r'. auto.
    + left. reflexivity.
Qed.

Lemma processResult_upserts (w : os.World)
      (lookupMap : option (gmap string QuickLookup.t)) (now : Z)
      (result : Result.t) (st : ScanState) :
  loopInv w lookupMap st ->
  Result.Err result = None ->
  os.Stat w (Result.Path result) <> os.StatNotExist ->
  exists st',
    processResult w lookupMap now result st = Some st' /\
    loopInv w lookupMap st' /\
    tx st' = UpsertFileTx (newRecord now "ok" result) (tx st).
Proof.
  intros (Hwf & Hbc & Heq & Hmode) Herr Hex.
  unfold processResult. rewrite Herr.
  rewrite moveDetection_none
    by (destruct Hmode as [H|[H _]]; [now left|right; exact H]).
  eexists. split; [reflexivity|].
  assert (noneVanished w (tx st) ->
          noneVanished w (UpsertFileTx (newRecord now "ok" result) (tx st))) as Hnv.
  { intros Hnv r' Hin. apply upsert_paths in Hin as [E|(r & Hr & E)]; rewrite E.
    - exact Hex.
    - now apply Hnv. }
  unfold endOfIteration.
  cbn [withTx countProcessed tx batchCount committed].
  destruct (batchSize <=? batchCount st + 1) eqn:E;
    unfold loopInv; cbn [tx batchCount committed].
  - split; [|reflexivity].
    split; [now apply wf_upsert|]. split; [lia|]. split; [reflexivity|].
    destruct Hmode as [H|[_ H]]; [now left|right]. split; now apply Hnv.
  - split; [|reflexivity].
    split; [now apply wf_upsert|]. split; [lia|]. split; [lia|].
    destruct Hmode as [H|[H1 H2]]; [now left|right]. split; [exact H1|now apply Hnv].
Qed.

Lemma processResults_upserts (w : os.World)
      (lookupMap : option (gmap string QuickLookup.t)) (clock : Z -> Z)
      (results : list Result.t) (st : ScanState) :
  loopInv w lookupMap st ->
  (forall r, In r results ->
             Result.Err r = None /\ os.Stat w (Result.Path r) <> os.StatNotExist) ->
  exists st',
    processResults w lookupMap clock results st = Some st' /\
    loopInv w lookupMap st' /\
    (forall p, ~ In p (map Result.Path results) -> rowsAt p (tx st') = rowsAt p (tx st)) /\
    (List.NoDup (map Result.Path results) ->
     forall r, In r results ->
               exists row, rowsAt (Result.Path r) (tx st') = [row] /\
                           FileRecord.Size row = Result.Size r /\
                           FileRecord.Mtime row = Result.Mtime r).
Proof.
  revert st. induction results as [|r0 rest IH]; intros st Hinv Hall.
  - exists st. cbn [processResults]. split; [reflexivity|]. split; [exact Hinv|].
    split; [reflexivity|]. intros _ r [].
  - destruct (Hall r0 (or_introl eq_refl)) as [Herr Hex].
    destruct (processResult_upserts w lookupMap (clock (totalProcessed st)) r0 st
                                    Hinv Herr Hex) as (st1 & Hrun1 & Hinv1 & Htx1).
    destruct (IH st1 Hinv1 (fun r Hr => Hall r (or_intror Hr)))
      as (st' & Hrun & Hinv' & Hother & Hrows).
    exists st'. cbn [processResults]. rewrite Hrun1.
    split; [exact Hrun|]. split; [exact Hinv'|]. split.
    + intros p Hp. rewrite Hother by (intros H; apply Hp; now right).
      rewrite Htx1. apply rowsAt_upsert_other. intros E. apply Hp. left.
      now rewrite E.
    + intros Hnd r Hr. cbn [map] in Hnd.
      inversion Hnd as [|? ? Hnotin Hnd']; subst.
      destruct Hr as [<-|Hr]; [|now apply Hrows].
      rewrite (Hother _ Hnotin), Htx1.
      destruct Hinv as ((Hp & _) & _).
      destruct (rowsAt_upsert_same (newRecord (clock (totalProcessed st)) "ok" r0)
                                   (tx st) Hp)
        as (row & Hrow & _ & _ & Hs & Hm & _).
      exists row. auto.
Qed.

Lemma filter_flat_map {A B : Type} (P : B -> bool) (f : A -> list B) (l : list A) :
  List.filter P (flat_map f l) = flat_map (fun a => List.filter P (f a)) l.
Proof.
  induction l as [|a l IH]; [reflexivity|].
  cbn [flat_map]. now rewrite List.filter_app, IH.
Qed.

(** The results of the pipelines are the digests of the descriptors that
    pass the filter. *)
Lemma hashed_spec (sc : scanner.Scanner) (w : os.World)
      (lookupMap : option (gmap string QuickLookup.t))
      (disks : list scanner.DiskInfo) :
  hashed sc w lookupMap disks
  = map (hashOne w)
        (List.filter (fun fi => negb (unchanged lookupMap fi)) (scanned sc w disks)).
Proof.
  unfold hashed, scanned. rewrite filter_flat_map.
  induction disks as [|dk dks IH]; [reflexivity|].
  cbn [flat_map]. rewrite List.map_app, IH. f_equal.
  unfold diskOutput, diskInput.
  now rewrite HashFiles_New, incrementalFilter_spec.
Qed.

Lemma LoadQuickLookupMap_inv (d : DB) (p : string) (ql : QuickLookup.t) :
  List.NoDup (map FileRecord.Path (files d)) ->
  LoadQuickLookupMap d !! p = Some ql ->
  exists r, In r (files d) /\ FileRecord.Path r = p /\ ql = quickOf r.
Proof.
  intros Hnd Hl.
  destruct (in_dec string_dec p (map FileRecord.Path (files d))) as [Hin|Hout].
  - apply List.in_map_iff in Hin as (r & Hp & Hin). exists r.
    split; [exact Hin|]. split; [exact Hp|].
    rewrite <- Hp, (LoadQuickLookupMap_row d r Hnd Hin) in Hl. congruence.
  - rewrite (LoadQuickLookupMap_none d p Hout) in Hl. discriminate.
Qed.

Lemma hashOne_keeps_info (w : os.World) (fi : FileInfo.t) :
  0 < FileInfo.Size fi -> Result.Err (hashOne w fi) = None ->
  Result.Size (hashOne w fi) = FileInfo.Size fi /\
  Result.Mtime (hashOne w fi) = FileInfo.Mtime fi.
Proof.
  intros Hs. unfold hashOne.
  replace (0 <? FileInfo.Size fi) with true by (symmetry; now apply Z.ltb_lt).
  cbn [orb]. unfold hashFileWithInfo.
  destruct (os.Open w (FileInfo.Path fi)) as [f|]; [|discriminate].
  destruct (CopyBuffer sha256.New f); [|discriminate]. auto.
Qed.

Lemma NoDup_map_filter {A B : Type} (f : A -> B) (P : A -> bool) (l : list A) :
  List.NoDup (map f l) -> List.NoDup (map f (List.filter P l)).
Proof. apply NoDup_filter. Qed.

(** X29.  After a scan in which every file the walkers emit is hashed without
    error, in full mode or from a catalog none of whose records has
    vanished, whatever the order in which the results arrive, an incremental
    scan of the same tree hashes nothing, leaves the catalog as the first
    scan committed it, and skips every file. *)
Lemma scan_then_rescan
      (sc : scanner.Scanner) (w : os.World) (clock1 clock2 : Z -> Z)
      (fullScan : bool) (disks : list scanner.DiskInfo) (d : DB)
      (results : list Result.t) :
  wf d ->
  fullScan = true \/ noneVanished w d ->
  List.NoDup (map FileInfo.Path (scanned sc w disks)) ->
  (forall fi, In fi (scanned sc w disks) ->
              0 <= FileInfo.Size fi /\
              Result.Err (hashOne w fi) = None /\
              os.Stat w (FileInfo.Path fi) <> os.StatNotExist) ->
  Permutation results (hashed sc w (loadLookup fullScan d) disks) ->
  exists first,
    scanFrom sc w clock1 fullScan disks results d = Some first /\
    (forall fi, In fi (scanned sc w disks) -> recorded (committed (final first)) fi) /\
    exists second,
      scanCmd sc w clock2 false disks (committed (final first)) = Some second /\
      committed (final second) = committed (final first) /\
      filesProcessed second = 0 /\
      filesSkipped second = Z.of_nat (length (scanned sc w disks)).
Proof.
  intros Hwf Hmode Hnd Hall Hperm.
  set (lm := loadLookup fullScan d) in *.
  set (kept := List.filter (fun fi => negb (unchanged lm fi)) (scanned sc w disks)).
  assert (Permutation results (map (hashOne w) kept)) as Hperm'
      by (unfold kept; now rewrite <- hashed_spec).
  assert (forall fi, In fi (scanned sc w disks) -> 0 < FileInfo.Size fi) as Hpos.
  { intros fi Hfi. destruct (Hall fi Hfi) as (H0 & _).
    unfold scanned in Hfi. apply in_flat_map in Hfi as (dk & _ & Hfi).
    apply Walk_nonzero in Hfi as (Hnz & _). lia. }
  assert (map Result.Path results ≡ₚ map FileInfo.Path kept) as Hpaths.
  { rewrite (Permutation_map Result.Path Hperm'), List.map_map.
    erewrite map_ext; [reflexivity|]. intros fi. apply hashOne_Path. }
  assert (loopInv w lm (start d)) as Hinv.
  { unfold loopInv, start. cbn [tx committed batchCount].
    split; [exact Hwf|]. split; [lia|]. split; [reflexivity|].
    destruct Hmode as [->|H]; [now left|right; auto]. }
  assert (forall r, In r results ->
                    Result.Err r = None /\
                    os.Stat w (Result.Path r) <> os.StatNotExist) as Hres.
  { intros r Hr. apply (Permutation_in _ Hperm') in Hr.
    apply List.in_map_iff in Hr as (fi & <- & Hfi).
    apply List.filter_In in Hfi as [Hfi _].
    destruct (Hall fi Hfi) as (_ & He & Hs). rewrite hashOne_Path. auto. }
  destruct (processResults_upserts w lm clock1 results (start d) Hinv Hres)
    as (st' & Hrun & (Hwf' & Hbc & Heq & _) & Hother & Hrows).
  assert (committed (finish st') = tx st') as Hfin.
  { unfold finish. destruct (0 <? batchCount st') eqn:E; cbn [committed]; [reflexivity|].
    apply Z.ltb_ge in E. symmetry. apply Heq. lia. }
  assert (List.NoDup (map Result.Path results)) as Hndr.
  { apply (Permutation_NoDup (Permutation_sym Hpaths)).
    unfold kept. now apply NoDup_filter. }
  assert (forall fi, In fi (scanned sc w disks) -> recorded (tx st') fi) as Hrec.
  { intros fi Hfi. destruct (unchanged lm fi) eqn:Eu.
    - (* skipped by the filter: its row is the one the catalog had *)
      unfold unchanged in Eu. destruct lm as [m|] eqn:Elm; [|discriminate].
      destruct (m !! FileInfo.Path fi) as [ql|] eqn:El; [|discriminate].
      apply andb_true_iff in Eu as [Es Em]. apply Z.eqb_eq in Es, Em.
      unfold lm, loadLookup in Elm. destruct fullScan; [discriminate|].
      inversion Elm; subst m. destruct Hwf as (Hp & _).
      apply (LoadQuickLookupMap_inv d _ _ Hp) in El as (r & Hr & Hpr & ->).
      cbn [quickOf QuickLookup.Size QuickLookup.Mtime] in Es, Em.
      assert (rowsAt (FileInfo.Path fi) (tx st') = rowsAt (FileInfo.Path fi) d) as E.
      { apply Hother. intros H. apply (Permutation_in _ Hpaths) in H.
        apply List.in_map_iff in H as (fi' & Hp' & Hfi').
        apply List.filter_In in Hfi' as [Hfi' Hu'].
        assert (fi' = fi) as -> by (eapply (NoDup_map_inj FileInfo.Path); eauto).
        unfold unchanged in Hu'. rewrite <- Hpr in Hu'.
        rewrite (LoadQuickLookupMap_row d r Hp Hr) in Hu'.
        cbn [quickOf QuickLookup.Size QuickLookup.Mtime] in Hu'.
        rewrite Es, Em, !Z.eqb_refl in Hu'. discriminate. }
      exists r. split; [|auto].
      assert (In r (rowsAt (FileInfo.Path fi) (tx st'))) as Hin'
          by (rewrite E; apply rowsAt_In; auto).
      now apply rowsAt_In in Hin' as [Hin' _].
    - (* hashed: its row was upserted *)
      assert (In (hashOne w fi) results) as Hr.
      { apply (Permutation_in _ (Permutation_sym Hperm')). apply List.in_map.
        apply List.filter_In. split; [exact Hfi|]. now rewrite Eu. }
      destruct (Hrows Hndr _ Hr) as (row & Hrow & Hs & Hm).
      destruct (Hall fi Hfi) as (_ & He & _).
      destruct (hashOne_keeps_info w fi (Hpos fi Hfi) He) as [Hs' Hm'].
      exists row. rewrite hashOne_Path in Hrow.
      assert (In row (rowsAt (FileInfo.Path fi) (tx st'))) as Hin'
          by (rewrite Hrow; now left).
      apply rowsAt_In in Hin' as [Hin' Hp'].
      split; [exact Hin'|]. split; [exact Hp'|]. split; congruence. }
  unfold scanFrom. fold lm. rewrite Hrun.
  eexists. split; [reflexivity|]. cbn [final]. rewrite Hfin.
  split; [exact Hrec|].
  destruct Hwf' as (Hp' & _).
  assert (forall fi, In fi (scanned sc w disks) ->
                     unchanged (loadLookup false (tx st')) fi = true) as Hunch
      by (intros fi Hfi; apply recorded_unchanged; auto).
  destruct (all_unchanged_totals sc w (loadLookup false (tx st')) disks Hunch)
    as [Hhashed Hskip].
  unfold scanCmd, scanFrom. rewrite Hhashed. cbn [processResults].
  eexists. split; [reflexivity|].
  cbn [final filesProcessed filesSkipped finish start batchCount committed
         totalProcessed Z.ltb Z.compare].
  split; [reflexivity|]. split; [reflexivity|exact Hskip].
Qed.

End RescanFacts.

(* ===================================================================== *)
(** * The hashing pool: what every result looks like *)
(* ===================================================================== *)

Section HasherOutcomes.
Import hasher.

Lemma encode_byte_hex (b : byte) :
  obs.isLowerHex (sha256.hexdigit (Z.shiftr (sha256.byteZ b) 4)) = true /\
  obs.isLowerHex (sha256.hexdigit (Z.land (sha256.byteZ b) 0x0f)) = true.
Proof. destruct b; split; reflexivity. Qed.

Lemma EncodeToString_hex (src : list byte) :
  forallb obs.isLowerHex (list_ascii_of_string (sha256.EncodeToString src)) = true.
Proof.
  induction src as [|b src IH]; [reflexivity|].
  destruct (encode_byte_hex b) as [Hhi Hlo].
  cbn [sha256.EncodeToString list_ascii_of_string forallb].
  now rewrite Hhi, Hlo, IH.
Qed.

Lemma CopyBuffer_Some (f : os.File) (h : sha256.digest) :
  CopyBuffer sha256.New f = Some h <->
  os.readErr f = false /\ h = sha256.Write sha256.New (os.contents f).
Proof.
  split.
  - intros Hc. destruct (os.readErr f) eqn:Er.
    + unfold CopyBuffer in Hc. rewrite Er in Hc. discriminate.
    + rewrite (CopyBuffer_contents f Er) in Hc. inversion Hc. auto.
  - intros [Er ->]. now apply CopyBuffer_contents.
Qed.

Lemma CopyBuffer_None (f : os.File) :
  CopyBuffer sha256.New f = None <-> os.readErr f = true.
Proof.
  unfold CopyBuffer. destruct (os.readErr f); split; congruence.
Qed.

(** The two ways a worker produces a result, told apart by what the
    descriptor carries. *)
Lemma hashOne_with_info (w : os.World) (fi : FileInfo.t) :
  (0 <? FileInfo.Size fi) || (0 <? FileInfo.Mtime fi) = true ->
  hashOne w fi
  = match os.Open w (FileInfo.Path fi) with
    | None => {| Result.Path := FileInfo.Path fi; Result.Disk := FileInfo.Disk fi;
                 Result.Size := 0; Result.Mtime := 0; Result.SHA256 := "";
                 Result.Err := Some (ErrOpen (FileInfo.Path fi)) |}
    | Some f =>
        if os.readErr f
        then {| Result.Path := FileInfo.Path fi; Result.Disk := FileInfo.Disk fi;
                Result.Size := 0; Result.Mtime := 0; Result.SHA256 := "";
                Result.Err := Some (ErrHash (FileInfo.Path fi)) |}
        else {| Result.Path := FileInfo.Path fi; Result.Disk := FileInfo.Disk fi;
                Result.Size := FileInfo.Size fi; Result.Mtime := FileInfo.Mtime fi;
                Result.SHA256 := digestOf (os.contents f); Result.Err := None |}
    end.
Proof.
  intros Hflag. unfold hashOne. rewrite Hflag. unfold hashFileWithInfo.
  destruct (os.Open w (FileInfo.Path fi)) as [f|]; [|reflexivity].
  destruct (os.readErr f) eqn:Er.
  - now rewrite (proj2 (CopyBuffer_None f) Er).
  - now rewrite (CopyBuffer_contents f Er).
Qed.

Lemma hashOne_without_info (w : os.World) (fi : FileInfo.t) :
  (0 <? FileInfo.Size fi) || (0 <? FileInfo.Mtime fi) = false ->
  hashOne w fi
  = let failure e :=
      {| Result.Path := FileInfo.Path fi; Result.Disk := FileInfo.Disk fi;
         Result.Size := 0; Result.Mtime := 0; Result.SHA256 := "";
         Result.Err := Some e |} in
    match os.Open w (FileInfo.Path fi) with
    | None => failure (ErrOpen (FileInfo.Path fi))
    | Some f =>
        match os.fstat f with
        | None => failure (ErrStat (FileInfo.Path fi))
        | Some st =>
            if os.IsDir st then failure (ErrIsDirectory (FileInfo.Path fi))
            else if os.readErr f then failure (ErrHash (FileInfo.Path fi))
            else {| Result.Path := FileInfo.Path fi; Result.Disk := FileInfo.Disk fi;
                    Result.Size := os.Size st; Result.Mtime := os.ModTime st;
                    Result.SHA256 := digestOf (os.contents f); Result.Err := None |}
        end
    end.
Proof.
  intros Hflag. unfold hashOne. rewrite Hflag. unfold HashFile.
  destruct (os.Open w (FileInfo.Path fi)) as [f|]; [|reflexivity].
  destruct (os.fstat f) as [st|]; [|reflexivity].
  destruct (os.IsDir st); [reflexivity|].
  destruct (os.readErr f) eqn:Er.
  - now rewrite (proj2 (CopyBuffer_None f) Er).
  - now rewrite (CopyBuffer_contents f Er).
Qed.

Lemma digestOf_shape (data : list byte) :
  String.length (digestOf data) = 64%nat /\
  forallb obs.isLowerHex (list_ascii_of_string (digestOf data)) = true.
Proof.
  unfold digestOf. split; [|apply EncodeToString_hex].
  rewrite EncodeToString_length. unfold sha256.Sum256.
  rewrite Sum_length; [reflexivity|]. now apply Write_length.
Qed.

Lemma hashOne_well_formed (w : os.World) (fi : FileInfo.t) :
  obs.wellFormedResult fi (hashOne w fi).
Proof.
  unfold obs.wellFormedResult.
  destruct ((0 <? FileInfo.Size fi) || (0 <? FileInfo.Mtime fi)) eqn:Hflag.
  - rewrite (hashOne_with_info w fi Hflag).
    destruct (os.Open w (FileInfo.Path fi)) as [f|]; [|cbn; auto].
    destruct (os.readErr f); cbn; auto using digestOf_shape.
  - rewrite (hashOne_without_info w fi Hflag). cbv zeta.
    destruct (os.Open w (FileInfo.Path fi)) as [f|]; [|cbn; auto].
    destruct (os.fstat f) as [st|]; [|cbn; auto].
    destruct (os.IsDir st); [cbn; auto|].
    destruct (os.readErr f); cbn; auto using digestOf_shape.
Qed.

(** X1.  A pool made by [New], whatever worker count it is asked for, sends
    exactly one result per descriptor read from its input; each result
    carries the path and the disk label of its descriptor, and either no
    error and a digest of 64 lower-case hexadecimal digits, or an error
    together with an empty digest and zero size and modification time. *)
Theorem HashFiles_results_well_formed (n : Z) (w : os.World) (files : list FileInfo.t) :
  Forall2 obs.wellFormedResult files (HashFiles (New n) w files).
Proof.
  rewrite HashFiles_New.
  induction files as [|fi files IH]; cbn [map]; constructor.
  - apply hashOne_well_formed.
  - exact IH.
Qed.

(** X2.  A worker reports a file without error exactly when the path opens
    and its reads end in EOF, and, for a descriptor that carries neither a
    size nor a modification time, the open file can be examined and is not
    a directory.  A descriptor that carries size or time is hashed without
    that examination. *)
Theorem hashing_succeeds_iff (w : os.World) (fi : FileInfo.t) :
  Result.Err (hashOne w fi) = None <->
  exists f, os.Open w (FileInfo.Path fi) = Some f /\ os.readErr f = false /\
            (0 < FileInfo.Size fi \/ 0 < FileInfo.Mtime fi \/
             exists st, os.fstat f = Some st /\ os.IsDir st = false).
Proof.
  destruct ((0 <? FileInfo.Size fi) || (0 <? FileInfo.Mtime fi)) eqn:Hflag.
  - rewrite (hashOne_with_info w fi Hflag).
    assert (0 < FileInfo.Size fi \/ 0 < FileInfo.Mtime fi) as Hpos
        by (apply orb_true_iff in Hflag; rewrite !Z.ltb_lt in Hflag; exact Hflag).
    destruct (os.Open w (FileInfo.Path fi)) as [f|].
    + destruct (os.readErr f) eqn:Er; cbn [Result.Err]; split.
      * discriminate.
      * intros (f' & Hf & Er' & _). inversion Hf; subst. congruence.
      * intros _. exists f. split; [reflexivity|]. split; [exact Er|]. tauto.
      * reflexivity.
    + cbn [Result.Err]. split; [discriminate|]. intros (f' & Hf & _). discriminate.
  - rewrite (hashOne_without_info w fi Hflag). cbv zeta.
    apply orb_false_iff in Hflag. rewrite !Z.ltb_ge in Hflag.
    destruct (os.Open w (FileInfo.Path fi)) as [f|].
    + destruct (os.fstat f) as [st|] eqn:Est.
      * destruct (os.IsDir st) eqn:Ed.
        -- cbn [Result.Err]. split; [discriminate|].
           intros (f' & Hf & _ & [H|[H|(st' & Hst & Hd)]]); try lia.
           inversion Hf; subst. congruence.
        -- destruct (os.readErr f) eqn:Er; cbn [Result.Err]; split.
           ++ discriminate.
           ++ intros (f' & Hf & Er' & _). inversion Hf; subst. congruence.
           ++ intros _. exists f. split; [reflexivity|]. split; [exact Er|].
              right. right. now exists st.
           ++ reflexivity.
      * cbn [Result.Err]. split; [discriminate|].
        intros (f' & Hf & _ & [H|[H|(st' & Hst & _)]]); try lia.
        inversion Hf; subst. congruence.
    + cbn [Result.Err]. split; [discriminate|]. intros (f' & Hf & _). discriminate.
Qed.

(** X3.  In a result without error the digest is the SHA-256 of the bytes
    the reads delivered; the size and modification time are those of the
    descriptor when it carries a size or a time, and those reported by
    [f.Stat()] on the open file otherwise. *)
Theorem hashed_result_provenance (w : os.World) (fi : FileInfo.t)
        (Hok : Result.Err (hashOne w fi) = None) :
  exists f,
    os.Open w (FileInfo.Path fi) = Some f /\
    Result.SHA256 (hashOne w fi) = digestOf (os.contents f) /\
    if (0 <? FileInfo.Size fi) || (0 <? FileInfo.Mtime fi)
    then Result.Size (hashOne w fi) = FileInfo.Size fi /\
         Result.Mtime (hashOne w fi) = FileInfo.Mtime fi
    else exists st, os.fstat f = Some st /\
                    Result.Size (hashOne w fi) = os.Size st /\
                    Result.Mtime (hashOne w fi) = os.ModTime st.
Proof.
  destruct ((0 <? FileInfo.Size fi) || (0 <? FileInfo.Mtime fi)) eqn:Hflag.
  - rewrite (hashOne_with_info w fi Hflag) in *.
    destruct (os.Open w (FileInfo.Path fi)) as [f|]; [|discriminate].
    destruct (os.readErr f); [discriminate|].
    exists f. cbn. auto.
  - rewrite (hashOne_without_info w fi Hflag) in *. cbv zeta in *.
    destruct (os.Open w (FileInfo.Path fi)) as [f|]; [|discriminate].
    destruct (os.fstat f) as [st|] eqn:Est; [|discriminate].
    destruct (os.IsDir st); [discriminate|].
    destruct (os.readErr f); [discriminate|].
    exists f. cbn. split; [reflexivity|]. split; [reflexivity|]. now exists st.
Qed.

End HasherOutcomes.

Lemma hashed_result_provenance_witness :
  hasher.Result.Err (hasher.hashOne fixtures.worldStill
                                    (verifier.toInput fixtures.rowA)) = None /\
  exists f,
    os.Open fixtures.worldStill fixtures.oldPath = Some f /\
    hasher.Result.SHA256 (hasher.hashOne fixtures.worldStill
                                         (verifier.toInput fixtures.rowA))
    = hasher.digestOf (os.contents f) /\
    exists st, os.fstat f = Some st /\
               hasher.Result.Size (hasher.hashOne fixtures.worldStill
                                                  (verifier.toInput fixtures.rowA))
               = os.Size st /\
               hasher.Result.Mtime (hasher.hashOne fixtures.worldStill
                                                   (verifier.toInput fixtures.rowA))
               = os.ModTime st.
Proof.
  split; [vm_compute; reflexivity|].
  exact (hashed_result_provenance fixtures.worldStill (verifier.toInput fixtures.rowA)
                                  eq_refl).
Defined.

(* ===================================================================== *)
(** * The statements of the catalog: further properties *)
(* ===================================================================== *)

Lemma ascii_compare_lt_trans (a b c : ascii) :
  Ascii.compare a b = Lt -> Ascii.compare b c = Lt -> Ascii.compare a c = Lt.
Proof. unfold Ascii.compare. rewrite !N.compare_lt_iff. lia. Qed.

Lemma ascii_compare_refl (a : ascii) : Ascii.compare a a = Eq.
Proof. unfold Ascii.compare. apply N.compare_refl. Qed.

(** Byte-wise comparison of strings, the BINARY collation, is transitive. *)
Lemma string_leb_trans (a b c : string) :
  String.leb a b = true -> String.leb b c = true -> String.leb a c = true.
Proof.
  unfold String.leb. revert b c.
  induction a as [|x a IH]; intros [|y b] [|z c]; simpl; try congruence.
  destruct (Ascii.compare x y) eqn:Exy; try congruence;
    destruct (Ascii.compare y z) eqn:Eyz; try congruence.
  - apply Ascii.compare_eq_iff in Exy, Eyz. subst.
    rewrite ascii_compare_refl. apply IH.
  - apply Ascii.compare_eq_iff in Exy. subst. now rewrite Eyz.
  - apply Ascii.compare_eq_iff in Eyz. subst. now rewrite Exy.
  - now rewrite (ascii_compare_lt_trans _ _ _ Exy Eyz).
Qed.

Section OrderByFilter.
Context {A : Type} (le : A -> A -> bool).
Hypothesis le_total : forall a b, le a b = true \/ le b a = true.
Hypothesis le_trans : forall a b c, le a b = true -> le b c = true -> le a c = true.

Lemma insert_by_head (a : A) (l : list A) :
  (forall x, In x l -> le a x = true) -> insert_by le a l = a :: l.
Proof.
  destruct l as [|b l]; [reflexivity|]. intros H. simpl.
  rewrite (H b); [reflexivity|now left].
Qed.

Lemma filter_insert_by (P : A -> bool) (a : A) (l : list A) :
  StronglySorted (fun u v => le u v = true) l ->
  List.filter P (insert_by le a l)
  = if P a then insert_by le a (List.filter P l) else List.filter P l.
Proof.
  induction 1 as [|b l Hs IH Hb].
  - simpl. destruct (P a); reflexivity.
  - cbn [insert_by]. destruct (le a b) eqn:Hab.
    + assert (insert_by le a (List.filter P (b :: l)) = a :: List.filter P (b :: l))
        as Hhead.
      { apply insert_by_head. intros x Hx. apply List.filter_In in Hx as [Hx _].
        destruct Hx as [<-|Hx]; [exact Hab|].
        apply le_trans with b; [exact Hab|].
        rewrite List.Forall_forall in Hb. now apply Hb. }
      rewrite Hhead. cbn [List.filter]. destruct (P a); reflexivity.
    + cbn [List.filter]. rewrite IH.
      destruct (P b) eqn:Pb, (P a) eqn:Pa; try reflexivity.
      cbn [insert_by]. now rewrite Hab.
Qed.

(** Selecting rows and ordering them commute: a WHERE clause can be applied
    to the ordered rows of the whole table. *)
Lemma filter_order_by (P : A -> bool) (l : list A) :
  List.filter P (order_by le l) = order_by le (List.filter P l).
Proof.
  induction l as [|a l IH]; [reflexivity|].
  change (order_by le (a :: l)) with (insert_by le a (order_by le l)).
  rewrite filter_insert_by by (apply order_by_sorted; assumption).
  rewrite IH. cbn [List.filter]. destruct (P a); reflexivity.
Qed.

End OrderByFilter.

Section CatalogStatements.
Import db.
Import db.FileRecord.

Lemma byPath_total (a b : FileRecord.t) : byPath a b = true \/ byPath b a = true.
Proof.
  unfold byPath. destruct (String.leb_total (Path a) (Path b)) as [H|H]; auto.
Qed.

Lemma byPath_trans (a b c : FileRecord.t) :
  byPath a b = true -> byPath b c = true -> byPath a c = true.
Proof. unfold byPath. apply string_leb_trans. Qed.

Lemma paths_kept (g : FileRecord.t -> FileRecord.t) (l : list FileRecord.t) :
  (forall r, Path (g r) = Path r) -> map Path (map g l) = map Path l.
Proof. intros H. now apply map_map_same. Qed.

(** X4.  Writing the same record twice leaves the rows of the table as
    writing it once does; only the id counter shows the second statement,
    as it advances by one with every upsert.  An upsert adds one row when
    the path is new to the table and none when it is not. *)
Theorem UpsertFileTx_idempotent (f : FileRecord.t) (d : DB) :
  files (UpsertFileTx f (UpsertFileTx f d)) = files (UpsertFileTx f d) /\
  seq (UpsertFileTx f d) = seq d + 1 /\
  length (files (UpsertFileTx f d))
  = (length (files d) + if existsb (hasPath (Path f)) (files d) then 0 else 1)%nat.
Proof.
  destruct (existsb (hasPath (Path f)) (files d)) eqn:E.
  - pose proof (proj1 (existsb_hasPath _ _) E) as Hin.
    rewrite (upsert_conflict f d Hin). split; [|split].
    + rewrite upsert_conflict.
      * cbn [files]. rewrite List.map_map. apply map_ext. intros r.
        destruct (hasPath (Path f) r) eqn:Hr.
        -- change (hasPath (Path f) (conflictUpdate f r)) with (hasPath (Path f) r).
           now rewrite Hr.
        -- now rewrite Hr.
      * cbn [files]. rewrite paths_kept; [exact Hin|].
        intros r. now destruct (hasPath (Path f) r).
    + reflexivity.
    + cbn [files]. rewrite length_map. lia.
  - assert (~ In (Path f) (map Path (files d))) as Hnin.
    { intros Hin. apply existsb_hasPath in Hin. congruence. }
    rewrite (upsert_insert f d Hnin). split; [|split].
    + rewrite upsert_conflict.
      * cbn [files]. rewrite List.map_app. f_equal.
        -- apply map_id_on. intros r Hr.
           destruct (hasPath (Path f) r) eqn:Hp; [|reflexivity].
           exfalso. apply Hnin. apply hasPath_true in Hp. rewrite <- Hp.
           now apply List.in_map.
        -- cbn [map]. unfold hasPath at 1. cbn [withID Path].
           now rewrite String.eqb_refl.
      * cbn [files]. rewrite List.map_app. apply in_or_app. right. now left.
    + reflexivity.
    + cbn [files]. rewrite length_app. reflexivity.
Qed.

(** X5.  Under the uniqueness of paths the lookup map of an incremental
    scan holds, for every path, exactly the size, modification time and
    digest of the row at that path, and no entry for any other path. *)
Theorem LoadQuickLookupMap_exact (d : DB) (p : string) (ql : QuickLookup.t)
        (Hwf : wf d) :
  LoadQuickLookupMap d !! p = Some ql <->
  exists r, In r (files d) /\ Path r = p /\
            QuickLookup.Size ql = Size r /\ QuickLookup.Mtime ql = Mtime r /\
            QuickLookup.SHA256 ql = SHA256 r.
Proof.
  destruct Hwf as (Hnd & _). split.
  - intros H. destruct (LoadQuickLookupMap_inv d p ql Hnd H) as (r & Hin & Hp & ->).
    exists r. auto.
  - intros (r & Hin & Hp & Hs & Hm & Hh). subst p.
    rewrite (LoadQuickLookupMap_row d r Hnd Hin). f_equal.
    destruct ql; cbn in *. subst. reflexivity.
Qed.

(** X6.  The three listings of the catalog return their rows in ascending
    byte order of the path; the listing of the whole table is a
    rearrangement of the table, and the listings by disk and by status are
    the listing of the whole table restricted to the rows of that disk or
    status, in the same order. *)
Theorem catalog_listings_sorted (d : DB) (disk status : string) :
  let ascending := StronglySorted (fun a b => String.leb (Path a) (Path b) = true) in
  ascending (GetAllFiles d) /\
  Permutation (files d) (GetAllFiles d) /\
  ascending (GetFilesByDisk disk d) /\
  GetFilesByDisk disk d
  = List.filter (fun r => String.eqb (Disk r) disk) (GetAllFiles d) /\
  (forall r, In r (GetFilesByDisk disk d) <-> In r (files d) /\ Disk r = disk) /\
  ascending (dbread.GetFilesByStatus status d) /\
  dbread.GetFilesByStatus status d
  = List.filter (fun r => String.eqb (Status r) status) (GetAllFiles d) /\
  (forall r, In r (dbread.GetFilesByStatus status d) <->
             In r (files d) /\ Status r = status).
Proof.
  cbv zeta. unfold GetAllFiles, GetFilesByDisk, dbread.GetFilesByStatus.
  split; [exact (order_by_sorted byPath byPath_total byPath_trans _)|].
  split; [apply order_by_perm|].
  split; [exact (order_by_sorted byPath byPath_total byPath_trans _)|].
  split; [symmetry; apply filter_order_by; [exact byPath_total|exact byPath_trans]|].
  split.
  { intros r. rewrite order_by_In, List.filter_In, String.eqb_eq. tauto. }
  split; [exact (order_by_sorted byPath byPath_total byPath_trans _)|].
  split; [symmetry; apply filter_order_by; [exact byPath_total|exact byPath_trans]|].
  intros r. rewrite order_by_In, List.filter_In, String.eqb_eq. tauto.
Qed.

End CatalogStatements.

Section CatalogUpdates.
Import db.
Import db.FileRecord.

Lemma DB_eta (d : DB) : {| files := files d; seq := seq d |} = d.
Proof. now destruct d. Qed.

(** X7.  [UpdateStatusTx] touches nothing but [status] and [last_verified]:
    the rows keep their order, ids, paths, disks, sizes, times, digests and
    first-seen values, and the id counter stands.  Of two updates of the
    same path only the second shows.  For a path that is not in the table
    the statement changes nothing. *)
Theorem UpdateStatusTx_effect (now1 now2 : Z) (path s1 s2 : string) (d : DB) :
  map obs.content (files (UpdateStatusTx now1 path s1 d)) = map obs.content (files d) /\
  seq (UpdateStatusTx now1 path s1 d) = seq d /\
  UpdateStatusTx now2 path s2 (UpdateStatusTx now1 path s1 d)
  = UpdateStatusTx now2 path s2 d /\
  (~ In path (map Path (files d)) -> UpdateStatusTx now1 path s1 d = d).
Proof.
  split; [|split; [reflexivity|split]].
  - cbn [UpdateStatusTx files]. apply map_map_same. intros r.
    now destruct (hasPath path r).
  - unfold UpdateStatusTx. cbn [files seq]. f_equal.
    rewrite List.map_map. apply map_ext. intros r.
    destruct (hasPath path r) eqn:Hr.
    + change (hasPath path (setStatus now1 s1 r)) with (hasPath path r).
      now rewrite Hr.
    + now rewrite Hr.
  - intros Hnin. unfold UpdateStatusTx. rewrite map_id_on; [apply DB_eta|].
    intros r Hr. destruct (hasPath path r) eqn:Hp; [|reflexivity].
    exfalso. apply Hnin. apply hasPath_true in Hp. rewrite <- Hp.
    now apply List.in_map.
Qed.

Lemma filter_length_le {A : Type} (P : A -> bool) (l : list A) :
  (length (List.filter P l) + length (List.filter (fun a => negb (P a)) l)
   = length l)%nat.
Proof.
  induction l as [|a l IH]; [reflexivity|]. cbn [List.filter].
  destruct (P a); cbn [negb length]; lia.
Qed.

(** X8.  [MovePathTx] never adds a row: it removes whatever row sits at the
    destination path and keeps the rest, re-keyed or not, in table order.
    When no row is at the old path nothing is re-keyed and the row at the
    destination is deleted all the same; when the old and the new path are
    the same path the record itself is deleted. *)
Theorem MovePathTx_row_accounting (now : Z) (o n disk : string) (size mtime : Z)
        (d : DB) :
  (length (files (MovePathTx now o n disk size mtime d)) + length (rowsAt n d)
   = length (files d))%nat /\
  seq (MovePathTx now o n disk size mtime d) = seq d /\
  (~ In o (map Path (files d)) ->
   files (MovePathTx now o n disk size mtime d)
   = List.filter (fun r => negb (hasPath n r)) (files d)) /\
  (o = n ->
   files (MovePathTx now o n disk size mtime d)
   = List.filter (fun r => negb (hasPath n r)) (files d) /\
   rowsAt n (MovePathTx now o n disk size mtime d) = []).
Proof.
  split; [|split; [reflexivity|split]].
  - rewrite move_files, length_map. unfold rowsAt.
    pose proof (filter_length_le (hasPath n) (files d)). lia.
  - intros Hnin. rewrite move_files. apply map_id_on. intros r Hr.
    apply List.filter_In in Hr as [Hr _]. unfold moved.
    destruct (hasPath o r) eqn:Hp; [|reflexivity].
    exfalso. apply Hnin. apply hasPath_true in Hp. rewrite <- Hp.
    now apply List.in_map.
  - intros ->.
    assert (files (MovePathTx now n n disk size mtime d)
            = List.filter (fun r => negb (hasPath n r)) (files d)) as Hfiles.
    { rewrite move_files. apply map_id_on. intros r Hr.
      apply List.filter_In in Hr as [_ Hr]. unfold moved.
      destruct (hasPath n r); [discriminate|reflexivity]. }
    split; [exact Hfiles|].
    unfold rowsAt. rewrite Hfiles. apply filter_none. intros r Hr.
    apply List.filter_In in Hr as [_ Hr]. now destruct (hasPath n r).
Qed.

End CatalogUpdates.

Lemma LoadQuickLookupMap_exact_witness :
  db.wf fixtures.dbA /\
  db.LoadQuickLookupMap fixtures.dbA !! fixtures.oldPath
  = Some {| db.QuickLookup.Size := 12; db.QuickLookup.Mtime := 100;
            db.QuickLookup.SHA256 := fixtures.digestHello |}.
Proof.
  assert (db.wf fixtures.dbA) as Hwf by concrete_wf.
  split; [exact Hwf|].
  apply (LoadQuickLookupMap_exact fixtures.dbA fixtures.oldPath _ Hwf).
  exists fixtures.rowA. repeat split. now left.
Defined.

Lemma UpdateStatusTx_effect_witness :
  ~ In fixtures.newPath (map db.FileRecord.Path (db.files fixtures.dbA)) /\
  db.UpdateStatusTx 70 fixtures.newPath "missing" fixtures.dbA = fixtures.dbA /\
  db.UpdateStatusTx 80 fixtures.oldPath "ok"
    (db.UpdateStatusTx 70 fixtures.oldPath "missing" fixtures.dbA)
  = db.UpdateStatusTx 80 fixtures.oldPath "ok" fixtures.dbA.
Proof.
  assert (~ In fixtures.newPath (map db.FileRecord.Path (db.files fixtures.dbA)))
    as Hnin by (simpl; intros [H|[]]; discriminate).
  split; [exact Hnin|].
  destruct (UpdateStatusTx_effect 70 80 fixtures.newPath "missing" "ok" fixtures.dbA)
    as (_ & _ & _ & Hnoop).
  destruct (UpdateStatusTx_effect 70 80 fixtures.oldPath "missing" "ok" fixtures.dbA)
    as (_ & _ & Hlast & _).
  split; [exact (Hnoop Hnin)|exact Hlast].
Defined.

Lemma MovePathTx_row_accounting_witness :
  ~ In fixtures.newPath (map db.FileRecord.Path (db.files fixtures.dbA)) /\
  db.files (db.MovePathTx 50 fixtures.newPath fixtures.oldPath "disk1" 12 100
                          fixtures.dbA) = [] /\
  db.files (db.MovePathTx 50 fixtures.oldPath fixtures.oldPath "disk1" 12 100
                          fixtures.dbA) = [].
Proof.
  assert (~ In fixtures.newPath (map db.FileRecord.Path (db.files fixtures.dbA)))
    as Hnin by (simpl; intros [H|[]]; discriminate).
  split; [exact Hnin|].
  destruct (MovePathTx_row_accounting 50 fixtures.newPath fixtures.oldPath "disk1" 12 100
                                      fixtures.dbA) as (_ & _ & Habsent & _).
  destruct (MovePathTx_row_accounting 50 fixtures.oldPath fixtures.oldPath "disk1" 12 100
                                      fixtures.dbA) as (_ & _ & _ & Hsame).
  split.
  - rewrite (Habsent Hnin). reflexivity.
  - destruct (Hsame eq_refl) as [Hfiles _]. rewrite Hfiles. reflexivity.
Defined.

Section SearchFacts.
Import db.
Import db.FileRecord.
Import like.

Lemma matches_common_prefix (p q s : list ascii) :
  matches q s = true -> matches (p ++ q) (p ++ s) = true.
Proof.
  intros H. induction p as [|c p IH]; [exact H|].
  cbn [app matches].
  destruct (Ascii.eqb c "%"%char) eqn:E1.
  - apply (any_suffix_intro (matches (p ++ q)) [c] (p ++ s) IH).
  - destruct (Ascii.eqb c "_"%char) eqn:E2.
    + apply Ascii.eqb_eq in E2. subst c. simpl. exact IH.
    + now rewrite eq_nocase_refl, IH.
Qed.

Lemma matches_percent (s : list ascii) : matches ["%"%char] s = true.
Proof.
  change (matches ["%"%char] s) with (any_suffix (matches []) s).
  rewrite <- (app_nil_r s). now apply any_suffix_intro.
Qed.

(** A path that contains the search text is matched by the text wrapped in
    "%", whatever wildcards the text itself contains. *)
Lemma LIKE_contains (pre pattern post : string) :
  LIKE (String.append pre (String.append pattern post))
       (String.append "%" (String.append pattern "%")) = true.
Proof.
  unfold LIKE. rewrite !list_ascii_app.
  change (list_ascii_of_string "%") with ["%"%char].
  change (matches (["%"%char] ++ list_ascii_of_string pattern ++ ["%"%char]))
    with (any_suffix (matches (list_ascii_of_string pattern ++ ["%"%char]))).
  apply any_suffix_intro. apply matches_common_prefix. apply matches_percent.
Qed.

(** X9.  For a search text and paths of ASCII bytes other than NUL, on which
    [like.LIKE] is the LIKE of the store, and a search text within the
    store's bound of 50000 bytes on a LIKE pattern: [SearchFiles] returns at
    most [limit] rows (100 when the limit is not positive), in ascending
    byte order of the path, each a row of the table whose path matches the
    search text wrapped in "%"; and when no more rows match than the limit
    allows, every row whose path contains the search text is returned. *)
Theorem SearchFiles_finds_paths_containing (pattern : string) (limit : Z) (d : DB)
        (Hpattern : obs.plain pattern)
        (Hbound : Z.of_nat (String.length pattern) + 2 <= 50000)
        (Hpaths : Forall (fun r => obs.plain (Path r)) (files d)) :
  let found := dbread.SearchFiles pattern limit d in
  let lim := if limit <=? 0 then 100 else limit in
  Z.of_nat (length found) <= lim /\
  StronglySorted (fun a b => String.leb (Path a) (Path b) = true) found /\
  Forall (fun r => In r (files d) /\
                   LIKE (Path r) (String.append "%" (String.append pattern "%")) = true)
         found /\
  (Z.of_nat (length (List.filter (dbread.searchMatches pattern) (files d))) <= lim ->
   forall r pre post,
     In r (files d) -> Path r = String.append pre (String.append pattern post) ->
     In r found).
Proof.
  unfold dbread.SearchFiles. cbv zeta.
  set (lim := if limit <=? 0 then 100 else limit).
  set (rows := order_by byPath _).
  assert (0 < lim) as Hlim by (unfold lim; destruct (limit <=? 0) eqn:E; lia).
  split; [|split; [|split]].
  - pose proof (firstn_le_length (Z.to_nat lim) rows). rewrite length_firstn. lia.
  - apply StronglySorted_firstn.
    exact (order_by_sorted byPath byPath_total byPath_trans _).
  - apply List.Forall_forall. intros r Hr. apply In_firstn in Hr.
    apply order_by_In in Hr. apply List.filter_In in Hr as [Hin Hm]. auto.
  - intros Hfew r pre post Hin Hp.
    rewrite List.firstn_all2.
    + apply order_by_In. apply List.filter_In. split; [exact Hin|].
      unfold dbread.searchMatches. rewrite Hp. apply LIKE_contains.
    + unfold rows.
      rewrite <- (Permutation.Permutation_length (order_by_perm byPath _)). lia.
Qed.

End SearchFacts.

Lemma SearchFiles_finds_paths_containing_witness :
  obs.plain "old" /\
  Forall (fun r => obs.plain (db.FileRecord.Path r)) (db.files fixtures.dbA) /\
  Z.of_nat (length (List.filter (dbread.searchMatches "old")
                                (db.files fixtures.dbA))) <= 100 /\
  In fixtures.rowA (db.files fixtures.dbA) /\
  In fixtures.rowA (dbread.SearchFiles "old" 0 fixtures.dbA).
Proof.
  assert (obs.plain "old") as Hpattern by reflexivity.
  assert (Z.of_nat (String.length "old") + 2 <= 50000) as Hbound by (cbn; lia).
  assert (Forall (fun r => obs.plain (db.FileRecord.Path r)) (db.files fixtures.dbA))
    as Hpaths by (repeat constructor).
  assert (Z.of_nat (length (List.filter (dbread.searchMatches "old")
                                        (db.files fixtures.dbA))) <= 100) as Hfew
      by (vm_compute; discriminate).
  assert (In fixtures.rowA (db.files fixtures.dbA)) as Hin by (left; reflexivity).
  split; [exact Hpattern|]. split; [exact Hpaths|].
  split; [exact Hfew|]. split; [exact Hin|].
  destruct (SearchFiles_finds_paths_containing "old" 0 fixtures.dbA
                                               Hpattern Hbound Hpaths)
    as (_ & _ & _ & Hall).
  exact (Hall Hfew fixtures.rowA "/mnt/disk1/" "/a.txt" Hin eq_refl).
Defined.

(* ===================================================================== *)
(** * Statistics and the history of operations *)
(* ===================================================================== *)

Section StatsFacts.
Import db.
Import db.FileRecord.
Import dbread.

Lemma sumZ_perm (l l' : list Z) : Permutation l l' -> obs.sumZ l = obs.sumZ l'.
Proof. unfold obs.sumZ. induction 1; cbn [fold_right]; lia. Qed.

Lemma sumZ_map_add {K : Type} (g h : K -> Z) (ks : list K) :
  obs.sumZ (map (fun k => g k + h k) ks) = obs.sumZ (map g ks) + obs.sumZ (map h ks).
Proof. unfold obs.sumZ. induction ks as [|k ks IH]; cbn [map fold_right]; lia. Qed.

Lemma sumZ_map_zero {K : Type} (ks : list K) : obs.sumZ (map (fun _ => 0) ks) = 0.
Proof. unfold obs.sumZ. induction ks as [|k ks IH]; cbn [map fold_right]; lia. Qed.

(** Over distinct keys exactly one key is the key of a given row. *)
Lemma sumZ_indicator (x : string) (v : Z) (ks : list string) :
  List.NoDup ks ->
  obs.sumZ (map (fun k => if String.eqb x k then v else 0) ks)
  = if existsb (String.eqb x) ks then v else 0.
Proof.
  unfold obs.sumZ. induction 1 as [|k ks Hk Hnd IH]; [reflexivity|].
  cbn [map fold_right existsb]. rewrite IH.
  destruct (String.eqb x k) eqn:E; cbn [orb]; [|lia].
  apply String.eqb_eq in E. subst k.
  destruct (existsb (String.eqb x) ks) eqn:Ex; [|lia].
  exfalso. apply Hk. apply existsb_exists in Ex as (y & Hy & Exy).
  apply String.eqb_eq in Exy. now subst y.
Qed.

(** Grouping by disk partitions the rows: a quantity summed group by group
    over distinct disk names that cover the rows is the quantity summed
    over all rows. *)
Lemma grouped_total (f : FileRecord.t -> Z) (ks : list string)
      (rows : list FileRecord.t) :
  List.NoDup ks -> (forall r, In r rows -> In (Disk r) ks) ->
  obs.sumZ (map (fun k => obs.total f (onDisk k rows)) ks) = obs.total f rows.
Proof.
  intros Hnd. induction rows as [|r rows IH]; intros Hcover.
  - cbn [onDisk List.filter obs.total fold_right]. apply sumZ_map_zero.
  - rewrite (map_ext _ (fun k => (if String.eqb (Disk r) k then f r else 0)
                                 + obs.total f (onDisk k rows))).
    + rewrite sumZ_map_add, IH by (intros r' Hr'; apply Hcover; now right).
      rewrite (sumZ_indicator _ _ _ Hnd).
      replace (existsb (String.eqb (Disk r)) ks) with true; [reflexivity|].
      symmetry. apply existsb_exists. exists (Disk r). split.
      * apply Hcover. now left.
      * apply String.eqb_refl.
    + intros k. unfold onDisk. cbn [List.filter].
      destruct (String.eqb (Disk r) k); reflexivity.
Qed.

Lemma length_as_total (rows : list FileRecord.t) :
  Z.of_nat (length rows) = obs.total (fun _ => 1) rows.
Proof.
  unfold obs.total. induction rows as [|r rows IH]; cbn [length fold_right]; lia.
Qed.

Lemma countStatus_as_total (status : string) (rows : list FileRecord.t) :
  countStatus status rows
  = obs.total (fun r => if String.eqb (Status r) status then 1 else 0) rows.
Proof.
  unfold countStatus, obs.total.
  induction rows as [|r rows IH]; [reflexivity|].
  cbn [List.filter fold_right]. destruct (String.eqb (Status r) status);
    cbn [length]; lia.
Qed.

Lemma diskNames_cover (rows : list FileRecord.t) (r : FileRecord.t) :
  In r rows -> In (Disk r) (order_by String.leb (diskNames rows)).
Proof.
  intros Hr. apply order_by_In. unfold diskNames. apply List.nodup_In.
  now apply List.in_map.
Qed.

Lemma diskNames_NoDup (rows : list FileRecord.t) :
  List.NoDup (order_by String.leb (diskNames rows)).
Proof.
  eapply Permutation.Permutation_NoDup; [apply order_by_perm|].
  apply List.NoDup_nodup.
Qed.

Lemma GetDiskStats_disks (d : DB) :
  map DiskStats.Disk (GetDiskStats d) = order_by String.leb (diskNames (files d)).
Proof.
  unfold GetDiskStats. rewrite List.map_map. apply map_id_on. reflexivity.
Qed.

(** X10.  The per-disk statistics add up to the statistics of the whole
    catalog: the file counts, the sizes, the corrupted and the missing
    counts of the disks sum to the totals.  Every disk named in the table
    has one line, the lines come in ascending order of the disk name, and
    no line is for a disk without files. *)
Theorem disk_stats_add_up (d : DB) (h : History) :
  let per := GetDiskStats d in
  let all := GetStats d h in
  obs.sumZ (map DiskStats.TotalFiles per) = TotalFiles all /\
  obs.sumZ (map DiskStats.TotalSize per) = TotalSize all /\
  obs.sumZ (map DiskStats.CorruptedFiles per) = CorruptedFiles all /\
  obs.sumZ (map DiskStats.MissingFiles per) = MissingFiles all /\
  List.NoDup (map DiskStats.Disk per) /\
  StronglySorted (fun a b => String.leb a b = true) (map DiskStats.Disk per) /\
  (forall r, In r (files d) -> In (Disk r) (map DiskStats.Disk per)) /\
  Forall (fun s => 0 < DiskStats.TotalFiles s) per.
Proof.
  cbv zeta.
  pose proof (diskNames_NoDup (files d)) as Hnd.
  pose proof (diskNames_cover (files d)) as Hcover.
  rewrite GetDiskStats_disks.
  unfold GetDiskStats, GetStats.
  cbn [TotalFiles TotalSize CorruptedFiles MissingFiles].
  rewrite !List.map_map. unfold groupStats.
  cbn [DiskStats.TotalFiles DiskStats.TotalSize DiskStats.CorruptedFiles
       DiskStats.MissingFiles].
  split; [|split; [|split; [|split; [|split; [|split; [|split]]]]]].
  - rewrite length_as_total.
    rewrite <- (grouped_total (fun _ => 1) _ (files d) Hnd Hcover).
    f_equal. apply map_ext. intros k. apply length_as_total.
  - exact (grouped_total Size _ (files d) Hnd Hcover).
  - rewrite countStatus_as_total.
    rewrite <- (grouped_total _ _ (files d) Hnd Hcover).
    f_equal. apply map_ext. intros k. apply countStatus_as_total.
  - rewrite countStatus_as_total.
    rewrite <- (grouped_total _ _ (files d) Hnd Hcover).
    f_equal. apply map_ext. intros k. apply countStatus_as_total.
  - exact Hnd.
  - exact (order_by_sorted String.leb String.leb_total string_leb_trans _).
  - exact Hcover.
  - apply List.Forall_forall. intros s Hs.
    apply List.in_map_iff in Hs as (k & <- & Hk).
    cbn [DiskStats.TotalFiles].
    apply order_by_In in Hk. unfold diskNames in Hk. apply List.nodup_In in Hk.
    apply List.in_map_iff in Hk as (r & Hr & Hin).
    assert (In r (onDisk k (files d))) as Hg.
    { apply List.filter_In. split; [exact Hin|]. now apply String.eqb_eq. }
    destruct (onDisk k (files d)); [destruct Hg|]. cbn [length]. lia.
Qed.

Lemma fold_maxOpt_snoc (l : list (option Z)) (x : option Z) :
  fold_left maxOpt (l ++ [x]) None = maxOpt (fold_left maxOpt l None) x.
Proof. now rewrite List.fold_left_app. Qed.

(** X11.  The life of an operation in the history: [InsertScanHistory]
    hands out a positive id larger than every id in the table, and a
    [CompleteScanHistory] on that id turns the one new row into a completed
    row with the end time and the counts, leaving all earlier rows as they
    were; the last end time of operations of that type is then the larger
    of the former one and the new end time. *)
Theorem history_insert_then_complete
        (started ended : Z) (scanType diskList : string) (n e : Z) (h : History)
        (Hids : Forall (fun x => id x <= hseq h) (entries h))
        (Hseq : 0 <= hseq h) :
  let scanID := fst (InsertScanHistory started scanType diskList h) in
  let h1 := snd (InsertScanHistory started scanType diskList h) in
  let h2 := CompleteScanHistory ended scanID n e h1 in
  0 < scanID /\
  Forall (fun x => id x < scanID) (entries h) /\
  entries h2
  = entries h ++
    [ {| id := scanID; scan_type := scanType; started_at := started;
         ended_at := Some ended; disks := diskList; files_processed := n;
         errors := e; status := "completed" |} ] /\
  Forall (fun x => id x <= hseq h2) (entries h2) /\
  lastEnded scanType h2 = maxOpt (lastEnded scanType h) (Some ended).
Proof.
  cbv zeta. cbn [InsertScanHistory fst snd].
  assert (Forall (fun x => id x < hseq h + 1) (entries h)) as Hlt.
  { eapply List.Forall_impl; [|exact Hids]. cbn. intros x Hx. lia. }
  assert (entries (CompleteScanHistory ended (hseq h + 1) n e
                     {| entries := entries h ++
                                   [ {| id := hseq h + 1; scan_type := scanType;
                                        started_at := started; ended_at := None;
                                        disks := diskList; files_processed := 0;
                                        errors := 0; status := "running" |} ];
                        hseq := hseq h + 1 |})
          = entries h ++
            [ {| id := hseq h + 1; scan_type := scanType; started_at := started;
                 ended_at := Some ended; disks := diskList; files_processed := n;
                 errors := e; status := "completed" |} ]) as Hent.
  { cbn [CompleteScanHistory entries]. rewrite List.map_app. f_equal.
    - apply map_id_on. intros x Hx. rewrite List.Forall_forall in Hlt.
      specialize (Hlt x Hx). destruct (id x =? hseq h + 1) eqn:E; [|reflexivity].
      apply Z.eqb_eq in E. lia.
    - cbn [map id]. rewrite Z.eqb_refl. reflexivity. }
  split; [lia|]. split; [exact Hlt|]. split; [exact Hent|]. split.
  - rewrite Hent. cbn [CompleteScanHistory hseq]. apply List.Forall_app. split.
    + eapply List.Forall_impl; [|exact Hids]. cbn. intros x Hx. lia.
    + constructor; [cbn; lia|constructor].
  - unfold lastEnded at 1. rewrite Hent.
    rewrite List.filter_app, List.map_app.
    cbn [List.filter scan_type status]. rewrite String.eqb_refl.
    cbn [andb String.eqb Ascii.eqb Bool.eqb map app ended_at].
    apply fold_maxOpt_snoc.
Qed.

End StatsFacts.

Lemma history_insert_then_complete_witness :
  let h := {| dbread.entries := []; dbread.hseq := 0 |} in
  Forall (fun x => dbread.id x <= dbread.hseq h) (dbread.entries h) /\
  0 <= dbread.hseq h /\
  dbread.lastEnded "verify"
    (dbread.CompleteScanHistory 90 1 3 0
       (snd (dbread.InsertScanHistory 60 "verify" "" h)))
  = Some 90.
Proof.
  cbv zeta.
  assert (Forall (fun x => dbread.id x <= 0) (@nil dbread.ScanEntry)) as Hids
      by constructor.
  split; [exact Hids|]. split; [cbn; lia|].
  destruct (history_insert_then_complete
              60 90 "verify" "" 3 0 {| dbread.entries := []; dbread.hseq := 0 |}
              Hids (Z.le_refl 0)) as (_ & _ & _ & _ & Hlast).
  exact Hlast.
Defined.

(* ===================================================================== *)
(** * The scanner: patterns, the walk, disk names *)
(* ===================================================================== *)

Section ScannerFacts.
Import scanner.
Import hasher.

Lemma compileAll_spec (compile : string -> option Regexp) (patterns : list string) :
  match compileAll compile patterns with
  | Some res => Forall2 (fun p re => compile p = Some re) patterns res
  | None => exists p, In p patterns /\ compile p = None
  end.
Proof.
  induction patterns as [|p patterns IH]; cbn [compileAll]; [constructor|].
  destruct (compile p) as [re|] eqn:Ep.
  - destruct (compileAll compile patterns) as [res|].
    + now constructor.
    + destruct IH as (q & Hq & Eq). exists q. split; [now right|exact Eq].
  - exists p. split; [now left|exact Ep].
Qed.

Lemma existsb_Forall2 (path : string) (compile : string -> option Regexp)
      (patterns : list string) (res : list Regexp) :
  Forall2 (fun p re => compile p = Some re) patterns res ->
  existsb (fun re => re path) res = true <->
  exists p re, In p patterns /\ compile p = Some re /\ re path = true.
Proof.
  induction 1 as [|p re patterns res Hp Hrest IH]; cbn [existsb].
  - split; [discriminate|]. intros (p & re & [] & _).
  - rewrite orb_true_iff, IH. split.
    + intros [H|(q & rq & Hq & Eq & Hm)].
      * exists p, re. split; [now left|auto].
      * exists q, rq. split; [now right|auto].
    + intros (q & rq & [<-|Hq] & Eq & Hm).
      * left. congruence.
      * right. exists q, rq. auto.
Qed.

(** X12.  [scanner.New] fails exactly when some pattern does not compile.
    When it succeeds the scanner holds the compiled patterns one for one, in
    the order given, and treats a path as excluded exactly when one of the
    patterns matches it. *)
Theorem scanner_New_compiles_every_pattern
        (compile : string -> option Regexp) (patterns : list string) :
  match scanner.New compile patterns with
  | Some s =>
      Forall2 (fun p re => compile p = Some re) patterns (excludePatterns s) /\
      forall path, excluded s path = true <->
                   exists p re, In p patterns /\ compile p = Some re /\ re path = true
  | None => exists p, In p patterns /\ compile p = None
  end.
Proof.
  unfold scanner.New. pose proof (compileAll_spec compile patterns) as H.
  destruct (compileAll compile patterns) as [res|]; [|exact H].
  cbn [excludePatterns]. split; [exact H|].
  intros path. unfold excluded. cbn [excludePatterns].
  now apply existsb_Forall2.
Qed.

Lemma prefix_refl (s : string) : String.prefix s s = true.
Proof.
  induction s as [|c s IH]; [reflexivity|]. simpl.
  destruct (ascii_dec c c); [exact IH|congruence].
Qed.

Lemma prefix_append (s t : string) : String.prefix s (String.append s t) = true.
Proof.
  induction s as [|c s IH]; [now destruct t|]. simpl.
  destruct (ascii_dec c c); [exact IH|congruence].
Qed.

Lemma prefix_trans (a b c : string) :
  String.prefix a b = true -> String.prefix b c = true -> String.prefix a c = true.
Proof.
  revert b c. induction a as [|x a IH]; intros [|y b] [|z c]; simpl; try congruence.
  destruct (ascii_dec x y), (ascii_dec y z); try congruence. subst.
  destruct (ascii_dec z z); [|congruence]. apply IH.
Qed.

Lemma prefix_Join (dir name : string) :
  String.prefix dir (filepath.Join dir name) = true.
Proof.
  unfold filepath.Join. destruct (String.eqb dir "/") eqn:E.
  - apply String.eqb_eq in E. subst dir. apply prefix_append.
  - apply prefix_append.
Qed.

Lemma walkDir_under (s : Scanner) (disk : string) (d : os.DirEntry) :
  forall (path : string) (fi : FileInfo.t),
    In fi (walkDir s disk path d) -> String.prefix path (FileInfo.Path fi) = true.
Proof.
  induction d as [name entries IH|name regular info] using DirEntry_nested_ind;
    intros path fi Hin; cbn [walkDir] in Hin.
  - destruct (excluded s path); [destruct Hin|].
    apply in_flat_map in Hin as (d1 & Hd1 & Hin).
    rewrite List.Forall_forall in IH. apply (IH d1 Hd1) in Hin.
    eapply prefix_trans; [apply prefix_Join|exact Hin].
  - destruct regular; cbn [negb] in Hin; [|destruct Hin].
    destruct (excluded s path); [destruct Hin|].
    destruct info as [[size mtime]|]; [|destruct Hin].
    destruct (size =? 0); [destruct Hin|].
    destruct Hin as [<-|[]]. apply prefix_refl.
Qed.

(** X13.  From a root that is absolute and clean, as [scanCmd] passes it,
    every descriptor the Walker emits is for a path that begins with the
    root, and carries the disk label the Walker was given. *)
Theorem Walk_stays_under_root (s : Scanner) (w : os.World) (root disk : string)
        (fi : FileInfo.t)
        (Hroot : obs.cleanAbs root = true)
        (Hin : In fi (Walk s w root disk)) :
  String.prefix root (FileInfo.Path fi) = true /\ FileInfo.Disk fi = disk.
Proof.
  split.
  - unfold Walk in Hin. destruct (os.Lstat w root) as [d|]; [|destruct Hin].
    now apply walkDir_under in Hin.
  - now apply Walk_nonzero in Hin.
Qed.

Lemma reaches_weaken (s s' : Scanner) (p : string) (d : os.DirEntry)
      (q : string) (e : os.DirEntry) :
  (forall path, excluded s path = true -> excluded s' path = true) ->
  reaches s' p d q e -> reaches s p d q e.
Proof.
  intros Hmore. induction 1 as [|p name entries d1 q e Hex Hd1 Hr IH].
  - constructor.
  - eapply reaches_below; [|exact Hd1|exact IH].
    destruct (excluded s p) eqn:E; [|reflexivity].
    apply Hmore in E. congruence.
Qed.

(** X14.  Excluding more never adds a file: when every path excluded by one
    scanner is also excluded by another, everything the second emits from a
    root is emitted by the first as well.  Patterns added to a list of
    patterns exclude more in this sense. *)
Theorem Walk_more_exclusions_emit_less
        (s s' : Scanner) (w : os.World) (root disk : string)
        (Hmore : forall path, excluded s path = true -> excluded s' path = true) :
  incl (Walk s' w root disk) (Walk s w root disk) /\
  forall more, (forall path,
                   excluded s path = true ->
                   excluded {| excludePatterns := excludePatterns s ++ more |} path = true).
Proof.
  split.
  - intros fi Hin. unfold Walk in *.
    destruct (os.Lstat w root) as [d|]; [|destruct Hin].
    apply walkDir_wanted in Hin as (n & size & mtime & Hr & Hex & Hrest).
    apply walkDir_wanted. exists n, size, mtime. split.
    + eapply reaches_weaken; eauto.
    + split; [|exact Hrest].
      destruct (excluded s (FileInfo.Path fi)) eqn:E; [|reflexivity].
      apply Hmore in E. congruence.
  - intros more path Hex. unfold excluded in *. cbn [excludePatterns].
    apply existsb_exists in Hex as (re & Hre & Hm).
    apply existsb_exists. exists re. split; [|exact Hm].
    apply in_or_app. now left.
Qed.

End ScannerFacts.

Lemma Walk_stays_under_root_witness :
  obs.cleanAbs "/mnt/disk2" = true /\
  In {| hasher.FileInfo.Path := "/mnt/disk2/new/a.txt"; hasher.FileInfo.Disk := "disk2";
        hasher.FileInfo.Size := 12; hasher.FileInfo.Mtime := 100 |}
     (scanner.Walk fixtures.excludeTmp fixtures.worldMoved "/mnt/disk2" "disk2") /\
  String.prefix "/mnt/disk2" "/mnt/disk2/new/a.txt" = true.
Proof.
  assert (In {| hasher.FileInfo.Path := "/mnt/disk2/new/a.txt";
                hasher.FileInfo.Disk := "disk2";
                hasher.FileInfo.Size := 12; hasher.FileInfo.Mtime := 100 |}
             (scanner.Walk fixtures.excludeTmp fixtures.worldMoved "/mnt/disk2" "disk2"))
    as Hin by (left; reflexivity).
  split; [reflexivity|]. split; [exact Hin|].
  exact (proj1 (Walk_stays_under_root fixtures.excludeTmp fixtures.worldMoved
                                      "/mnt/disk2" "disk2" _ eq_refl Hin)).
Defined.

Lemma Walk_more_exclusions_emit_less_witness :
  (forall path, scanner.excluded fixtures.noExcludes path = true ->
                scanner.excluded fixtures.excludeTmp path = true) /\
  incl (scanner.Walk fixtures.excludeTmp fixtures.worldMoved "/mnt/disk2" "disk2")
       (scanner.Walk fixtures.noExcludes fixtures.worldMoved "/mnt/disk2" "disk2").
Proof.
  assert (forall path, scanner.excluded fixtures.noExcludes path = true ->
                       scanner.excluded fixtures.excludeTmp path = true) as Hmore
      by (intros path H; discriminate H).
  split; [exact Hmore|].
  exact (proj1 (Walk_more_exclusions_emit_less
                  fixtures.noExcludes fixtures.excludeTmp fixtures.worldMoved
                  "/mnt/disk2" "disk2" Hmore)).
Defined.

Section DiskNameFacts.
Import resolve.

Lemma trimPrefix_app (p s : list ascii) : trimPrefix p (p ++ s) = Some s.
Proof.
  induction p as [|c p IH]; [now destruct s|]. cbn [app trimPrefix].
  now rewrite Ascii.eqb_refl.
Qed.

Lemma trimPrefix_Some (p s r : list ascii) : trimPrefix p s = Some r -> s = p ++ r.
Proof.
  revert s. induction p as [|c p IH]; intros s H.
  - destruct s; inversion H; reflexivity.
  - destruct s as [|x s]; [discriminate|]. cbn [trimPrefix] in H.
    destruct (Ascii.eqb c x) eqn:E; [|discriminate].
    apply Ascii.eqb_eq in E. subst x. cbn [app]. f_equal. now apply IH.
Qed.

Lemma takeElem_stops (name tail : list ascii) :
  obs.noSlash name -> tail = [] \/ (exists t, tail = filepath.slash :: t) ->
  filepath.takeElem (name ++ tail) = name.
Proof.
  intros Hns Htail. induction Hns as [|c name Hc Hns IH]; cbn [app].
  - destruct Htail as [->|(t & ->)]; [reflexivity|].
    cbn [filepath.takeElem]. now rewrite Ascii.eqb_refl.
  - cbn [filepath.takeElem]. rewrite Hc. now f_equal.
Qed.

Lemma digits_noSlash (s : list ascii) : forallb isDigit s = true -> obs.noSlash s.
Proof.
  unfold obs.noSlash. rewrite forallb_forall, List.Forall_forall.
  intros H c Hc. specialize (H c Hc). apply Ascii.eqb_neq. intros ->.
  discriminate H.
Qed.

(** The names [diskPattern] and [cachePattern] accept contain no slash. *)
Lemma pattern_noSlash (name : string) :
  diskPattern name || cachePattern name = true ->
  obs.noSlash (list_ascii_of_string name).
Proof.
  intros H. apply orb_true_iff in H as [H|H].
  - unfold diskPattern in H.
    destruct (trimPrefix (list_ascii_of_string "disk") (list_ascii_of_string name))
      as [[|c rest]|] eqn:E; try discriminate.
    apply trimPrefix_Some in E. rewrite E. apply List.Forall_app. split.
    + repeat constructor.
    + now apply digits_noSlash.
  - unfold cachePattern in H.
    destruct (trimPrefix (list_ascii_of_string "cache") (list_ascii_of_string name))
      as [rest|] eqn:E; try discriminate.
    apply trimPrefix_Some in E. rewrite E. apply List.Forall_app. split.
    + repeat constructor.
    + now apply digits_noSlash.
Qed.

Lemma append_empty_r (s : string) : String.append s "" = s.
Proof.
  induction s as [|c s IH]; [reflexivity|].
  change (String c (String.append s "") = String c s). now f_equal.
Qed.

Lemma firstUnderMnt_name (name tail : string) :
  obs.noSlash (list_ascii_of_string name) ->
  tail = "" \/ (exists t, tail = String "/" t) ->
  firstUnderMnt (String.append "/mnt/" (String.append name tail)) = Some name.
Proof.
  intros Hns Htail. unfold firstUnderMnt. rewrite !list_ascii_app, trimPrefix_app.
  rewrite takeElem_stops.
  - now rewrite string_of_list_ascii_of_string.
  - exact Hns.
  - destruct Htail as [->|(t & ->)]; [now left|right].
    now exists (list_ascii_of_string t).
Qed.

(** X15.  For a path "/mnt/<name>" or "/mnt/<name>/..." whose <name> is the
    name of an array disk or of a cache pool, [ResolveDisk] answers <name>
    at once, whatever the scan root is and without resolving any link. *)
Theorem ResolveDisk_names_the_disk
        (evalSymlinks : string -> option string) (fuel : nat)
        (name tail scanRoot : string)
        (Hname : diskPattern name || cachePattern name = true)
        (Htail : tail = "" \/ (exists t, tail = String "/" t)) :
  ResolveDisk evalSymlinks (S fuel) (String.append "/mnt/" (String.append name tail))
              scanRoot
  = Some name.
Proof.
  cbn [ResolveDisk].
  rewrite (firstUnderMnt_name name tail (pattern_noSlash name Hname) Htail).
  now rewrite Hname.
Qed.

Lemma ResolveDisk_fixed (evalSymlinks : string -> option string) (fuel : nat)
      (p scanRoot : string) :
  evalSymlinks p = Some p ->
  ResolveDisk evalSymlinks (S fuel) p scanRoot = ResolveDisk evalSymlinks 1 p scanRoot /\
  ResolveDisk evalSymlinks 1 p scanRoot <> None.
Proof.
  intros Hfix. cbn [ResolveDisk].
  destruct (firstUnderMnt p) as [name|]; [|split; [reflexivity|discriminate]].
  destruct (diskPattern name || cachePattern name);
    [split; [reflexivity|discriminate]|].
  destruct (String.prefix "/mnt/user/" p || String.prefix "/mnt/user0/" p);
    [|split; [reflexivity|discriminate]].
  rewrite Hfix, String.eqb_refl. split; [reflexivity|discriminate].
Qed.

(** X16.  When resolving links yields a path that resolving leaves as it is,
    [ResolveDisk] calls itself at most once: two steps always give an
    answer, more steps give the same answer, and the answer is the name of
    an array disk or of a cache pool, or the base name of the scan root. *)
Theorem ResolveDisk_settles
        (evalSymlinks : string -> option string) (filePath scanRoot : string)
        (Hresolved : forall p q, evalSymlinks p = Some q -> evalSymlinks q = Some q)
        (fuel : nat) :
  exists disk,
    ResolveDisk evalSymlinks 2 filePath scanRoot = Some disk /\
    ResolveDisk evalSymlinks (S (S fuel)) filePath scanRoot = Some disk /\
    (diskPattern disk || cachePattern disk = true \/ disk = filepath.Base scanRoot).
Proof.
  assert (forall k p, ResolveDisk evalSymlinks (S k) p scanRoot = None \/
                      exists disk, ResolveDisk evalSymlinks (S k) p scanRoot = Some disk /\
                                   (diskPattern disk || cachePattern disk = true \/
                                    disk = filepath.Base scanRoot)) as Hrange.
  { induction k as [|k IH]; intros p; cbn [ResolveDisk].
    - destruct (firstUnderMnt p) as [name|]; [|right; eauto].
      destruct (diskPattern name || cachePattern name) eqn:En; [right; eauto|].
      destruct (String.prefix "/mnt/user/" p || String.prefix "/mnt/user0/" p);
        [|right; eauto].
      destruct (evalSymlinks p) as [q|]; [|right; eauto].
      destruct (String.eqb q p); [right; eauto|now left].
    - destruct (firstUnderMnt p) as [name|]; [|right; eauto].
      destruct (diskPattern name || cachePattern name) eqn:En; [right; eauto|].
      destruct (String.prefix "/mnt/user/" p || String.prefix "/mnt/user0/" p);
        [|right; eauto].
      destruct (evalSymlinks p) as [q|]; [|right; eauto].
      destruct (String.eqb q p); [right; eauto|apply IH]. }
  assert (ResolveDisk evalSymlinks (S (S fuel)) filePath scanRoot
          = ResolveDisk evalSymlinks 2 filePath scanRoot /\
          ResolveDisk evalSymlinks 2 filePath scanRoot <> None) as [Hsame Hsome].
  { cbn [ResolveDisk].
    destruct (firstUnderMnt filePath) as [name|]; [|split; [reflexivity|discriminate]].
    destruct (diskPattern name || cachePattern name);
      [split; [reflexivity|discriminate]|].
    destruct (String.prefix "/mnt/user/" filePath || String.prefix "/mnt/user0/" filePath);
      [|split; [reflexivity|discriminate]].
    destruct (evalSymlinks filePath) as [q|] eqn:Eq; [|split; [reflexivity|discriminate]].
    destruct (String.eqb q filePath); [split; [reflexivity|discriminate]|].
    pose proof (ResolveDisk_fixed evalSymlinks fuel q scanRoot (Hresolved _ _ Eq))
      as [H1 H2].
    split; [exact H1|exact H2]. }
  destruct (Hrange 1%nat filePath) as [Hnone|(disk & Hd & Hkind)]; [congruence|].
  exists disk. split; [exact Hd|]. split; [congruence|exact Hkind].
Qed.

Lemma byName_total (a b : scanner.DiskInfo) : byName a b = true \/ byName b a = true.
Proof.
  unfold byName.
  destruct (String.leb_total (scanner.Name a) (scanner.Name b)) as [H|H]; auto.
Qed.

Lemma byName_trans (a b c : scanner.DiskInfo) :
  byName a b = true -> byName b c = true -> byName a c = true.
Proof. unfold byName. apply string_leb_trans. Qed.

(** X17.  When "/mnt" can be read, [DetectUnraidDisks] returns one disk for
    every entry that is a directory named like an array disk or a cache
    pool, readable and not empty, and nothing else; the disks come in
    ascending order of their names, each with the path "/mnt/<name>" and the
    type detected for that path; and [ResolveDisk] labels the path of a
    detected disk, and every path below it, with the name of that disk. *)
Theorem DetectUnraidDisks_lists_mounted_disks
        (detectDiskType : string -> scanner.DiskType) (entries : list MntEntry) :
  match DetectUnraidDisks detectDiskType (Some entries) with
  | None => False
  | Some found =>
      StronglySorted (fun a b => String.leb (scanner.Name a) (scanner.Name b) = true)
                     found /\
      Permutation (map scanner.Name found) (map ename (List.filter mounted entries)) /\
      Forall (fun dk =>
                diskPattern (scanner.Name dk) || cachePattern (scanner.Name dk) = true /\
                scanner.Path dk = String.append "/mnt/" (scanner.Name dk) /\
                scanner.Type_ dk = detectDiskType (scanner.Path dk) /\
                forall evalSymlinks fuel scanRoot t,
                  ResolveDisk evalSymlinks (S fuel) (scanner.Path dk) scanRoot
                  = Some (scanner.Name dk) /\
                  ResolveDisk evalSymlinks (S fuel)
                              (String.append (scanner.Path dk) (String "/" t)) scanRoot
                  = Some (scanner.Name dk))
             found
  end.
Proof.
  cbn [DetectUnraidDisks]. split; [|split].
  - exact (order_by_sorted byName byName_total byName_trans _).
  - eapply Permutation_trans.
    + apply Permutation_map. apply Permutation_sym. apply order_by_perm.
    + rewrite List.map_map. apply Permutation_refl.
  - apply List.Forall_forall. intros dk Hdk. apply order_by_In in Hdk.
    apply List.in_map_iff in Hdk as (e & <- & He).
    apply List.filter_In in He as [_ Hm]. unfold mounted in Hm.
    apply andb_true_iff in Hm as [Hm _]. apply andb_true_iff in Hm as [_ Hname].
    cbn [toDisk scanner.Name scanner.Path scanner.Type_].
    split; [exact Hname|]. split; [reflexivity|]. split; [reflexivity|].
    intros evalSymlinks fuel scanRoot t.
    pose proof (pattern_noSlash (ename e) Hname) as Hns.
    split; cbn [ResolveDisk].
    + replace (filepath.Join "/mnt" (ename e))
        with (String.append "/mnt/" (String.append (ename e) ""))
        by (now rewrite append_empty_r).
      rewrite (firstUnderMnt_name (ename e) "" Hns (or_introl eq_refl)).
      now rewrite Hname.
    + change (String.append (filepath.Join "/mnt" (ename e)) (String "/" t))
        with (String.append "/mnt/" (String.append (ename e) (String "/" t))).
      rewrite (firstUnderMnt_name (ename e) (String "/" t) Hns
                 (or_intror (ex_intro _ t eq_refl))).
      now rewrite Hname.
Qed.

End DiskNameFacts.

Lemma ResolveDisk_names_the_disk_witness :
  resolve.diskPattern "disk12" || resolve.cachePattern "disk12" = true /\
  resolve.ResolveDisk (fun _ => None) 1 "/mnt/disk12/movies/a.mkv" "/mnt/disk12/movies"
  = Some "disk12".
Proof.
  split; [reflexivity|].
  exact (ResolveDisk_names_the_disk (fun _ => None) 0 "disk12" "/movies/a.mkv"
           "/mnt/disk12/movies" eq_refl
           (or_intror (ex_intro _ "movies/a.mkv" eq_refl))).
Defined.

Lemma ResolveDisk_settles_witness :
  let ev := fun p : string =>
              if String.eqb p "/mnt/user/movies/a.mkv"
              then Some "/mnt/disk3/movies/a.mkv" else Some p in
  (forall p q, ev p = Some q -> ev q = Some q) /\
  resolve.ResolveDisk ev 2 "/mnt/user/movies/a.mkv" "/mnt/user/movies" = Some "disk3" /\
  resolve.ResolveDisk ev 7 "/mnt/user/movies/a.mkv" "/mnt/user/movies" = Some "disk3".
Proof.
  cbv zeta.
  set (ev := fun p : string =>
               if String.eqb p "/mnt/user/movies/a.mkv"
               then Some "/mnt/disk3/movies/a.mkv" else Some p).
  assert (forall p q, ev p = Some q -> ev q = Some q) as Hres.
  { intros p q. unfold ev. destruct (String.eqb p "/mnt/user/movies/a.mkv") eqn:E.
    - intros H. inversion H. reflexivity.
    - intros H. inversion H. subst q. now rewrite E. }
  split; [exact Hres|].
  destruct (ResolveDisk_settles ev "/mnt/user/movies/a.mkv" "/mnt/user/movies" Hres 5)
    as (disk & H2 & H7 & _).
  assert (disk = "disk3") as -> by (vm_compute in H2; congruence).
  split; [exact H2|exact H7].
Defined.

(* ===================================================================== *)
(** * The verifier: accounting, what is written, what is left alone *)
(* ===================================================================== *)

Section VerifierAccounting.
Import verifier.
Import hasher.
Import db.

Lemma reportedAs_snoc (status : string) (calls : list VerifyResult.t)
      (vr : VerifyResult.t) :
  obs.reportedAs status (calls ++ [vr])
  = obs.reportedAs status calls
    + (if String.eqb (VerifyResult.Status vr) status then 1 else 0).
Proof.
  unfold obs.reportedAs. rewrite List.filter_app, length_app. cbn [List.filter].
  destruct (String.eqb (VerifyResult.Status vr) status); cbn [length]; lia.
Qed.

Lemma length_snoc_Z {A : Type} (l : list A) (a : A) :
  Z.of_nat (length (l ++ [a])) = Z.of_nat (length l) + 1.
Proof. rewrite length_app. cbn [length]. lia. Qed.

Lemma agrees_snoc (s : Summary.t) (calls : list VerifyResult.t) (vr : VerifyResult.t)
      (ok corrupted missing errors : Z) :
  obs.summaryAgrees s calls ->
  ok = (if String.eqb (VerifyResult.Status vr) "ok" then 1 else 0) ->
  corrupted = (if String.eqb (VerifyResult.Status vr) "corrupted" then 1 else 0) ->
  missing = (if String.eqb (VerifyResult.Status vr) "missing" then 1 else 0) ->
  ok + corrupted + missing = 1 ->
  obs.summaryAgrees (bump 1 ok corrupted missing errors s) (calls ++ [vr]).
Proof.
  intros (Hok & Hc & Hm & Ht & Hsum & Hk) -> -> -> Hone.
  unfold obs.summaryAgrees, bump.
  cbn [Summary.OK Summary.Corrupted Summary.Missing Summary.TotalChecked].
  rewrite !reportedAs_snoc, length_snoc_Z.
  split; [lia|]. split; [lia|]. split; [lia|]. split; [lia|]. split; [lia|].
  apply List.Forall_app. split; [exact Hk|]. constructor; [|constructor].
  unfold obs.knownStatus.
  destruct (String.eqb (VerifyResult.Status vr) "ok") eqn:E1;
    [apply String.eqb_eq in E1; auto|].
  destruct (String.eqb (VerifyResult.Status vr) "corrupted") eqn:E2;
    [apply String.eqb_eq in E2; auto|].
  destruct (String.eqb (VerifyResult.Status vr) "missing") eqn:E3;
    [apply String.eqb_eq in E3; auto|].
  lia.
Qed.

Lemma bump_bump (t o c m e o' c' m' e' : Z) (s : Summary.t) :
  bump 0 o' c' m' e' (bump t o c m e s) = bump t (o + o') (c + c') (m + m') (e + e') s.
Proof. unfold bump. cbn. f_equal; lia. Qed.

Lemma collectOne_agrees (clock : Z -> Z) (sm : gmap string FileRecord.t)
      (st : Run) (result : Result.t) (stored : FileRecord.t) :
  sm !! Result.Path result = Some stored ->
  obs.summaryAgrees (summary st) (calls st) ->
  obs.summaryAgrees (summary (collectOne clock sm true st result))
                    (calls (collectOne clock sm true st result)).
Proof.
  intros Hsm Hag. unfold collectOne. rewrite Hsm. unfold classify, call.
  destruct (Result.Err result) as [e|].
  - cbn [summary calls]. rewrite bump_bump.
    apply agrees_snoc; try reflexivity; try lia. exact Hag.
  - destruct (String.eqb (Result.SHA256 result) (FileRecord.SHA256 stored)).
    + cbn [summary calls]. rewrite bump_bump.
      apply agrees_snoc; try reflexivity; try lia. exact Hag.
    + cbn [summary calls]. rewrite bump_bump.
      apply agrees_snoc; try reflexivity; try lia. exact Hag.
Qed.

Lemma missingOne_agrees (clock : Z -> Z) (sm : gmap string FileRecord.t)
      (st : Run) (path : string) :
  obs.summaryAgrees (summary st) (calls st) ->
  obs.summaryAgrees (summary (missingOne clock sm true st path))
                    (calls (missingOne clock sm true st path)).
Proof.
  intros Hag. unfold missingOne, call. cbn [summary calls].
  apply agrees_snoc; try reflexivity; try lia. exact Hag.
Qed.

(** Every path of the list has an entry in the stored map. *)
Lemma storedMap_has (files : list FileRecord.t) (m : gmap string FileRecord.t)
      (p : string) :
  is_Some (m !! p) \/ In p (map FileRecord.Path files) ->
  is_Some (fold_left (fun m f => <[FileRecord.Path f := f]> m) files m !! p).
Proof.
  revert m. induction files as [|f files IH]; intros m H; cbn [fold_left].
  - destruct H as [H|[]]; exact H.
  - apply IH. destruct H as [H|[H|H]].
    + left. destruct (decide (FileRecord.Path f = p)) as [->|Hne].
      * rewrite lookup_insert_eq. eauto.
      * now rewrite lookup_insert_ne.
    + left. rewrite H, lookup_insert_eq. eauto.
    + now right.
Qed.

Lemma pool_results_stored (v : Verifier) (w : os.World) (files : list FileRecord.t)
      (output : list Result.t) :
  Permutation output
              (HashFiles (hasher.New (verifier.workers v)) w (input (feeder v w files))) ->
  Forall (fun r => is_Some (buildStoredMap files !! Result.Path r)) output.
Proof.
  intros Hperm. apply List.Forall_forall. intros r Hr.
  apply storedMap_has. right.
  assert (In (Result.Path r) (map Result.Path output)) as Hp by now apply List.in_map.
  apply (Permutation_in _ (Permutation_map Result.Path Hperm)) in Hp.
  rewrite hashed_paths in Hp.
  apply List.in_map_iff in Hp as (f & <- & Hf). apply List.in_map.
  now apply List.filter_In in Hf.
Qed.

Lemma collect_agrees (clock : Z -> Z) (sm : gmap string FileRecord.t)
      (output : list Result.t) (st : Run) :
  Forall (fun r => is_Some (sm !! Result.Path r)) output ->
  obs.summaryAgrees (summary st) (calls st) ->
  obs.summaryAgrees (summary (fold_left (collectOne clock sm true) output st))
                    (calls (fold_left (collectOne clock sm true) output st)).
Proof.
  intros Hall. revert st. induction Hall as [|r output [stored Hr] Hall IH];
    intros st Hag; cbn [fold_left]; [exact Hag|].
  apply IH. eapply collectOne_agrees; eauto.
Qed.

Lemma missing_agrees (clock : Z -> Z) (sm : gmap string FileRecord.t)
      (paths : list string) (st : Run) :
  obs.summaryAgrees (summary st) (calls st) ->
  obs.summaryAgrees (summary (fold_left (missingOne clock sm true) paths st))
                    (calls (fold_left (missingOne clock sm true) paths st)).
Proof.
  revert st. induction paths as [|p paths IH]; intros st Hag; cbn [fold_left];
    [exact Hag|].
  apply IH. now apply missingOne_agrees.
Qed.

Lemma verify_agrees (v : Verifier) (w : os.World) (clock : Z -> Z)
      (files : list FileRecord.t) (output : list Result.t) (d : DB) :
  Permutation output
              (HashFiles (hasher.New (verifier.workers v)) w (input (feeder v w files))) ->
  obs.summaryAgrees (summary (verifyFilesFrom v w clock true files output d))
                    (calls (verifyFilesFrom v w clock true files output d)).
Proof.
  intros Hperm. unfold verifyFilesFrom. cbv zeta. cbn [summary calls].
  set (st2 := fold_left (missingOne _ _ _) _ _).
  assert (obs.summaryAgrees (summary st2) (calls st2)) as Hag.
  { apply missing_agrees. apply collect_agrees.
    - now apply (pool_results_stored v w).
    - unfold obs.summaryAgrees, emptySummary, obs.reportedAs. cbn.
      repeat split; try lia. constructor. }
  exact Hag.
Qed.

(** X18.  The summary of a verify run agrees with what the callback was
    given, whatever the order in which the pool delivers: the counters OK,
    Corrupted and Missing are the numbers of results reported with these
    statuses, TotalChecked is the number of results reported and the sum of
    the three counters, and no result carries any other status.  (The
    counter Errors is left out: it also counts status updates that fail.) *)
Theorem verify_summary_agrees_with_reports
        (v : Verifier) (w : os.World) (clock : Z -> Z)
        (files : list FileRecord.t) (output : list Result.t) (d : DB)
        (Hperm : Permutation output
                   (HashFiles (hasher.New (verifier.workers v)) w
                              (input (feeder v w files)))) :
  let run := verifyFilesFrom v w clock true files output d in
  Summary.OK (summary run) = obs.reportedAs "ok" (calls run) /\
  Summary.Corrupted (summary run) = obs.reportedAs "corrupted" (calls run) /\
  Summary.Missing (summary run) = obs.reportedAs "missing" (calls run) /\
  Summary.TotalChecked (summary run) = Z.of_nat (length (calls run)) /\
  Summary.TotalChecked (summary run)
  = Summary.OK (summary run) + Summary.Corrupted (summary run)
    + Summary.Missing (summary run) /\
  Forall obs.knownStatus (calls run).
Proof.
  cbv zeta. unfold verifyFilesFrom. cbv zeta. cbn [summary calls].
  set (st2 := fold_left (missingOne _ _ _) _ _).
  assert (obs.summaryAgrees (summary st2) (calls st2)) as Hag.
  { apply missing_agrees. apply collect_agrees.
    - now apply (pool_results_stored v w).
    - unfold obs.summaryAgrees, emptySummary, obs.reportedAs. cbn.
      repeat split; try lia. constructor. }
  unfold obs.summaryAgrees in Hag. unfold setSkipped.
  cbn [Summary.OK Summary.Corrupted Summary.Missing Summary.TotalChecked].
  exact Hag.
Qed.

End VerifierAccounting.

Section VerifierWrites.
Import verifier.
Import hasher.
Import db.

Lemma status_content (now : Z) (path status : string) (d : DB) :
  map obs.content (files (UpdateStatusTx now path status d)) = map obs.content (files d) /\
  seq (UpdateStatusTx now path status d) = seq d.
Proof.
  split; [|reflexivity]. cbn [UpdateStatusTx files]. apply map_map_same.
  intros r. now destruct (hasPath path r).
Qed.

Lemma collectOne_content (clock : Z -> Z) (sm : gmap string FileRecord.t) (cb : bool)
      (st : Run) (result : Result.t) :
  map obs.content (files (tx (collectOne clock sm cb st result)))
  = map obs.content (files (tx st)) /\
  seq (tx (collectOne clock sm cb st result)) = seq (tx st).
Proof.
  unfold collectOne. destruct (sm !! Result.Path result) as [stored|]; [|now split].
  destruct (Result.Err result).
  - cbn [tx]. apply status_content.
  - destruct (String.eqb (Result.SHA256 result) (FileRecord.SHA256 stored));
      cbn [tx]; apply status_content.
Qed.

(** X19.  A verify run writes nothing but [status] and [last_verified]:
    whatever results arrive and in whatever order, with or without a
    callback, the catalog afterwards has the same rows in the same order
    with the same ids, paths, disks, sizes, modification times, digests and
    first-seen values, and the same id counter.  No row is added, removed or
    re-keyed, and no stored digest is replaced by a new one. *)
Theorem verify_changes_only_status
        (v : Verifier) (w : os.World) (clock : Z -> Z) (cb : bool)
        (files : list FileRecord.t) (output : list Result.t) (disk : string) (d : DB) :
  map obs.content (db.files (tx (verifyFilesFrom v w clock cb files output d)))
  = map obs.content (db.files d) /\
  seq (tx (verifyFilesFrom v w clock cb files output d)) = seq d /\
  map obs.content (db.files (tx (VerifyAll v w clock cb d))) = map obs.content (db.files d) /\
  map obs.content (db.files (tx (VerifyDisk v w clock disk cb d)))
  = map obs.content (db.files d).
Proof.
  assert (forall files output,
             map obs.content (db.files (tx (verifyFilesFrom v w clock cb files output d)))
             = map obs.content (db.files d) /\
             seq (tx (verifyFilesFrom v w clock cb files output d)) = seq d) as Hgen.
  { clear files output. intros files output.
    unfold verifyFilesFrom. cbv zeta. cbn [tx].
    set (sm := buildStoredMap files).
    assert (forall outs st,
               map obs.content (db.files (tx (fold_left (collectOne clock sm cb) outs st)))
               = map obs.content (db.files (tx st)) /\
               seq (tx (fold_left (collectOne clock sm cb) outs st)) = seq (tx st))
      as Hcollect.
    { induction outs as [|r outs IH]; intros st; cbn [fold_left]; [now split|].
      destruct (IH (collectOne clock sm cb st r)) as [H1 H2].
      destruct (collectOne_content clock sm cb st r) as [H3 H4].
      split; congruence. }
    assert (forall paths st,
               map obs.content (db.files (tx (fold_left (missingOne clock sm cb) paths st)))
               = map obs.content (db.files (tx st)) /\
               seq (tx (fold_left (missingOne clock sm cb) paths st)) = seq (tx st))
      as Hmissing.
    { induction paths as [|p paths IH]; intros st; cbn [fold_left]; [now split|].
      destruct (IH (missingOne clock sm cb st p)) as [H1 H2].
      destruct (status_content (clock (Summary.TotalChecked (summary st))) p "missing"
                               (tx st)) as [H3 H4].
      cbn [missingOne tx] in H1, H2. split; congruence. }
    destruct (Hmissing (missingPaths (feeder v w files))
                       (fold_left (collectOne clock sm cb) output
                                  {| summary := emptySummary; tx := d; calls := [] |}))
      as [H1 H2].
    destruct (Hcollect output {| summary := emptySummary; tx := d; calls := [] |})
      as [H3 H4].
    cbn [tx] in H3, H4. split; congruence. }
  split; [apply Hgen|]. split; [apply Hgen|].
  split; [apply Hgen|apply Hgen].
Qed.

Lemma collectOne_row_same (clock : Z -> Z) (sm : gmap string FileRecord.t) (cb : bool)
      (st : Run) (result : Result.t) (stored : FileRecord.t) :
  sm !! Result.Path result = Some stored ->
  rowsAt (Result.Path result) (tx (collectOne clock sm cb st result))
  = map (setStatus (clock (Summary.TotalChecked (summary st)))
                   (VerifyResult.Status (classify stored result)))
        (rowsAt (Result.Path result) (tx st)).
Proof.
  intros Hsm. unfold collectOne, classify. rewrite Hsm.
  destruct (Result.Err result).
  - cbn [tx VerifyResult.Status]. apply rowsAt_status_same.
  - destruct (String.eqb (Result.SHA256 result) (FileRecord.SHA256 stored));
      cbn [tx VerifyResult.Status]; apply rowsAt_status_same.
Qed.

(** A result whose path occurs once among the results is written once. *)
Lemma collect_row_once (clock : Z -> Z) (sm : gmap string FileRecord.t) (cb : bool)
      (output : list Result.t) (st : Run) (r : Result.t) (stored : FileRecord.t) :
  List.NoDup (map Result.Path output) -> In r output ->
  sm !! Result.Path r = Some stored ->
  exists now,
    rowsAt (Result.Path r) (tx (fold_left (collectOne clock sm cb) output st))
    = map (setStatus now (VerifyResult.Status (classify stored r)))
          (rowsAt (Result.Path r) (tx st)).
Proof.
  intros Hnd Hin Hsm. apply in_split in Hin as (pre & post & ->).
  rewrite List.map_app in Hnd. cbn [map] in Hnd.
  pose proof (NoDup_remove_2 _ _ _ Hnd) as Hnot.
  rewrite List.fold_left_app. cbn [fold_left].
  set (st1 := fold_left (collectOne clock sm cb) pre st).
  destruct (collect_spec clock sm cb post (collectOne clock sm cb st1 r))
    as (_ & _ & Hpost).
  destruct (collect_spec clock sm cb pre st) as (_ & _ & Hpre).
  cbv zeta in Hpost, Hpre. fold st1 in Hpre.
  exists (clock (Summary.TotalChecked (summary st1))).
  rewrite Hpost by (intros H; apply Hnot; apply in_or_app; now right).
  rewrite (collectOne_row_same clock sm cb st1 r stored Hsm).
  rewrite Hpre by (intros H; apply Hnot; apply in_or_app; now left).
  reflexivity.
Qed.

Lemma missing_row_once (clock : Z -> Z) (sm : gmap string FileRecord.t)
      (paths : list string) (st : Run) (p : string) :
  List.NoDup paths -> In p paths ->
  exists now,
    rowsAt p (tx (fold_left (missingOne clock sm true) paths st))
    = map (setStatus now "missing") (rowsAt p (tx st)).
Proof.
  intros Hnd Hin. apply in_split in Hin as (pre & post & ->).
  pose proof (NoDup_remove_2 _ _ _ Hnd) as Hnot.
  rewrite List.fold_left_app. cbn [fold_left].
  set (st1 := fold_left (missingOne clock sm true) pre st).
  destruct (missing_spec clock sm post (missingOne clock sm true st1 p))
    as (_ & _ & Hpost).
  destruct (missing_spec clock sm pre st) as (_ & _ & Hpre).
  cbv zeta in Hpost, Hpre. fold st1 in Hpre.
  exists (clock (Summary.TotalChecked (summary st1))).
  rewrite Hpost by (intros H; apply Hnot; apply in_or_app; now right).
  cbn [missingOne tx]. rewrite rowsAt_status_same.
  rewrite Hpre by (intros H; apply Hnot; apply in_or_app; now left).
  reflexivity.
Qed.

(** X20.  The status a verify run stores is the status it reports: for a
    file that is processed, exactly one result is handed to the callback,
    and the row at its path is afterwards the former row with that status
    and a fresh last-verified time, all other fields as before. *)
Theorem verify_stores_the_reported_status
        (v : Verifier) (w : os.World) (clock : Z -> Z)
        (files : list FileRecord.t) (output : list Result.t) (d : DB)
        (f : FileRecord.t)
        (Hnd : List.NoDup (map FileRecord.Path files))
        (Hin : In f files)
        (Hperm : Permutation output
                   (HashFiles (hasher.New (verifier.workers v)) w
                              (input (feeder v w files))))
        (Hproc : processed v w f) :
  let run := verifyFilesFrom v w clock true files output d in
  exists vr now,
    List.filter (atPath (FileRecord.Path f)) (calls run) = [vr] /\
    rowsAt (FileRecord.Path f) (tx run)
    = map (setStatus now (VerifyResult.Status vr)) (rowsAt (FileRecord.Path f) d).
Proof.
  cbv zeta.
  pose proof (calls_at_path v w clock files output d f Hnd Hin Hperm) as Hcalls.
  destruct (feeder_spec v w files) as (Hi & Hmp & _).
  assert (List.NoDup (map Result.Path output)) as Hndo.
  { eapply Permutation.Permutation_NoDup.
    - apply Permutation_map. apply Permutation_sym. exact Hperm.
    - rewrite hashed_paths. now apply NoDup_filter. }
  assert (List.NoDup (missingPaths (feeder v w files))) as Hndm
      by (rewrite Hmp; now apply NoDup_filter).
  set (sm := buildStoredMap files).
  set (st0 := {| summary := emptySummary; tx := d; calls := [] |}).
  destruct Hproc as [Hfate|Hfate].
  - (* missing *)
    rewrite Hfate in Hcalls.
    assert (In (FileRecord.Path f) (missingPaths (feeder v w files))) as Hinm.
    { rewrite Hmp. apply (path_in_filter _ _ _ Hnd Hin). unfold isMissing.
      now rewrite Hfate. }
    destruct (missing_row_once clock sm (missingPaths (feeder v w files))
                (fold_left (collectOne clock sm true) output st0)
                (FileRecord.Path f) Hndm Hinm) as (now & Hrow).
    exists (missingResult sm (FileRecord.Path f)), now.
    split; [exact Hcalls|].
    unfold verifyFilesFrom. cbv zeta. cbn [tx]. fold sm. fold st0.
    rewrite Hrow. cbn [missingResult VerifyResult.Status]. f_equal.
    destruct (collect_spec clock sm true output st0) as (_ & _ & Hr1).
    cbv zeta in Hr1. apply Hr1. intros H.
    apply (Permutation_in _ (Permutation_map Result.Path Hperm)) in H.
    rewrite hashed_paths in H. apply (path_in_filter _ _ _ Hnd Hin) in H.
    unfold isToHash in H. rewrite Hfate in H. discriminate.
  - (* hashed *)
    rewrite Hfate in Hcalls.
    assert (In (hashOne w (toInput f)) output) as Hino.
    { apply (Permutation_in _ (Permutation_sym Hperm)).
      rewrite HashFiles_New, Hi. apply List.in_map. apply List.in_map.
      apply List.filter_In. split; [exact Hin|]. unfold isToHash. now rewrite Hfate. }
    assert (sm !! Result.Path (hashOne w (toInput f)) = Some f) as Hsm.
    { rewrite hashOne_Path. cbn [toInput FileInfo.Path].
      now apply storedMap_lookup. }
    destruct (collect_row_once clock sm true output st0 _ f Hndo Hino Hsm)
      as (now & Hrow).
    rewrite hashOne_Path in Hrow. cbn [toInput FileInfo.Path] in Hrow.
    exists (classify f (hashOne w (toInput f))), now.
    split; [exact Hcalls|].
    unfold verifyFilesFrom. cbv zeta. cbn [tx]. fold sm. fold st0.
    destruct (missing_spec clock sm (missingPaths (feeder v w files))
                (fold_left (collectOne clock sm true) output st0)) as (_ & _ & Hr2).
    cbv zeta in Hr2. rewrite Hr2.
    + exact Hrow.
    + rewrite Hmp. intros H. apply (path_in_filter _ _ _ Hnd Hin) in H.
      unfold isMissing in H. rewrite Hfate in H. discriminate.
Qed.

End VerifierWrites.

Section VerifierScope.
Import verifier.
Import hasher.
Import db.

Lemma callsFor_paths (sm : gmap string FileRecord.t) (cb : bool) (result : Result.t)
      (vr : VerifyResult.t) :
  In vr (callsFor sm cb result) -> VerifyResult.Path vr = Result.Path result.
Proof.
  unfold callsFor. destruct (sm !! Result.Path result) as [stored|]; [|intros []].
  destruct cb; [|intros []]. intros [<-|[]]. apply classify_Path.
Qed.

(** A path outside the list of files under verification is neither written
    nor reported. *)
Lemma verify_outside (v : Verifier) (w : os.World) (clock : Z -> Z)
      (files : list FileRecord.t) (d : DB) (p : string) :
  ~ In p (map FileRecord.Path files) ->
  rowsAt p (tx (verifyFiles v w clock true files d)) = rowsAt p d /\
  List.filter (atPath p) (calls (verifyFiles v w clock true files d)) = [] /\
  ~ In p (map FileInfo.Path (input (feeder v w files))).
Proof.
  intros Hout. unfold verifyFiles, verifyFilesFrom. cbv zeta. cbn [tx calls].
  destruct (feeder_spec v w files) as (_ & Hmp & _).
  set (sm := buildStoredMap files).
  set (st0 := {| summary := emptySummary; tx := d; calls := [] |}).
  set (output := HashFiles (hasher.New (verifier.workers v)) w (input (feeder v w files))).
  assert (~ In p (map Result.Path output)) as Hno.
  { unfold output. rewrite hashed_paths. intros H. apply Hout.
    apply List.in_map_iff in H as (f & <- & Hf). apply List.in_map.
    now apply List.filter_In in Hf. }
  assert (~ In p (missingPaths (feeder v w files))) as Hnm.
  { rewrite Hmp. intros H. apply Hout.
    apply List.in_map_iff in H as (f & <- & Hf). apply List.in_map.
    now apply List.filter_In in Hf. }
  destruct (missing_spec clock sm (missingPaths (feeder v w files))
              (fold_left (collectOne clock sm true) output st0)) as (Hc2 & _ & Hr2).
  destruct (collect_spec clock sm true output st0) as (Hc1 & _ & Hr1).
  cbv zeta in Hc1, Hc2, Hr1, Hr2.
  split; [|split].
  - rewrite Hr2, Hr1; auto.
  - rewrite Hc2, Hc1. cbn [calls app]. apply filter_none. intros vr Hvr.
    unfold atPath. apply String.eqb_neq. intros E.
    apply in_app_or in Hvr as [Hvr|Hvr].
    + apply in_flat_map in Hvr as (r & Hr & Hvr).
      apply callsFor_paths in Hvr. apply Hno. rewrite <- E, Hvr.
      now apply List.in_map.
    + apply List.in_map_iff in Hvr as (q & <- & Hq).
      cbn [missingResult VerifyResult.Path] in E. now subst q.
  - rewrite input_paths. intros H. apply Hout.
    apply List.in_map_iff in H as (f & <- & Hf). apply List.in_map.
    now apply List.filter_In in Hf.
Qed.

(** X21.  [VerifyDisk] is confined to its disk: a record of another disk is
    not handed to the hashing pool, never reported, and stays in the
    catalog exactly as it was, status and last-verified time included. *)
Theorem VerifyDisk_leaves_other_disks
        (v : Verifier) (w : os.World) (clock : Z -> Z) (disk : string) (d : DB)
        (r : FileRecord.t)
        (Hwf : wf d) (Hin : In r (db.files d)) (Hother : FileRecord.Disk r <> disk) :
  let run := VerifyDisk v w clock disk true d in
  In r (db.files (tx run)) /\
  rowsAt (FileRecord.Path r) (tx run) = [r] /\
  List.filter (atPath (FileRecord.Path r)) (calls run) = [] /\
  ~ In (FileRecord.Path r)
       (map FileInfo.Path (input (feeder v w (GetFilesByDisk disk d)))).
Proof.
  cbv zeta. destruct Hwf as (Hnd & _).
  assert (~ In (FileRecord.Path r) (map FileRecord.Path (GetFilesByDisk disk d)))
    as Hout.
  { intros H. apply List.in_map_iff in H as (r' & Hp & Hr').
    unfold GetFilesByDisk in Hr'. apply order_by_In in Hr'.
    apply List.filter_In in Hr' as [Hr' Hd]. apply String.eqb_eq in Hd.
    assert (r' = r) by (eapply NoDup_map_inj; eauto). subst r'. contradiction. }
  unfold VerifyDisk.
  destruct (verify_outside v w clock (GetFilesByDisk disk d) d _ Hout)
    as (Hrows & Hcalls & Hinput).
  rewrite (rowsAt_unique d r Hnd Hin) in Hrows.
  split; [|split; [exact Hrows|split; [exact Hcalls|exact Hinput]]].
  assert (In r (rowsAt (FileRecord.Path r)
                       (tx (verifyFiles v w clock true (GetFilesByDisk disk d) d))))
    as H by (rewrite Hrows; now left).
  now apply rowsAt_In in H.
Qed.

(** X22.  For a catalogued file that is handed to the pool and whose path
    holds some bytes, the one result reported carries the stored digest as
    the old hash and the SHA-256 of those bytes as the new hash, and its
    status is "ok" exactly when the two are the same string and "corrupted"
    exactly when they differ. *)
Theorem verify_flags_exactly_changed_content
        (v : Verifier) (w : os.World) (clock : Z -> Z)
        (files : list FileRecord.t) (output : list Result.t) (d : DB)
        (f : FileRecord.t) (data : list byte)
        (Hnd : List.NoDup (map FileRecord.Path files))
        (Hin : In f files)
        (Hperm : Permutation output
                   (HashFiles (hasher.New (verifier.workers v)) w
                              (input (feeder v w files))))
        (Hfate : fateOf v w f = ToHash)
        (Hholds : holds w (FileRecord.Path f) data) :
  exists vr,
    List.filter (atPath (FileRecord.Path f))
                (calls (verifyFilesFrom v w clock true files output d)) = [vr] /\
    VerifyResult.OldHash vr = FileRecord.SHA256 f /\
    VerifyResult.NewHash vr = digestOf data /\
    VerifyResult.Err vr = None /\
    (VerifyResult.Status vr = "ok" <-> FileRecord.SHA256 f = digestOf data) /\
    (VerifyResult.Status vr = "corrupted" <-> FileRecord.SHA256 f <> digestOf data).
Proof.
  pose proof (calls_at_path v w clock files output d f Hnd Hin Hperm) as Hcalls.
  rewrite Hfate in Hcalls.
  destruct (hashOne_holds w (toInput f) data Hholds) as (Hsha & Herr & _).
  exists (classify f (hashOne w (toInput f))). split; [exact Hcalls|].
  unfold classify. rewrite Herr, Hsha.
  cbn [VerifyResult.OldHash VerifyResult.NewHash VerifyResult.Err VerifyResult.Status].
  split; [reflexivity|]. split; [reflexivity|]. split; [reflexivity|].
  destruct (String.eqb (digestOf data) (FileRecord.SHA256 f)) eqn:E.
  - apply String.eqb_eq in E. split; split; intros H; congruence.
  - apply String.eqb_neq in E. split; split; intros H; congruence.
Qed.

End VerifierScope.

Lemma verify_summary_agrees_with_reports_witness :
  let run := verifier.verifyFiles (verifier.New 1 false) fixtures.worldStill
                                  (fun _ => 60) true [fixtures.rowA] fixtures.dbA in
  verifier.Summary.OK (verifier.summary run) = obs.reportedAs "ok" (verifier.calls run) /\
  verifier.Summary.TotalChecked (verifier.summary run)
  = Z.of_nat (length (verifier.calls run)) /\
  verifier.Summary.OK (verifier.summary run) = 1.
Proof.
  cbv zeta.
  destruct (verify_summary_agrees_with_reports
              (verifier.New 1 false) fixtures.worldStill (fun _ => 60)
              [fixtures.rowA]
              (hasher.HashFiles
                 (hasher.New (verifier.workers (verifier.New 1 false)))
                 fixtures.worldStill
                 (verifier.input (verifier.feeder (verifier.New 1 false)
                                                  fixtures.worldStill [fixtures.rowA])))
              fixtures.dbA (Permutation_refl _))
    as (Hok & _ & _ & _ & Htotal & _).
  split; [exact Hok|]. split; [exact Htotal|]. vm_compute. reflexivity.
Defined.

Lemma verify_stores_the_reported_status_witness :
  let run := verifier.verifyFiles (verifier.New 1 false) fixtures.worldStill
                                  (fun _ => 60) true [fixtures.rowA] fixtures.dbA in
  List.NoDup (map db.FileRecord.Path [fixtures.rowA]) /\
  verifier.processed (verifier.New 1 false) fixtures.worldStill fixtures.rowA /\
  exists vr now,
    List.filter (verifier.atPath fixtures.oldPath) (verifier.calls run) = [vr] /\
    db.rowsAt fixtures.oldPath (verifier.tx run)
    = map (db.setStatus now (verifier.VerifyResult.Status vr))
          (db.rowsAt fixtures.oldPath fixtures.dbA).
Proof.
  cbv zeta.
  assert (List.NoDup (map db.FileRecord.Path [fixtures.rowA])) as Hnd
      by (repeat constructor; simpl; tauto).
  assert (verifier.processed (verifier.New 1 false) fixtures.worldStill fixtures.rowA)
    as Hproc by (right; reflexivity).
  split; [exact Hnd|]. split; [exact Hproc|].
  exact (verify_stores_the_reported_status
           (verifier.New 1 false) fixtures.worldStill (fun _ => 60)
           [fixtures.rowA] _ fixtures.dbA fixtures.rowA Hnd (or_introl eq_refl)
           (Permutation_refl _) Hproc).
Defined.

Lemma VerifyDisk_leaves_other_disks_witness :
  db.wf samples.dbTwo /\
  In samples.rowC (db.files samples.dbTwo) /\
  db.FileRecord.Disk samples.rowC <> "disk1" /\
  In samples.rowC
     (db.files (verifier.tx (verifier.VerifyDisk (verifier.New 1 false)
                                                 fixtures.worldStill (fun _ => 60)
                                                 "disk1" true samples.dbTwo))).
Proof.
  assert (db.wf samples.dbTwo) as Hwf by concrete_wf.
  assert (In samples.rowC (db.files samples.dbTwo)) as Hin by (right; left; reflexivity).
  assert (db.FileRecord.Disk samples.rowC <> "disk1") as Hother by discriminate.
  split; [exact Hwf|]. split; [exact Hin|]. split; [exact Hother|].
  exact (proj1 (VerifyDisk_leaves_other_disks
                  (verifier.New 1 false) fixtures.worldStill (fun _ => 60) "disk1"
                  samples.dbTwo samples.rowC Hwf Hin Hother)).
Defined.

Lemma verify_flags_exactly_changed_content_witness :
  verifier.fateOf (verifier.New 1 false) fixtures.worldStill fixtures.rowA
  = verifier.ToHash /\
  hasher.holds fixtures.worldStill fixtures.oldPath hello_world /\
  exists vr,
    List.filter (verifier.atPath fixtures.oldPath)
                (verifier.calls
                   (verifier.verifyFiles (verifier.New 1 false) fixtures.worldStill
                                         (fun _ => 60) true [fixtures.rowA] fixtures.dbA))
    = [vr] /\
    verifier.VerifyResult.NewHash vr = hasher.digestOf hello_world.
Proof.
  assert (hasher.holds fixtures.worldStill fixtures.oldPath hello_world) as Hholds.
  { exists fixtures.helloWhole, {| os.IsDir := false; os.Size := 12; os.ModTime := 100 |}.
    repeat split. }
  assert (List.NoDup (map db.FileRecord.Path [fixtures.rowA])) as Hnd
      by (repeat constructor; simpl; tauto).
  split; [reflexivity|]. split; [exact Hholds|].
  destruct (verify_flags_exactly_changed_content
              (verifier.New 1 false) fixtures.worldStill (fun _ => 60)
              [fixtures.rowA] _ fixtures.dbA fixtures.rowA hello_world
              Hnd (or_introl eq_refl) (Permutation_refl _) eq_refl Hholds)
    as (vr & Hcalls & _ & Hnew & _).
  exists vr. split; [exact Hcalls|exact Hnew].
Defined.

(* ===================================================================== *)
(** * The verify command *)
(* ===================================================================== *)

Section VerifyCommand.
Import verifier.
Import db.

Lemma reportedAs_nonneg (status : string) (calls : list VerifyResult.t) :
  0 <= obs.reportedAs status calls.
Proof. unfold obs.reportedAs. lia. Qed.

Lemma reportedAs_zero (status : string) (calls : list VerifyResult.t) :
  obs.reportedAs status calls = 0 <->
  Forall (fun vr => VerifyResult.Status vr <> status) calls.
Proof.
  unfold obs.reportedAs. induction calls as [|vr calls IH]; cbn [List.filter].
  - split; [constructor|reflexivity].
  - destruct (String.eqb (VerifyResult.Status vr) status) eqn:E.
    + apply String.eqb_eq in E. cbn [length]. split; [lia|].
      intros H. inversion H; subst. contradiction.
    + apply String.eqb_neq in E. rewrite IH. split.
      * intros H. now constructor.
      * intros H. now inversion H.
Qed.

Lemma complete_new_entry (started ended : Z) (scanType diskList : string) (n e : Z)
      (h : dbread.History) :
  Forall (fun x => dbread.id x <= dbread.hseq h) (dbread.entries h) ->
  dbread.entries
    (dbread.CompleteScanHistory ended (dbread.hseq h + 1) n e
       (snd (dbread.InsertScanHistory started scanType diskList h)))
  = dbread.entries h ++
    [ {| dbread.id := dbread.hseq h + 1; dbread.scan_type := scanType;
         dbread.started_at := started; dbread.ended_at := Some ended;
         dbread.disks := diskList; dbread.files_processed := n;
         dbread.errors := e; dbread.status := "completed" |} ].
Proof.
  intros Hids.
  cbn [dbread.InsertScanHistory snd dbread.CompleteScanHistory dbread.entries].
  rewrite List.map_app. f_equal.
  - apply map_id_on. intros x Hx. rewrite List.Forall_forall in Hids.
    specialize (Hids x Hx). destruct (dbread.id x =? dbread.hseq h + 1) eqn:E;
      [|reflexivity].
    apply Z.eqb_eq in E. lia.
  - cbn [map dbread.id]. rewrite Z.eqb_refl. reflexivity.
Qed.

(** X23.  The exit status of the verify command.  When the database cannot
    be opened the command exits with status 1 and leaves the history alone.
    Otherwise, with [--json] it exits with status 0 whatever was found;
    without [--json] it exits with 0 or 2, and with 0 exactly when every
    result reported during the run has the status "ok".  In both cases the
    run writes nothing but status and last-verified time, and, the history
    ids being bounded by their counter, the history is left as it was with
    one entry added: a completed "verify" entry for the disk argument, with
    the number of files checked and of errors of the summary. *)
Theorem verifyCmd_exit_code_and_history
        (jsonOut quick : bool) (disk : string) (workers : Z) (w : os.World)
        (clock : Z -> Z) (started ended : Z) (opened : bool) (d : DB)
        (h : dbread.History) :
  let out := cli.verifyCmd jsonOut quick disk workers w clock started ended opened d h in
  match cli.run out with
  | None => opened = false /\ cli.exitCode out = 1 /\ cli.history out = h
  | Some r =>
      opened = true /\
      (if jsonOut then cli.exitCode out = 0
       else (cli.exitCode out = 0 \/ cli.exitCode out = 2) /\
            (cli.exitCode out = 0 <->
             Forall (fun vr => VerifyResult.Status vr = "ok") (calls r))) /\
      map obs.content (files (tx r)) = map obs.content (files d) /\
      (0 <= dbread.hseq h ->
       Forall (fun x => dbread.id x <= dbread.hseq h) (dbread.entries h) ->
       dbread.entries (cli.history out)
       = dbread.entries h ++
         [ {| dbread.id := dbread.hseq h + 1; dbread.scan_type := "verify";
              dbread.started_at := started; dbread.ended_at := Some ended;
              dbread.disks := disk;
              dbread.files_processed := Summary.TotalChecked (summary r);
              dbread.errors := Summary.Errors (summary r);
              dbread.status := "completed" |} ])
  end.
Proof.
  cbv zeta. unfold cli.verifyCmd. destruct opened; cbn [negb];
    [|cbn [cli.run cli.exitCode cli.history]; auto].
  cbn [dbread.InsertScanHistory cli.run cli.exitCode cli.history].
  set (v := verifier.New workers quick).
  set (r := if String.eqb disk "" then VerifyAll v w clock true d
            else VerifyDisk v w clock disk true d).
  assert (exists listed,
             r = verifyFilesFrom v w clock true listed
                   (hasher.HashFiles (hasher.New (verifier.workers v)) w
                                     (input (feeder v w listed))) d) as (listed & Hr).
  { unfold r. destruct (String.eqb disk "").
    - exists (GetAllFiles d). reflexivity.
    - exists (GetFilesByDisk disk d). reflexivity. }
  pose proof (verify_agrees v w clock listed _ d (Permutation_refl _)) as Hag.
  rewrite <- Hr in Hag.
  destruct Hag as (_ & Hc & Hm & _ & _ & Hknown).
  pose proof (reportedAs_nonneg "corrupted" (calls r)) as Hc0.
  pose proof (reportedAs_nonneg "missing" (calls r)) as Hm0.
  split; [reflexivity|]. split; [|split].
  - destruct jsonOut; [reflexivity|].
    destruct ((0 <? Summary.Corrupted (summary r)) || (0 <? Summary.Missing (summary r)))
      eqn:E.
    + split; [now right|]. split; [discriminate|]. intros Hall. exfalso.
      assert (obs.reportedAs "corrupted" (calls r) = 0) as Hzc.
      { apply reportedAs_zero. eapply List.Forall_impl; [|exact Hall].
        cbn. intros vr ->. discriminate. }
      assert (obs.reportedAs "missing" (calls r) = 0) as Hzm.
      { apply reportedAs_zero. eapply List.Forall_impl; [|exact Hall].
        cbn. intros vr ->. discriminate. }
      apply orb_true_iff in E. rewrite !Z.ltb_lt in E. lia.
    + split; [now left|]. split; [|reflexivity]. intros _.
      apply orb_false_iff in E. rewrite !Z.ltb_ge in E.
      assert (obs.reportedAs "corrupted" (calls r) = 0) as Hzc by lia.
      assert (obs.reportedAs "missing" (calls r) = 0) as Hzm by lia.
      apply reportedAs_zero in Hzc, Hzm.
      rewrite List.Forall_forall in *. intros vr Hvr.
      destruct (Hknown vr Hvr) as [H|[H|H]]; [exact H| |].
      * exfalso. now apply (Hzc vr Hvr).
      * exfalso. now apply (Hzm vr Hvr).
  - rewrite Hr. unfold verifyFilesFrom. cbv zeta. cbn [tx].
    set (sm := buildStoredMap listed).
    assert (forall outs st,
               map obs.content (files (tx (fold_left (collectOne clock sm true) outs st)))
               = map obs.content (files (tx st))) as Hcollect.
    { induction outs as [|x outs IH]; intros st; cbn [fold_left]; [reflexivity|].
      rewrite IH. apply collectOne_content. }
    assert (forall paths st,
               map obs.content (files (tx (fold_left (missingOne clock sm true) paths st)))
               = map obs.content (files (tx st))) as Hmissing.
    { induction paths as [|p paths IH]; intros st; cbn [fold_left]; [reflexivity|].
      rewrite IH. cbn [missingOne tx]. apply status_content. }
    rewrite Hmissing, Hcollect. reflexivity.
  - intros Hseq Hids.
    replace (0 <? dbread.hseq h + 1) with true by (symmetry; apply Z.ltb_lt; lia).
    exact (complete_new_entry started ended "verify" disk _ _ h Hids).
Qed.

End VerifyCommand.

Lemma verifyCmd_exit_code_and_history_witness :
  let out := cli.verifyCmd false false "" 4 fixtures.worldStill (fun _ => 60) 60 90
                           true fixtures.dbA samples.noHistory in
  0 <= dbread.hseq samples.noHistory /\
  Forall (fun x => dbread.id x <= dbread.hseq samples.noHistory)
         (dbread.entries samples.noHistory) /\
  cli.exitCode out = 0 /\
  dbread.entries (cli.history out)
  = [ {| dbread.id := 1; dbread.scan_type := "verify"; dbread.started_at := 60;
         dbread.ended_at := Some 90; dbread.disks := "";
         dbread.files_processed := 1; dbread.errors := 0;
         dbread.status := "completed" |} ] /\
  cli.exitCode (cli.verifyCmd false false "" 4 fixtures.worldUnreadable (fun _ => 60)
                              60 90 true fixtures.dbA samples.noHistory) = 2 /\
  cli.exitCode (cli.verifyCmd true false "" 4 fixtures.worldUnreadable (fun _ => 60)
                              60 90 true fixtures.dbA samples.noHistory) = 0.
Proof.
  cbv zeta.
  assert (0 <= dbread.hseq samples.noHistory) as Hseq by (cbn; lia).
  assert (Forall (fun x => dbread.id x <= dbread.hseq samples.noHistory)
                 (dbread.entries samples.noHistory)) as Hids by constructor.
  split; [exact Hseq|]. split; [exact Hids|].
  pose proof (verifyCmd_exit_code_and_history
                false false "" 4 fixtures.worldStill (fun _ => 60) 60 90
                true fixtures.dbA samples.noHistory) as H.
  cbv zeta in H.
  change (cli.run (cli.verifyCmd false false "" 4 fixtures.worldStill (fun _ => 60) 60 90
                                 true fixtures.dbA samples.noHistory))
    with (Some (verifier.VerifyAll (verifier.New 4 false) fixtures.worldStill
                                   (fun _ => 60) true fixtures.dbA)) in H.
  destruct H as (_ & _ & _ & Hhist).
  split; [vm_compute; reflexivity|].
  split; [rewrite (Hhist Hseq Hids); vm_compute; reflexivity|].
  split; vm_compute; reflexivity.
Defined.

(* ===================================================================== *)
(** * The scan command: batches, counters, what a scan can do to a record *)
(* ===================================================================== *)

Section ScanLoop.
Import main.
Import hasher.
Import db.

(** What one iteration of the result loop does, whichever branch it takes:
    a failed result only moves the counters; any other result performs one
    write on the open transaction and ends the iteration. *)
Lemma processResult_shape (w : os.World) (lookupMap : option (gmap string QuickLookup.t))
      (now : Z) (result : Result.t) (st st' : ScanState) :
  processResult w lookupMap now result st = Some st' ->
  (obs.isErr result = true /\
   batchCount st' = batchCount st /\ committed st' = committed st /\ tx st' = tx st /\
   totalProcessed st' = totalProcessed st + 1 /\ totalErrors st' = totalErrors st + 1) \/
  (obs.isErr result = false /\
   exists mid wr,
     st' = endOfIteration mid /\
     batchCount mid = batchCount st /\ committed mid = committed st /\
     tx mid = exec (tx st) (now, wr) /\
     totalProcessed mid = totalProcessed st + 1 /\ totalErrors mid = totalErrors st /\
     (lookupMap = None -> exists f, wr = Upsert f)).
Proof.
  unfold processResult, obs.isErr. cbv zeta.
  destruct (Result.Err result) as [e|].
  - intros H. inversion H; subst. left. cbn. repeat split.
  - intros H. right. split; [reflexivity|].
    destruct (moveDetection w lookupMap result (countProcessed st)) as [|cand|cand] eqn:Em.
    + inversion H; subst. eexists _, (Upsert _). split; [reflexivity|].
      cbn. repeat split; eauto.
    + inversion H; subst.
      eexists _, (MovePath _ _ _ _ _). split; [reflexivity|].
      cbn. repeat split. intros ->. discriminate Em.
    + destruct (prefix12 (FileRecord.SHA256 cand)) as [oldSHA|]; [|discriminate].
      destruct (prefix12 (Result.SHA256 result)) as [newSHA|]; [|discriminate].
      inversion H; subst. eexists _, (Upsert _). split; [reflexivity|].
      cbn. repeat split; eauto.
Qed.

Lemma endOfIteration_batch (st : ScanState) :
  0 <= batchCount st < batchSize ->
  batchCount (endOfIteration st) = (batchCount st + 1) mod batchSize /\
  (batchCount (endOfIteration st) = 0 ->
   tx (endOfIteration st) = committed (endOfIteration st)) /\
  (batchCount (endOfIteration st) <> 0 ->
   committed (endOfIteration st) = committed st).
Proof.
  unfold endOfIteration, batchSize. intros Hb.
  destruct (1000 <=? batchCount st + 1) eqn:E; cbn [batchCount tx committed].
  - apply Z.leb_le in E. replace (batchCount st + 1) with 1000 by lia.
    split; [reflexivity|]. split; [reflexivity|]. intros H. now contradiction H.
  - apply Z.leb_gt in E. rewrite Z.mod_small by lia.
    split; [reflexivity|]. split; [lia|reflexivity].
Qed.

(** The batch counter counts the results without error since the last
    commit. *)
Lemma processResults_batches (w : os.World)
      (lookupMap : option (gmap string QuickLookup.t)) (clock : Z -> Z)
      (results : list Result.t) (st st' : ScanState) :
  processResults w lookupMap clock results st = Some st' ->
  0 <= batchCount st < batchSize ->
  (batchCount st = 0 -> tx st = committed st) ->
  batchCount st'
  = (batchCount st
     + Z.of_nat (length (List.filter (fun r => negb (obs.isErr r)) results)))
    mod batchSize /\
  (batchCount st' = 0 -> tx st' = committed st') /\
  totalProcessed st' = totalProcessed st + Z.of_nat (length results).
Proof.
  revert st. induction results as [|r results IH]; intros st Hrun Hrange Hclean.
  - cbn in Hrun. inversion Hrun; subst. cbn [length List.filter].
    split; [|split; [exact Hclean|lia]].
    rewrite Z.add_0_r. symmetry. now apply Z.mod_small.
  - cbn [processResults] in Hrun.
    destruct (processResult w lookupMap (clock (totalProcessed st)) r st)
      as [st1|] eqn:Estep; [|discriminate].
    apply processResult_shape in Estep
      as [(He & Hb1 & Hc1 & Ht1 & Hp1 & _)
         |(He & mid & wr & -> & Hb1 & Hc1 & Ht1 & Hp1 & _ & _)].
    + destruct (IH st1 Hrun) as (H1 & H2 & H3).
      * rewrite Hb1. exact Hrange.
      * rewrite Hb1, Hc1, Ht1. exact Hclean.
      * cbn [List.filter length]. rewrite He. cbn [negb].
        split; [rewrite H1, Hb1; reflexivity|]. split; [exact H2|]. lia.
    + assert (0 <= batchCount mid < batchSize) as Hrange' by (rewrite Hb1; exact Hrange).
      destruct (endOfIteration_batch mid Hrange') as (Hb2 & Hclean2 & _).
      destruct (IH (endOfIteration mid) Hrun) as (H1 & H2 & H3).
      * rewrite Hb2. apply Z.mod_pos_bound. reflexivity.
      * exact Hclean2.
      * rewrite endOfIteration_processed in H3.
        cbn [List.filter length]. rewrite He. cbn [negb length].
        split; [|split; [exact H2|lia]].
        rewrite H1, Hb2, Hb1. rewrite Z.add_mod_idemp_l by discriminate.
        f_equal. lia.
Qed.

(** X24.  A scan that runs to its end leaves nothing uncommitted: the
    catalog committed at the end is the open transaction of the last
    iteration, writes of an unfinished batch included.  The number of files
    processed is the number of results received, and the batch counter is
    the number of results without error, modulo the batch size of 1000. *)
Theorem scan_commits_every_write
        (sc : scanner.Scanner) (w : os.World) (clock : Z -> Z) (fullScan : bool)
        (disks : list scanner.DiskInfo) (results : list Result.t) (d : DB)
        (rep : ScanReport)
        (Hrun : scanFrom sc w clock fullScan disks results d = Some rep) :
  exists st',
    processResults w (loadLookup fullScan d) clock results (start d) = Some st' /\
    committed (final rep) = tx st' /\
    tx (final rep) = tx st' /\
    filesProcessed rep = Z.of_nat (length results) /\
    batchCount (final rep)
    = Z.of_nat (length (List.filter (fun r => negb (obs.isErr r)) results))
      mod batchSize.
Proof.
  unfold scanFrom in Hrun.
  destruct (processResults w (loadLookup fullScan d) clock results (start d))
    as [st'|] eqn:Eloop; [|discriminate].
  inversion Hrun; subst rep. clear Hrun. cbn [final filesProcessed].
  destruct (processResults_batches w _ clock results (start d) st' Eloop)
    as (Hbc & Hclean & Hp).
  { cbn. unfold batchSize. lia. }
  { reflexivity. }
  cbn [start totalProcessed batchCount] in Hp, Hbc. rewrite Z.add_0_l in Hbc.
  exists st'. split; [reflexivity|].
  unfold finish. destruct (0 <? batchCount st') eqn:Epos;
    cbn [committed tx totalProcessed batchCount].
  - split; [reflexivity|]. split; [reflexivity|]. split; [lia|exact Hbc].
  - assert (batchCount st' = 0) as Hzero.
    { apply Z.ltb_ge in Epos.
      pose proof (Z.mod_pos_bound
                    (Z.of_nat (length (List.filter (fun r => negb (obs.isErr r)) results)))
                    batchSize eq_refl). lia. }
    rewrite (Hclean Hzero).
    split; [reflexivity|]. split; [reflexivity|]. split; [lia|exact Hbc].
Qed.

Lemma skippedTotal_spec (sc : scanner.Scanner) (w : os.World)
      (lookupMap : option (gmap string QuickLookup.t)) (disks : list scanner.DiskInfo) :
  skippedTotal sc w lookupMap disks
  = Z.of_nat (length (List.filter (unchanged lookupMap) (scanned sc w disks))).
Proof.
  unfold skippedTotal, scanned.
  induction disks as [|dk disks IH]; [reflexivity|].
  cbn [fold_right flat_map]. rewrite IH. unfold diskInput.
  rewrite incrementalFilter_spec. cbn [snd].
  rewrite List.filter_app, length_app. lia.
Qed.

(** X25.  Every file the walkers emit is accounted for once: whatever the
    order in which the results of the pools arrive, the number of files
    processed and the number of files skipped add up to the number of files
    emitted; with a full scan nothing is skipped. *)
Theorem scan_accounts_for_every_file
        (sc : scanner.Scanner) (w : os.World) (clock : Z -> Z) (fullScan : bool)
        (disks : list scanner.DiskInfo) (results : list Result.t) (d : DB)
        (rep : ScanReport)
        (Hperm : Permutation results (hashed sc w (loadLookup fullScan d) disks))
        (Hrun : scanFrom sc w clock fullScan disks results d = Some rep) :
  filesProcessed rep + filesSkipped rep = Z.of_nat (length (scanned sc w disks)) /\
  (fullScan = true -> filesSkipped rep = 0) /\
  incl (map Result.Path results) (map FileInfo.Path (scanned sc w disks)).
Proof.
  unfold scanFrom in Hrun.
  destruct (processResults w (loadLookup fullScan d) clock results (start d))
    as [st'|] eqn:Eloop; [|discriminate].
  inversion Hrun; subst rep. clear Hrun. cbn [final filesProcessed filesSkipped].
  destruct (processResults_batches w _ clock results (start d) st' Eloop)
    as (_ & _ & Hp).
  { cbn. unfold batchSize. lia. }
  { reflexivity. }
  cbn [start totalProcessed] in Hp.
  assert (totalProcessed (finish st') = totalProcessed st') as ->
      by (unfold finish; now destruct (0 <? batchCount st')).
  rewrite Hp, skippedTotal_spec.
  rewrite (Permutation.Permutation_length Hperm), hashed_spec, length_map.
  split; [|split].
  - rewrite <- (filter_length_split (unchanged (loadLookup fullScan d))
                                    (scanned sc w disks)). lia.
  - intros ->. cbn [loadLookup]. rewrite filter_none; [reflexivity|].
    intros fi _. reflexivity.
  - intros p Hp'.
    apply (Permutation_in _ (Permutation_map Result.Path Hperm)) in Hp'.
    rewrite hashed_spec, List.map_map in Hp'.
    apply List.in_map_iff in Hp' as (fi & <- & Hfi).
    rewrite hashOne_Path. apply List.in_map. now apply List.filter_In in Hfi.
Qed.

End ScanLoop.

Section ScanSafety.
Import main.
Import hasher.
Import db.

Lemma detectMove_In (w : os.World) (result : Result.t) (cands : list FileRecord.t)
      (cand : FileRecord.t) :
  detectMove w result cands = MoveCorrupted cand \/ detectMove w result cands = Moved cand ->
  In cand cands.
Proof.
  induction cands as [|c cands IH]; cbn [detectMove].
  - intros [H|H]; discriminate.
  - destruct (String.eqb (FileRecord.Path c) (Result.Path result));
      [intros H; right; now apply IH|].
    destruct (os.Stat w (FileRecord.Path c)); try (intros H; right; now apply IH).
    destruct (String.eqb (FileRecord.SHA256 c) (Result.SHA256 result));
      intros [H|H]; inversion H; now left.
Qed.

Lemma moveDetection_In (w : os.World) (lookupMap : option (gmap string QuickLookup.t))
      (result : Result.t) (st : ScanState) (cand : FileRecord.t) :
  moveDetection w lookupMap result st = MoveCorrupted cand \/
  moveDetection w lookupMap result st = Moved cand ->
  In cand (files (committed st)).
Proof.
  unfold moveDetection. destruct lookupMap as [m|]; [|intros [H|H]; discriminate].
  destruct (m !! Result.Path result); [intros [H|H]; discriminate|].
  intros H. apply detectMove_In in H.
  unfold FindMoveCandidates in H. apply In_firstn in H. apply order_by_In in H.
  now apply List.filter_In in H.
Qed.

Lemma prefix12_Some (s : string) :
  (12 <= String.length s)%nat -> exists p, prefix12 s = Some p.
Proof.
  intros H. unfold prefix12.
  replace (12 <=? String.length s)%nat with true; [eauto|].
  symmetry. now apply Nat.leb_le.
Qed.

Lemma sliceable_upsert (f : FileRecord.t) (d : DB) :
  (12 <= String.length (FileRecord.SHA256 f))%nat ->
  obs.sliceable d -> obs.sliceable (UpsertFileTx f d).
Proof.
  unfold obs.sliceable, UpsertFileTx. intros Hf Hd.
  destruct (existsb (hasPath (FileRecord.Path f)) (files d)); cbn [files].
  - apply Forall_map_same with (P := fun r => (12 <= String.length (FileRecord.SHA256 r))%nat);
      [|exact Hd].
    intros r Hr. now destruct (hasPath (FileRecord.Path f) r).
  - apply List.Forall_app. split; [exact Hd|]. constructor; [exact Hf|constructor].
Qed.

Lemma sliceable_move (now : Z) (o n disk : string) (size mtime : Z) (d : DB) :
  obs.sliceable d -> obs.sliceable (MovePathTx now o n disk size mtime d).
Proof.
  unfold obs.sliceable. intros Hd. rewrite move_files.
  apply Forall_map_same with (P := fun r => (12 <= String.length (FileRecord.SHA256 r))%nat).
  - intros r Hr. unfold moved. now destruct (hasPath o r).
  - now apply Forall_filter_keep.
Qed.

Lemma endOfIteration_views (st : ScanState) :
  (committed (endOfIteration st) = committed st \/
   committed (endOfIteration st) = tx st) /\
  tx (endOfIteration st) = tx st.
Proof.
  unfold endOfIteration. destruct (batchSize <=? batchCount st + 1); cbn; auto.
Qed.

(** One iteration neither panics nor breaks the bound on stored digests. *)
Lemma processResult_safe (w : os.World) (lookupMap : option (gmap string QuickLookup.t))
      (now : Z) (result : Result.t) (st : ScanState) :
  (Result.Err result = None -> (12 <= String.length (Result.SHA256 result))%nat) ->
  lookupMap = None \/ (obs.sliceable (committed st) /\ obs.sliceable (tx st)) ->
  exists st',
    processResult w lookupMap now result st = Some st' /\
    (lookupMap = None \/ (obs.sliceable (committed st') /\ obs.sliceable (tx st'))).
Proof.
  intros Hlen Hinv. unfold processResult. cbv zeta.
  destruct (Result.Err result) as [e|] eqn:Eerr.
  - eexists. split; [reflexivity|]. exact Hinv.
  - specialize (Hlen eq_refl).
    destruct (moveDetection w lookupMap result (countProcessed st)) as [|cand|cand] eqn:Em.
    + eexists. split; [reflexivity|].
      destruct Hinv as [Hnone|[Hc Ht]]; [now left|right].
      destruct (endOfIteration_views
                  (withTx (UpsertFileTx (newRecord now "ok" result) (tx (countProcessed st)))
                          (countProcessed st))) as ([->| ->] & ->);
        cbn [withTx tx committed countProcessed];
        (split; [|now apply sliceable_upsert]); try exact Hc.
      now apply sliceable_upsert.
    + eexists. split; [reflexivity|].
      destruct Hinv as [Hnone|[Hc Ht]]; [now left|right].
      destruct (endOfIteration_views
                  (withTx (MovePathTx now (FileRecord.Path cand) (Result.Path result)
                                      (Result.Disk result) (Result.Size result)
                                      (Result.Mtime result) (tx (countProcessed st)))
                          (countProcessed st))) as ([->| ->] & ->);
        cbn [withTx tx committed countProcessed];
        (split; [|now apply sliceable_move]); try exact Hc.
      now apply sliceable_move.
    + destruct Hinv as [Hnone|[Hc Ht]].
      { subst lookupMap. discriminate Em. }
      assert (In cand (files (committed st))) as Hcand.
      { apply (moveDetection_In w lookupMap result (countProcessed st) cand). now left. }
      unfold obs.sliceable in Hc. rewrite List.Forall_forall in Hc.
      destruct (prefix12_Some _ (Hc cand Hcand)) as (oldSHA & ->).
      destruct (prefix12_Some _ Hlen) as (newSHA & ->).
      eexists. split; [reflexivity|]. right.
      apply List.Forall_forall in Hc.
      match goal with
      | |- obs.sliceable (committed (endOfIteration ?s)) /\ _ =>
          destruct (endOfIteration_views s) as ([->| ->] & ->)
      end;
        cbn [withTx tx committed countProcessed logged];
        (split; [|now apply sliceable_upsert]); try exact Hc.
      now apply sliceable_upsert.
Qed.

(** X26.  The result loop slices digests with [[:12]] when it warns about a
    moved file whose content differs, and a shorter digest would stop the
    program.  This cannot happen in a full scan, nor in an incremental scan
    of a catalog whose stored digests all have 12 characters or more:
    whatever the order in which the results of the pools arrive, the scan
    runs to its end and returns its report. *)
Theorem scan_never_panics
        (sc : scanner.Scanner) (w : os.World) (clock : Z -> Z) (fullScan : bool)
        (disks : list scanner.DiskInfo) (results : list Result.t) (d : DB)
        (Hdigests : fullScan = true \/ obs.sliceable d)
        (Hperm : Permutation results (hashed sc w (loadLookup fullScan d) disks)) :
  exists rep, scanFrom sc w clock fullScan disks results d = Some rep.
Proof.
  assert (Forall (fun r => Result.Err r = None ->
                           (12 <= String.length (Result.SHA256 r))%nat) results)
    as Hlen.
  { apply List.Forall_forall. intros r Hr Herr.
    apply (Permutation_in _ Hperm) in Hr. rewrite hashed_spec in Hr.
    apply List.in_map_iff in Hr as (fi & <- & _).
    rewrite (hashOne_digest_length w fi Herr). lia. }
  assert (forall st,
             loadLookup fullScan d = None \/
             (obs.sliceable (committed st) /\ obs.sliceable (tx st)) ->
             exists st', processResults w (loadLookup fullScan d) clock results st
                         = Some st') as Hloop.
  { clear Hperm. induction Hlen as [|r results Hr Hlen IH]; intros st Hinv.
    - eexists. reflexivity.
    - cbn [processResults].
      destruct (processResult_safe w (loadLookup fullScan d) (clock (totalProcessed st))
                                   r st Hr Hinv) as (st1 & -> & Hinv1).
      now apply IH. }
  destruct (Hloop (start d)) as (st' & Hst').
  { destruct Hdigests as [->|Hd]; [now left|right]. now split. }
  unfold scanFrom. rewrite Hst'. eexists. reflexivity.
Qed.

End ScanSafety.

Section ScanRecords.
Import main.
Import hasher.
Import db.

(** The open transaction at the end of the loop is the one at its start
    after a sequence of writes, all of them upserts in a full scan. *)
Lemma processResults_writes (w : os.World)
      (lookupMap : option (gmap string QuickLookup.t)) (clock : Z -> Z)
      (results : list Result.t) (st st' : ScanState) :
  processResults w lookupMap clock results st = Some st' ->
  exists ops,
    tx st' = fold_left exec ops (tx st) /\
    (lookupMap = None -> Forall (fun nw => exists f, snd nw = Upsert f) ops).
Proof.
  revert st. induction results as [|r results IH]; intros st Hrun.
  - cbn in Hrun. inversion Hrun; subst. exists []. split; [reflexivity|]. constructor.
  - cbn [processResults] in Hrun.
    destruct (processResult w lookupMap (clock (totalProcessed st)) r st)
      as [st1|] eqn:Estep; [|discriminate].
    destruct (IH st1 Hrun) as (ops & Htx & Hups).
    apply processResult_shape in Estep
      as [(_ & _ & _ & Ht1 & _)|(_ & mid & wr & -> & _ & _ & Ht1 & _ & _ & Hwr)].
    + exists ops. rewrite <- Ht1. auto.
    + exists ((clock (totalProcessed st), wr) :: ops). cbn [fold_left].
      rewrite <- Ht1, <- (endOfIteration_tx mid). split; [exact Htx|].
      intros Hnone. constructor; [cbn [snd]; now apply Hwr|now apply Hups].
Qed.

(** What the scan commits at its end is the open transaction of the loop. *)
Lemma scanFrom_final (sc : scanner.Scanner) (w : os.World) (clock : Z -> Z)
      (fullScan : bool) (disks : list scanner.DiskInfo) (results : list Result.t)
      (d : DB) (rep : ScanReport) :
  scanFrom sc w clock fullScan disks results d = Some rep ->
  exists st',
    processResults w (loadLookup fullScan d) clock results (start d) = Some st' /\
    committed (final rep) = tx st'.
Proof.
  unfold scanFrom. intros Hrun.
  destruct (processResults w (loadLookup fullScan d) clock results (start d))
    as [st'|] eqn:Eloop; [|discriminate].
  inversion Hrun; subst rep. clear Hrun. cbn [final].
  destruct (processResults_batches w _ clock results (start d) st' Eloop)
    as (Hbc & Hclean & _).
  { cbn. unfold batchSize. lia. }
  { reflexivity. }
  exists st'. split; [reflexivity|].
  unfold finish. destruct (0 <? batchCount st') eqn:Epos; cbn [committed]; [reflexivity|].
  symmetry. apply Hclean. apply Z.ltb_ge in Epos.
  cbn [start batchCount] in Hbc. rewrite Z.add_0_l in Hbc.
  pose proof (Z.mod_pos_bound
                (Z.of_nat (length (List.filter (fun r => negb (obs.isErr r)) results)))
                batchSize eq_refl).
  lia.
Qed.

Lemma wf_writes (ops : list (Z * write)) (d : DB) :
  wf d -> wf (fold_left exec ops d) /\ seq d <= seq (fold_left exec ops d).
Proof.
  revert d. induction ops as [|nw ops IH]; intros d Hwf; cbn [fold_left].
  - split; [exact Hwf|lia].
  - destruct (IH (exec d nw) (wf_exec d nw Hwf)) as [H1 H2].
    pose proof (exec_seq d nw). split; [exact H1|lia].
Qed.

(** X27.  A scan that runs to its end keeps the catalog within the schema
    and never alters a first-seen value: the committed catalog has unique
    paths and ids bounded by the id counter, the counter has not gone back,
    and a record that carries the id of a record of the initial catalog
    carries its first-seen value, whether it was updated in place, re-keyed
    by a move, or left alone. *)
Theorem scan_keeps_schema_and_first_seen
        (sc : scanner.Scanner) (w : os.World) (clock : Z -> Z) (fullScan : bool)
        (disks : list scanner.DiskInfo) (results : list Result.t) (d : DB)
        (rep : ScanReport)
        (Hwf : wf d)
        (Hrun : scanFrom sc w clock fullScan disks results d = Some rep) :
  wf (committed (final rep)) /\
  seq d <= seq (committed (final rep)) /\
  forall r r', In r (files d) -> In r' (files (committed (final rep))) ->
               FileRecord.ID r' = FileRecord.ID r ->
               FileRecord.FirstSeen r' = FileRecord.FirstSeen r.
Proof.
  destruct (scanFrom_final sc w clock fullScan disks results d rep Hrun)
    as (st' & Hloop & ->).
  destruct (processResults_writes w _ clock results (start d) st' Hloop)
    as (ops & -> & _).
  cbn [start tx].
  destruct (wf_writes ops d Hwf) as [Hwf' Hseq].
  split; [exact Hwf'|]. split; [exact Hseq|].
  intros r r' Hr Hr' Hid.
  exact (first_seen_kept_over_writes ops d r Hwf Hr r' Hr' Hid).
Qed.

Lemma upsert_identity (f : FileRecord.t) (d : DB) :
  exists added,
    map obs.identity (files (UpsertFileTx f d)) = map obs.identity (files d) ++ added.
Proof.
  unfold UpsertFileTx. destruct (existsb (hasPath (FileRecord.Path f)) (files d));
    cbn [files].
  - exists []. rewrite app_nil_r. apply map_map_same. intros r.
    now destruct (hasPath (FileRecord.Path f) r).
  - eexists. rewrite List.map_app. reflexivity.
Qed.

Lemma upserts_identity (ops : list (Z * write)) (d : DB) :
  Forall (fun nw => exists f, snd nw = Upsert f) ops ->
  exists added,
    map obs.identity (files (fold_left exec ops d)) = map obs.identity (files d) ++ added.
Proof.
  intros Hups. revert d. induction Hups as [|nw ops (f & Hf) Hups IH]; intros d.
  - exists []. now rewrite app_nil_r.
  - cbn [fold_left]. destruct (IH (exec d nw)) as (added2 & ->).
    unfold exec. rewrite Hf.
    destruct (upsert_identity f d) as (added1 & ->).
    exists (added1 ++ added2). now rewrite app_assoc.
Qed.

(** X28.  A full scan never removes or re-keys a record: the committed
    catalog begins with the records of the initial catalog in their order,
    each with its id, its path and its first-seen value, followed by the
    records the scan has added. *)
Theorem full_scan_keeps_every_record
        (sc : scanner.Scanner) (w : os.World) (clock : Z -> Z)
        (disks : list scanner.DiskInfo) (results : list Result.t) (d : DB)
        (rep : ScanReport)
        (Hrun : scanFrom sc w clock true disks results d = Some rep) :
  exists added,
    map obs.identity (files (committed (final rep)))
    = map obs.identity (files d) ++ added.
Proof.
  destruct (scanFrom_final sc w clock true disks results d rep Hrun)
    as (st' & Hloop & ->).
  destruct (processResults_writes w _ clock results (start d) st' Hloop)
    as (ops & -> & Hups).
  cbn [start tx]. apply upserts_identity. now apply Hups.
Qed.

End ScanRecords.

Lemma scan_commits_every_write_witness :
  exists rep st',
    main.scanCmd fixtures.noExcludes fixtures.worldMoved (fun _ => 80) true
                 [fixtures.disk2] fixtures.dbA = Some rep /\
    main.committed (main.final rep) = main.tx st' /\
    main.filesProcessed rep = 2 /\ main.batchCount (main.final rep) = 1.
Proof.
  destruct (main.scanCmd fixtures.noExcludes fixtures.worldMoved (fun _ => 80) true
                         [fixtures.disk2] fixtures.dbA) as [rep|] eqn:E;
    [|vm_compute in E; discriminate E].
  destruct (scan_commits_every_write
              fixtures.noExcludes fixtures.worldMoved (fun _ => 80) true
              [fixtures.disk2] _ fixtures.dbA rep E)
    as (st' & _ & Hc & _ & Hp & Hb).
  exists rep, st'. split; [reflexivity|]. split; [exact Hc|].
  split; [rewrite Hp|rewrite Hb]; vm_compute; reflexivity.
Defined.

Lemma scan_accounts_for_every_file_witness :
  exists rep,
    main.scanCmd fixtures.noExcludes fixtures.worldMoved (fun _ => 80) false
                 [fixtures.disk2] fixtures.dbB = Some rep /\
    main.filesProcessed rep + main.filesSkipped rep = 2 /\
    main.filesSkipped rep = 1.
Proof.
  destruct (main.scanCmd fixtures.noExcludes fixtures.worldMoved (fun _ => 80) false
                         [fixtures.disk2] fixtures.dbB) as [rep|] eqn:E;
    [|vm_compute in E; discriminate E].
  destruct (scan_accounts_for_every_file
              fixtures.noExcludes fixtures.worldMoved (fun _ => 80) false
              [fixtures.disk2] _ fixtures.dbB rep (Permutation_refl _) E)
    as (Hsum & _ & _).
  exists rep. split; [reflexivity|]. split.
  - rewrite Hsum. vm_compute. reflexivity.
  - vm_compute in E. inversion E. reflexivity.
Defined.

Lemma scan_never_panics_witness :
  obs.sliceable fixtures.dbA /\
  exists rep,
    main.scanCmd fixtures.noExcludes fixtures.worldMoved (fun _ => 80) false
                 [fixtures.disk2] fixtures.dbA = Some rep.
Proof.
  assert (obs.sliceable fixtures.dbA) as Hs
      by (repeat constructor; vm_compute; discriminate).
  split; [exact Hs|].
  exact (scan_never_panics fixtures.noExcludes fixtures.worldMoved (fun _ => 80) false
                           [fixtures.disk2] _ fixtures.dbA (or_intror Hs)
                           (Permutation_refl _)).
Defined.

Lemma scan_keeps_schema_and_first_seen_witness :
  db.wf fixtures.dbA /\
  exists rep,
    main.scanCmd fixtures.noExcludes fixtures.worldMoved (fun _ => 80) false
                 [fixtures.disk2] fixtures.dbA = Some rep /\
    db.wf (main.committed (main.final rep)) /\
    map db.FileRecord.Path (db.files (main.committed (main.final rep)))
    = [fixtures.newPath] /\
    forall r', In r' (db.files (main.committed (main.final rep))) ->
               db.FileRecord.ID r' = 1 -> db.FileRecord.FirstSeen r' = 10.
Proof.
  assert (db.wf fixtures.dbA) as Hwf by concrete_wf.
  split; [exact Hwf|].
  destruct (main.scanCmd fixtures.noExcludes fixtures.worldMoved (fun _ => 80) false
                         [fixtures.disk2] fixtures.dbA) as [rep|] eqn:E;
    [|vm_compute in E; discriminate E].
  destruct (scan_keeps_schema_and_first_seen
              fixtures.noExcludes fixtures.worldMoved (fun _ => 80) false
              [fixtures.disk2] _ fixtures.dbA rep Hwf E) as (Hwf' & _ & Hfs).
  exists rep. split; [reflexivity|]. split; [exact Hwf'|]. split.
  - vm_compute in E. inversion E. reflexivity.
  - intros r' Hr' Hid.
    exact (Hfs fixtures.rowA r' (or_introl eq_refl) Hr' Hid).
Defined.

Lemma full_scan_keeps_every_record_witness :
  exists rep added,
    main.scanCmd fixtures.noExcludes fixtures.worldMoved (fun _ => 80) true
                 [fixtures.disk2] fixtures.dbA = Some rep /\
    map obs.identity (db.files (main.committed (main.final rep)))
    = (1, fixtures.oldPath, 10) :: added.
Proof.
  destruct (main.scanCmd fixtures.noExcludes fixtures.worldMoved (fun _ => 80) true
                         [fixtures.disk2] fixtures.dbA) as [rep|] eqn:E;
    [|vm_compute in E; discriminate E].
  destruct (full_scan_keeps_every_record
              fixtures.noExcludes fixtures.worldMoved (fun _ => 80)
              [fixtures.disk2] _ fixtures.dbA rep E) as (added & Hid).
  exists rep, added. split; [reflexivity|exact Hid].
Defined.

Lemma scan_then_rescan_witness :
  db.wf fixtures.dbA /\
  List.NoDup (map hasher.FileInfo.Path
                  (main.scanned fixtures.excludeTmp fixtures.worldMoved [fixtures.disk2])) /\
  exists first second,
    main.scanCmd fixtures.excludeTmp fixtures.worldMoved (fun _ => 50) true
                 [fixtures.disk2] fixtures.dbA = Some first /\
    main.scanCmd fixtures.excludeTmp fixtures.worldMoved (fun _ => 80) false
                 [fixtures.disk2] (main.committed (main.final first)) = Some second /\
    main.committed (main.final second) = main.committed (main.final first) /\
    main.filesProcessed second = 0 /\
    main.filesSkipped second = 1.
Proof.
  assert (db.wf fixtures.dbA) as Hwf by concrete_wf.
  assert (List.NoDup (map hasher.FileInfo.Path
                          (main.scanned fixtures.excludeTmp fixtures.worldMoved
                                        [fixtures.disk2]))) as Hnd
      by (repeat constructor; simpl; tauto).
  split; [exact Hwf|]. split; [exact Hnd|].
  assert (forall fi,
             In fi (main.scanned fixtures.excludeTmp fixtures.worldMoved [fixtures.disk2]) ->
             0 <= hasher.FileInfo.Size fi /\
             hasher.Result.Err (hasher.hashOne fixtures.worldMoved fi) = None /\
             os.Stat fixtures.worldMoved (hasher.FileInfo.Path fi) <> os.StatNotExist)
    as Hall.
  { intros fi [<-|[]]. split; [cbn; lia|]. split; [vm_compute; reflexivity|].
    vm_compute. discriminate. }
  destruct (scan_then_rescan
              fixtures.excludeTmp fixtures.worldMoved (fun _ => 50) (fun _ => 80) true
              [fixtures.disk2] fixtures.dbA _ Hwf (or_introl eq_refl) Hnd Hall
              (Permutation_refl _))
    as (first & Hfirst & _ & second & Hsecond & Hsame & Hproc & Hskip).
  exists first, second. split; [exact Hfirst|]. split; [exact Hsecond|].
  split; [exact Hsame|]. split; [exact Hproc|exact Hskip].
Defined.
